(** * Quiz Builder: parser, validator and exporter

    A shallow embedding of [Core.js] (class [QuizParser]) and of
    [Services.js] (classes [QuizValidator] and [QuizExporter]), with the
    properties of the parsing pipeline stated over it.

    Conventions of the embedding.
    - A JavaScript string is a [string]: a sequence of code units, here
      restricted to the range 0..255.  The white space of [trim] and of
      the regular-expression class [\s] is, in that range, the set
      9..13, 32 and 160.
    - [throw new Error(msg)] is the [Err msg] of the [result] monad.
    - The host document (Google Apps Script [Body], [Paragraph], ...) is
      read-only input; every element is modelled by what its accessors
      return ([getText], [getChild], [getGlyphType], ...).
    - Blobs are mutable host objects: they live in a heap and the image
      store of a parse result holds references to them.
    - The controller ([Code.js]) is embedded for what it reads of the
      document and, where it edits a paragraph or list item, for the
      text the edit leaves. *)

From Stdlib Require Import String Ascii List Bool Arith Lia ZArith DecimalString.
From Stdlib Require Import Strings.Byte.
From Stdlib Require DecimalNat DecimalFacts.
Import ListNotations.
Open Scope string_scope.
Open Scope nat_scope.

Set Implicit Arguments.
Set Warnings "-register-all".

(* ================================================================== *)
(** ** JavaScript string primitives *)
(* ================================================================== *)

Module Js.

(** The double quote, kept out of string literals. *)
Definition dq : string := String (ascii_of_nat 34) "".

(** [\s], and the characters removed by [String.prototype.trim]. *)
Definition isSpace (c : ascii) : bool :=
  let n := nat_of_ascii c in
  ((9 <=? n) && (n <=? 13)) || (n =? 32) || (n =? 160).

(** [.] of a regular expression without the [s] flag: anything but a
    line terminator. *)
Definition isLineTerminator (c : ascii) : bool :=
  let n := nat_of_ascii c in (n =? 10) || (n =? 13).

Definition isDigit (c : ascii) : bool :=
  let n := nat_of_ascii c in (48 <=? n) && (n <=? 57).

Definition isAlpha (c : ascii) : bool :=
  let n := nat_of_ascii c in
  ((65 <=? n) && (n <=? 90)) || ((97 <=? n) && (n <=? 122)).

Definition isAlnum (c : ascii) : bool := isAlpha c || isDigit c.

Definition isEmpty (s : string) : bool :=
  match s with EmptyString => true | _ => false end.

(** Truthiness of a string: [if (s)]. *)
Definition truthy (s : string) : bool := negb (isEmpty s).

Fixpoint trimStart (s : string) : string :=
  match s with
  | String c s' => if isSpace c then trimStart s' else s
  | EmptyString => EmptyString
  end.

Fixpoint trimEnd (s : string) : string :=
  match s with
  | String c s' =>
      let r := trimEnd s' in
      if isSpace c && isEmpty r then EmptyString else String c r
  | EmptyString => EmptyString
  end.

Definition trim (s : string) : string := trimEnd (trimStart s).

(** [s.startsWith(p)] and [/^p/.test(s)] for a literal [p]. *)
Definition startsWith (s p : string) : bool := String.prefix p s.

Fixpoint drop (n : nat) (s : string) : string :=
  match n, s with
  | S k, String _ s' => drop k s'
  | _, _ => s
  end.

(** [s.slice(n)] for [0 <= n]. *)
Definition slice (s : string) (n : nat) : string := drop n s.

(** [s.substring(a, b)]: both ends clamped to the length, swapped when
    out of order. *)
Definition substring (s : string) (a b : nat) : string :=
  let len := String.length s in
  let a' := Nat.min a len in
  let b' := Nat.min b len in
  String.substring (Nat.min a' b') (Nat.max a' b' - Nat.min a' b') s.

(** [s.replace(/pat/g, rep)] for a literal, non-empty [pat]: leftmost
    matches, not overlapping; [skip] counts the characters of a match
    still to be passed over. *)
Fixpoint replaceAllFrom (pat rep : string) (skip : nat) (s : string) : string :=
  match s with
  | EmptyString => EmptyString
  | String c s' =>
      match skip with
      | S k => replaceAllFrom pat rep k s'
      | O =>
          if String.prefix pat s
          then rep ++ replaceAllFrom pat rep (String.length pat - 1) s'
          else String c (replaceAllFrom pat rep 0 s')
      end
  end.

Definition replaceAll (pat rep s : string) : string :=
  replaceAllFrom pat rep 0 s.

(** [s.replace(/\s+/g, ' ')]. *)
Fixpoint collapseSpacesFrom (inRun : bool) (s : string) : string :=
  match s with
  | EmptyString => EmptyString
  | String c s' =>
      if isSpace c
      then (if inRun then collapseSpacesFrom true s'
            else String " " (collapseSpacesFrom true s'))
      else String c (collapseSpacesFrom false s')
  end.

Definition collapseSpaces (s : string) : string := collapseSpacesFrom false s.

(** [/^\s*<>\s*/.test(s)]. *)
Definition hasLeadingMarker (s : string) : bool :=
  startsWith (trimStart s) "<>".

(** [s.replace(/^\s*<>\s*/, '')]. *)
Definition stripLeadingMarker (s : string) : string :=
  if hasLeadingMarker s then trimStart (drop 2 (trimStart s)) else s.

(** [s.replace(/^\\+/, '')]. *)
Fixpoint stripLeadingBackslashes (s : string) : string :=
  match s with
  | String c s' => if Ascii.eqb c "\" then stripLeadingBackslashes s' else s
  | EmptyString => EmptyString
  end.

(** [String(n)] for a natural number. *)
Definition ofNat (n : nat) : string :=
  NilEmpty.string_of_uint (Nat.to_uint n).

(** [String(z)] for an integer. *)
Definition ofZ (z : Z) : string :=
  NilZero.string_of_int (Z.to_int z).

Fixpoint repeat0 (n : nat) : string :=
  match n with O => EmptyString | S k => String "0" (repeat0 k) end.

(** [s.padStart(n, '0')]. *)
Definition padStart0 (n : nat) (s : string) : string :=
  repeat0 (n - String.length s) ++ s.

(** [parts.join('')]. *)
Definition join (parts : list string) : string := String.concat "" parts.

Fixpoint forallb_str (p : ascii -> bool) (s : string) : bool :=
  match s with
  | EmptyString => true
  | String c s' => p c && forallb_str p s'
  end.

(** [a || b] on numbers: 0 is falsy. *)
Definition orNat (a b : nat) : nat :=
  match a with O => b | _ => a end.

End Js.

(** [throw]/[return] of a function that may raise an [Error]. *)
Inductive result (A : Type) : Type :=
| Ok (a : A)
| Err (message : string).
Arguments Ok {A} a.
Arguments Err {A} message.

Definition bind {A B : Type} (r : result A) (k : A -> result B) : result B :=
  match r with
  | Ok a => k a
  | Err m => Err m
  end.

Notation "'do' x <- r ; k" := (bind r (fun x => k))
  (at level 10, x pattern, r at level 100, k at level 200).

(** [array.push(x)]. *)
Definition push {A : Type} (l : list A) (x : A) : list A := (l ++ [x])%list.

Definition isOk {A : Type} (r : result A) : bool :=
  match r with Ok _ => true | Err _ => false end.

(* ================================================================== *)
(** ** The document tree (input) *)
(* ================================================================== *)

(** [DocumentApp.GlyphType]; [GLYPH_NULL] is the [null] that
    [getGlyphType] returns for an item without a glyph. *)
Inductive GlyphType : Type :=
| BULLET | HOLLOW_BULLET | SQUARE_BULLET
| NUMBER | LATIN_UPPER | LATIN_LOWER | ROMAN_UPPER | ROMAN_LOWER
| GLYPH_NULL.

Inductive VerticalAlignment : Type := NORMAL | SUPERSCRIPT | SUBSCRIPT.

(** The attributes [getAttributes(offset)] returns, as far as the
    renderer reads them. *)
Record Attributes : Type := {
  BOLD : bool;
  ITALIC : bool;
  UNDERLINE : bool;
  STRIKETHROUGH : bool;
  VERTICAL_ALIGNMENT : option VerticalAlignment;
  LINK_URL : option string
}.

Definition plain : Attributes :=
  {| BOLD := false; ITALIC := false; UNDERLINE := false;
     STRIKETHROUGH := false; VERTICAL_ALIGNMENT := None; LINK_URL := None |}.

(** A host blob: [getName]/[setName], [getContentType], [getBytes]. *)
Record Blob : Type := {
  blobName : option string;
  blobContentType : string;
  blobBytes : list byte
}.

(** Inline children of a paragraph or list item.  A [TEXT] carries
    [getText()] and, for every index of [getTextAttributeIndices()], the
    attributes in force from there.  An [INLINE_IMAGE] carries the data
    of [getBlob()] and [getWidth()]/[getHeight()] (integers; [None] when
    the value is not a finite number). *)
Inductive Inline : Type :=
| TEXT (text : string) (runs : list (nat * Attributes))
| INLINE_IMAGE (data : Blob) (width height : option Z)
| EQUATION (children : list Inline)
| EQUATION_FUNCTION (code : string) (children : list Inline)
| EQUATION_SYMBOL (code : string) (text : string)
| OTHER_INLINE.

(** Children of the body or of a table cell.  [text] is what [getText()]
    returns for the element. *)
Inductive Block : Type :=
| PARAGRAPH (text : string) (children : list Inline)
| LIST_ITEM (text : string) (glyph : GlyphType) (children : list Inline)
| TABLE (rows : list (list (list Block)))
| OTHER_BLOCK.

Definition Body : Type := list Block.

(* ================================================================== *)
(** ** The image store and the blob heap *)
(* ================================================================== *)

Definition BlobRef : Type := nat.
Definition Heap : Type := list Blob.

(** [result.images]: a JavaScript object used as a map from file name to
    blob, in insertion order.  This is the order in which the object
    enumerates its keys as long as none of them is a string of digits
    only (the keys the parser makes start with [q]). *)
Definition ImageStore : Type := list (string * BlobRef).

Record World : Type := {
  heap : Heap;
  images : ImageStore
}.

Definition alloc (h : Heap) (b : Blob) : Heap * BlobRef :=
  (push h b, List.length h).

Fixpoint hasKey (k : string) (st : ImageStore) : bool :=
  match st with
  | [] => false
  | (k', _) :: st' => String.eqb k' k || hasKey k st'
  end.

Fixpoint overwrite (k : string) (r : BlobRef) (st : ImageStore) : ImageStore :=
  match st with
  | [] => []
  | (k', r') :: st' =>
      if String.eqb k' k then (k', r) :: st' else (k', r') :: overwrite k r st'
  end.

(** [imageStore[filename] = blob]. *)
Definition storeSet (k : string) (r : BlobRef) (st : ImageStore) : ImageStore :=
  if hasKey k st then overwrite k r st else push st (k, r).

(** [Object.keys(imageStore)]. *)
Definition keys (st : ImageStore) : list string := map fst st.

(* ================================================================== *)
(** ** Rich-content renderer ([QuizParser._extract...]) *)
(* ================================================================== *)

(** The [context] argument of [_extractHtml]: [undefined] ([None]) or an
    object with the three flags the renderer reads. *)
Record Context : Type := {
  stripLeadingCorrectMarker : bool;
  _markerStripped : bool;
  inEquation : bool
}.

Definition flag (f : Context -> bool) (context : option Context) : bool :=
  match context with Some c => f c | None => false end.

(** [Object.assign({}, context, { inEquation: true })]. *)
Definition assignInEquation (context : option Context) : Context :=
  match context with
  | Some c => {| stripLeadingCorrectMarker := stripLeadingCorrectMarker c;
                 _markerStripped := _markerStripped c;
                 inEquation := true |}
  | None => {| stripLeadingCorrectMarker := false;
               _markerStripped := false;
               inEquation := true |}
  end.

(** [context._markerStripped = true], run only under
    [context && context.stripLeadingCorrectMarker]. *)
Definition setMarkerStripped (context : option Context) : option Context :=
  match context with
  | Some c => Some {| stripLeadingCorrectMarker := stripLeadingCorrectMarker c;
                      _markerStripped := true;
                      inEquation := inEquation c |}
  | None => None
  end.

Definition _escapeHtml (text : string) : string :=
  if Js.isEmpty text then ""
  else
    Js.replaceAll "'" "&#039;"
      (Js.replaceAll Js.dq "&quot;"
        (Js.replaceAll ">" "&gt;"
          (Js.replaceAll "<" "&lt;"
            (Js.replaceAll "&" "&amp;" text)))).

Definition _escapeHtmlAttr (text : string) : string :=
  Js.replaceAll "'" "&#039;"
    (Js.replaceAll Js.dq "&quot;"
      (Js.replaceAll ">" "&gt;"
        (Js.replaceAll "<" "&lt;"
          (Js.replaceAll "&" "&amp;" text)))).

(** The MIME types read from a document image contain a slash, so the
    lookup never meets a property inherited by the object literal. *)
Definition _getExtension (mime : string) : string :=
  if String.eqb mime "image/png" then "png"
  else if String.eqb mime "image/jpeg" then "jpg"
  else if String.eqb mime "image/gif" then "gif"
  else "png".

Definition _htmlListInfoFromGlyph (glyphType : GlyphType) : string * string :=
  match glyphType with
  | BULLET | HOLLOW_BULLET | SQUARE_BULLET => ("ul", "")
  | NUMBER => ("ol", " type=" ++ Js.dq ++ "1" ++ Js.dq)
  | LATIN_UPPER => ("ol", " type=" ++ Js.dq ++ "A" ++ Js.dq)
  | LATIN_LOWER => ("ol", " type=" ++ Js.dq ++ "a" ++ Js.dq)
  | ROMAN_UPPER => ("ol", " type=" ++ Js.dq ++ "I" ++ Js.dq)
  | ROMAN_LOWER => ("ol", " type=" ++ Js.dq ++ "i" ++ Js.dq)
  | GLYPH_NULL => ("ul", "")
  end.

Definition knownCommands : list string :=
  [ "alpha"; "beta"; "gamma"; "delta"; "epsilon"; "zeta"; "eta"; "theta";
    "iota"; "kappa"; "lambda"; "mu"; "nu"; "xi"; "omicron"; "pi"; "rho";
    "sigma"; "tau"; "upsilon"; "phi"; "chi"; "psi"; "omega";
    "Gamma"; "Delta"; "Theta"; "Lambda"; "Xi"; "Pi"; "Sigma"; "Upsilon";
    "Phi"; "Psi"; "Omega";
    "pm"; "mp"; "times"; "div"; "cdot"; "circ"; "ast"; "star"; "oplus";
    "otimes";
    "leq"; "geq"; "neq"; "approx"; "sim"; "equiv"; "propto";
    "in"; "notin"; "subset"; "subseteq"; "supset"; "supseteq"; "cup"; "cap";
    "forall"; "exists"; "neg"; "land"; "lor";
    "rightarrow"; "leftarrow"; "leftrightarrow"; "Rightarrow"; "Leftarrow";
    "Leftrightarrow";
    "infty" ].

Definition _latexForEquationSymbolCode (code : string) : string :=
  let trimmed := Js.stripLeadingBackslashes (Js.trim code) in
  if Js.isEmpty trimmed then ""
  else if String.eqb trimmed "superscript" || String.eqb trimmed "super" then "^"
  else if String.eqb trimmed "subscript" || String.eqb trimmed "sub" then "_"
  else if (String.length trimmed =? 1) && Js.forallb_str Js.isAlnum trimmed
       then trimmed
  else if Js.forallb_str Js.isAlpha trimmed
          && negb (existsb (String.eqb trimmed) knownCommands)
       then trimmed
  else "\" ++ trimmed.

(** The style wrapping of one chunk of [_extractStyledText]. *)
Definition wrapStyles (attrs : Attributes) (html : string) : string :=
  let html :=
    match VERTICAL_ALIGNMENT attrs with
    | Some SUPERSCRIPT => "<sup>" ++ html ++ "</sup>"
    | Some SUBSCRIPT => "<sub>" ++ html ++ "</sub>"
    | _ => html
    end in
  let html := if STRIKETHROUGH attrs then "<s>" ++ html ++ "</s>" else html in
  let html := if UNDERLINE attrs then "<u>" ++ html ++ "</u>" else html in
  let html := if ITALIC attrs then "<i>" ++ html ++ "</i>" else html in
  let html := if BOLD attrs then "<b>" ++ html ++ "</b>" else html in
  match LINK_URL attrs with
  | Some linkUrl =>
      if Js.truthy linkUrl
      then "<a href=" ++ Js.dq ++ _escapeHtmlAttr linkUrl ++ Js.dq
           ++ " target=" ++ Js.dq ++ "_blank" ++ Js.dq
           ++ " rel=" ++ Js.dq ++ "noopener noreferrer" ++ Js.dq ++ ">"
           ++ html ++ "</a>"
      else html
  | None => html
  end.

(** The loop of [_extractStyledText] over the attribute indices; the
    chunk of an index ends where the next index starts. *)
Fixpoint styledChunks (text : string) (runs : list (nat * Attributes))
    (context : option Context) : list string * option Context :=
  match runs with
  | [] => ([], context)
  | (start, attrs) :: rest =>
      let stop := match rest with
                  | (next, _) :: _ => next
                  | [] => String.length text
                  end in
      let chunk := Js.substring text start stop in
      if Js.isEmpty chunk then styledChunks text rest context
      else
        let pending :=
          flag stripLeadingCorrectMarker context
          && negb (flag _markerStripped context) in
        let chunk' := if pending then Js.stripLeadingMarker chunk else chunk in
        let context := if pending then setMarkerStripped context else context in
        let html := Js.replaceAll (String (ascii_of_nat 10) "") "<br/>"
                      (_escapeHtml chunk') in
        let '(parts, context') := styledChunks text rest context in
        (wrapStyles attrs html :: parts, context')
  end.

Definition _extractStyledText (text : string) (runs : list (nat * Attributes))
    (context : option Context) : string * option Context :=
  if Js.isEmpty text then ("", context)
  else
    let '(parts, context') := styledChunks text runs context in
    (Js.join parts, context').

Definition dimensionAttr (name : string) (v : option Z) : string :=
  match v with
  | Some n =>
      if (0 <? n)%Z
      then " " ++ name ++ "=" ++ Js.dq ++ Js.ofZ n ++ Js.dq
      else ""
  | None => ""
  end.

(** [args[0]] inside a template literal: [undefined] prints as such. *)
Definition templateArg (a : option string) : string :=
  match a with Some s => s | None => "undefined" end.

(** [args[0] || '']. *)
Definition argOrEmpty (a : option string) : string :=
  match a with Some s => s | None => "" end.

(** The translation table of an [EQUATION_FUNCTION], on its rendered
    arguments. *)
Definition renderFunction (funcCodeRaw : string) (args : list string) : string :=
  let funcCode := Js.stripLeadingBackslashes (Js.trim funcCodeRaw) in
  if String.eqb funcCode "frac" then
    let numerator := argOrEmpty (nth_error args 0) in
    let denominator := Js.join (tl args) in
    "\frac{" ++ numerator ++ "}{" ++ denominator ++ "}"
  else if String.eqb funcCode "root" then
    if (List.length args =? 2) && Js.truthy (argOrEmpty (nth_error args 1))
    then "\sqrt[" ++ templateArg (nth_error args 1) ++ "]{"
         ++ templateArg (nth_error args 0) ++ "}"
    else "\sqrt{" ++ templateArg (nth_error args 0) ++ "}"
  else if String.eqb funcCode "super" || String.eqb funcCode "superscript" then
    "^{" ++ argOrEmpty (nth_error args 0) ++ "}"
  else if String.eqb funcCode "sub" || String.eqb funcCode "subscript" then
    "_{" ++ argOrEmpty (nth_error args 0) ++ "}"
  else if Js.isEmpty funcCode then Js.join args
  else "\" ++ funcCode ++ Js.join (map (fun a => "{" ++ a ++ "}") args).

(** The number of keys of the store that start with [questionId + '_']. *)
Definition existingCount (questionId : string) (st : ImageStore) : nat :=
  List.length (filter (fun k => Js.startsWith k (questionId ++ "_")) (keys st)).

Definition imageFilename (questionId : string) (st : ImageStore) (mime : string)
  : string :=
  questionId ++ "_img_" ++ Js.padStart0 3 (Js.ofNat (existingCount questionId st + 1))
  ++ "." ++ _getExtension mime.

Fixpoint _extractNode (child : Inline) (w : World) (questionId : string)
    (context : option Context) {struct child}
  : string * World * option Context :=
  match child with
  | TEXT text runs =>
      if flag inEquation context then (_escapeHtml text, w, context)
      else
        let '(html, context') := _extractStyledText text runs context in
        (html, w, context')
  | INLINE_IMAGE data width height =>
      let filename := imageFilename questionId (images w) (blobContentType data) in
      let '(heap', blob) := alloc (heap w) data in
      let w' := {| heap := heap'; images := storeSet filename blob (images w) |} in
      ("<img src=" ++ Js.dq ++ "images/" ++ filename ++ Js.dq
       ++ dimensionAttr "width" width ++ dimensionAttr "height" height
       ++ " style=" ++ Js.dq ++ "max-width: 100%; height: auto;" ++ Js.dq ++ " />",
       w', context)
  | EQUATION children =>
      let fix html (kids : list Inline) (w : World) (c : option Context)
        : string * World * option Context :=
        match kids with
        | [] => ("", w, c)
        | k :: kids' =>
            let '(h, w1, c1) := _extractNode k w questionId c in
            let '(hs, w2, c2) := html kids' w1 c1 in
            (h ++ hs, w2, c2)
        end in
      let '(h, w', _) := html children w (Some (assignInEquation context)) in
      ("$" ++ h ++ "$", w', context)
  | EQUATION_FUNCTION code children =>
      let fix renderArgs (kids : list Inline) (w : World) : list string * World :=
        match kids with
        | [] => ([], w)
        | k :: kids' =>
            let '(a, w1, _) :=
              _extractNode k w questionId (Some (assignInEquation context)) in
            let '(rest, w2) := renderArgs kids' w1 in
            (a :: rest, w2)
        end in
      let '(args, w') := renderArgs children w in
      (renderFunction code args, w', context)
  | EQUATION_SYMBOL code text =>
      if Js.truthy code then (_latexForEquationSymbolCode code, w, context)
      else (_escapeHtml text, w, context)
  | OTHER_INLINE => ("", w, context)
  end.

(** [_extractHtml(element, ...)] on the children of [element]: one
    context object is shared by all of them. *)
Fixpoint _extractHtml (children : list Inline) (w : World) (questionId : string)
    (context : option Context) : string * World * option Context :=
  match children with
  | [] => ("", w, context)
  | k :: kids' =>
      let '(h, w1, c1) := _extractNode k w questionId context in
      let '(hs, w2, c2) := _extractHtml kids' w1 questionId c1 in
      (h ++ hs, w2, c2)
  end.

(** The arguments of an [EQUATION_FUNCTION]: every child is rendered under
    a fresh copy of the context with [inEquation] set. *)
Fixpoint renderArgs (kids : list Inline) (w : World) (questionId : string)
    (context : option Context) : list string * World :=
  match kids with
  | [] => ([], w)
  | k :: kids' =>
      let '(a, w1, _) :=
        _extractNode k w questionId (Some (assignInEquation context)) in
      let '(rest, w2) := renderArgs kids' w1 questionId context in
      (a :: rest, w2)
  end.

(** The open-list bookkeeping of a table cell ([listOpen], [listTag],
    [listAttrs]). *)
Record ListState : Type := {
  listOpen : bool;
  listTag : option string;
  listAttrs : string
}.

Definition noList : ListState :=
  {| listOpen := false; listTag := None; listAttrs := "" |}.

(** A tag inside a template literal; [null] prints as such. *)
Definition templateTag (t : option string) : string :=
  match t with Some s => s | None => "null" end.

(** [listTag !== nextTag]. *)
Definition tagDiffers (t : option string) (nextTag : string) : bool :=
  match t with Some s => negb (String.eqb s nextTag) | None => true end.

Definition closeList (html : string) (ls : ListState) : string * ListState :=
  if listOpen ls then (html ++ "</" ++ templateTag (listTag ls) ++ ">", noList)
  else (html, ls).

(** [_extractTableHtml(table, imageStore, questionId)]; the recursion is
    on the table block, whose cells hold further blocks. *)
Fixpoint _extractTableHtml (table : Block) (w : World) (questionId : string)
    {struct table} : string * World :=
  match table with
  | TABLE rows =>
      let fix cellLoop (blocks : list Block) (html : string) (ls : ListState)
          (w : World) : string * ListState * World :=
        match blocks with
        | [] => (html, ls, w)
        | block :: blocks' =>
            match block with
            | PARAGRAPH _ kids =>
                let '(html, ls) := closeList html ls in
                let '(h, w, _) := _extractHtml kids w questionId None in
                cellLoop blocks' (html ++ h ++ "<br/>") ls w
            | LIST_ITEM _ glyph kids =>
                let '(tag, attrs) := _htmlListInfoFromGlyph glyph in
                let '(html, ls) :=
                  if negb (listOpen ls) || tagDiffers (listTag ls) tag
                     || negb (String.eqb (listAttrs ls) attrs)
                  then
                    let '(html, _) := closeList html ls in
                    (html ++ "<" ++ tag ++ attrs ++ ">",
                     {| listOpen := true; listTag := Some tag; listAttrs := attrs |})
                  else (html, ls) in
                let '(h, w, _) := _extractHtml kids w questionId None in
                cellLoop blocks' (html ++ "<li>" ++ h ++ "</li>") ls w
            | TABLE _ =>
                let '(html, ls) := closeList html ls in
                let '(h, w) := _extractTableHtml block w questionId in
                cellLoop blocks' (html ++ h) ls w
            | OTHER_BLOCK => cellLoop blocks' html ls w
            end
        end in
      let fix rowLoop (cells : list (list Block)) (html : string) (w : World)
        : string * World :=
        match cells with
        | [] => (html, w)
        | cell :: cells' =>
            let '(html, ls, w) := cellLoop cell (html ++ "<td>") noList w in
            let '(html, _) := closeList html ls in
            rowLoop cells' (html ++ "</td>") w
        end in
      let fix tableLoop (rows : list (list (list Block))) (html : string)
          (w : World) : string * World :=
        match rows with
        | [] => (html, w)
        | row :: rows' =>
            let '(html, w) := rowLoop row (html ++ "<tr>") w in
            tableLoop rows' (html ++ "</tr>") w
        end in
      let '(html, w) := tableLoop rows "<table>" w in
      (html ++ "</table>", w)
  | _ => ("", w)
  end.

(* ================================================================== *)
(** ** The Quiz Model *)
(* ================================================================== *)

Inductive QuizType : Type := MCQ | ESSAY.

Definition quizTypeName (t : QuizType) : string :=
  match t with MCQ => "MCQ" | ESSAY => "ESSAY" end.

(** An option of a question.  [o_choiceText] is [None] when the property
    is absent or not a string (the parser always sets it). *)
Record QuizOption : Type := {
  o_id : string;
  o_text : string;
  o_choiceText : option string;
  o_isCorrect : bool;
  o_line : nat
}.

(** The question object of [_createQuestionObj], fields in its order. *)
Record Question : Type := {
  q_num : nat;
  q_id : string;
  q_line : nat;
  q_content : string;
  q_contentHtmlParts : list string;
  q_descriptions : option string;
  q_descriptionHtmlParts : list string;
  q_hasOptionsTag : bool;
  q_optionsTagLine : nat;
  q_hasDescriptionsTag : bool;
  q_descriptionsTagLine : nat;
  q_options : list QuizOption;
  q_listOpen : bool;
  q_listTag : option string;
  q_listAttrs : string;
  q_descListOpen : bool;
  q_descListTag : option string;
  q_descListAttrs : string
}.

(** The value [parse] returns (and [validate] and [generateZip] take).
    [quizType] is [None] for [null] or any value other than the two
    kinds. *)
Record ParseResult : Type := {
  quizType : option QuizType;
  questions : list Question;
  r_images : ImageStore
}.

Definition _createQuestionObj (num line : nat) : Question :=
  {| q_num := num;
     q_id := "q" ++ Js.ofNat num;
     q_line := line;
     q_content := "";
     q_contentHtmlParts := [];
     q_descriptions := None;
     q_descriptionHtmlParts := [];
     q_hasOptionsTag := false;
     q_optionsTagLine := 0;
     q_hasDescriptionsTag := false;
     q_descriptionsTagLine := 0;
     q_options := [];
     q_listOpen := false;
     q_listTag := None;
     q_listAttrs := "";
     q_descListOpen := false;
     q_descListTag := None;
     q_descListAttrs := "" |}.

(** Field updates of the question under construction. *)
Definition setContentBuffer (q : Question) (parts : list string)
    (open : bool) (tag : option string) (attrs : string) : Question :=
  {| q_num := q_num q; q_id := q_id q; q_line := q_line q;
     q_content := q_content q;
     q_contentHtmlParts := parts;
     q_descriptions := q_descriptions q;
     q_descriptionHtmlParts := q_descriptionHtmlParts q;
     q_hasOptionsTag := q_hasOptionsTag q;
     q_optionsTagLine := q_optionsTagLine q;
     q_hasDescriptionsTag := q_hasDescriptionsTag q;
     q_descriptionsTagLine := q_descriptionsTagLine q;
     q_options := q_options q;
     q_listOpen := open; q_listTag := tag; q_listAttrs := attrs;
     q_descListOpen := q_descListOpen q;
     q_descListTag := q_descListTag q;
     q_descListAttrs := q_descListAttrs q |}.

Definition setDescriptionBuffer (q : Question) (parts : list string)
    (open : bool) (tag : option string) (attrs : string) : Question :=
  {| q_num := q_num q; q_id := q_id q; q_line := q_line q;
     q_content := q_content q;
     q_contentHtmlParts := q_contentHtmlParts q;
     q_descriptions := q_descriptions q;
     q_descriptionHtmlParts := parts;
     q_hasOptionsTag := q_hasOptionsTag q;
     q_optionsTagLine := q_optionsTagLine q;
     q_hasDescriptionsTag := q_hasDescriptionsTag q;
     q_descriptionsTagLine := q_descriptionsTagLine q;
     q_options := q_options q;
     q_listOpen := q_listOpen q; q_listTag := q_listTag q;
     q_listAttrs := q_listAttrs q;
     q_descListOpen := open; q_descListTag := tag; q_descListAttrs := attrs |}.

Definition setOptionsTag (q : Question) (line : nat) : Question :=
  {| q_num := q_num q; q_id := q_id q; q_line := q_line q;
     q_content := q_content q;
     q_contentHtmlParts := q_contentHtmlParts q;
     q_descriptions := q_descriptions q;
     q_descriptionHtmlParts := q_descriptionHtmlParts q;
     q_hasOptionsTag := true;
     q_optionsTagLine := line;
     q_hasDescriptionsTag := q_hasDescriptionsTag q;
     q_descriptionsTagLine := q_descriptionsTagLine q;
     q_options := q_options q;
     q_listOpen := q_listOpen q; q_listTag := q_listTag q;
     q_listAttrs := q_listAttrs q;
     q_descListOpen := q_descListOpen q;
     q_descListTag := q_descListTag q;
     q_descListAttrs := q_descListAttrs q |}.

Definition setDescriptionsTag (q : Question) (line : nat) : Question :=
  {| q_num := q_num q; q_id := q_id q; q_line := q_line q;
     q_content := q_content q;
     q_contentHtmlParts := q_contentHtmlParts q;
     q_descriptions := q_descriptions q;
     q_descriptionHtmlParts := q_descriptionHtmlParts q;
     q_hasOptionsTag := q_hasOptionsTag q;
     q_optionsTagLine := q_optionsTagLine q;
     q_hasDescriptionsTag := true;
     q_descriptionsTagLine := line;
     q_options := q_options q;
     q_listOpen := q_listOpen q; q_listTag := q_listTag q;
     q_listAttrs := q_listAttrs q;
     q_descListOpen := q_descListOpen q;
     q_descListTag := q_descListTag q;
     q_descListAttrs := q_descListAttrs q |}.

Definition setOptions (q : Question) (opts : list QuizOption) : Question :=
  {| q_num := q_num q; q_id := q_id q; q_line := q_line q;
     q_content := q_content q;
     q_contentHtmlParts := q_contentHtmlParts q;
     q_descriptions := q_descriptions q;
     q_descriptionHtmlParts := q_descriptionHtmlParts q;
     q_hasOptionsTag := q_hasOptionsTag q;
     q_optionsTagLine := q_optionsTagLine q;
     q_hasDescriptionsTag := q_hasDescriptionsTag q;
     q_descriptionsTagLine := q_descriptionsTagLine q;
     q_options := opts;
     q_listOpen := q_listOpen q; q_listTag := q_listTag q;
     q_listAttrs := q_listAttrs q;
     q_descListOpen := q_descListOpen q;
     q_descListTag := q_descListTag q;
     q_descListAttrs := q_descListAttrs q |}.

(** The [forEach] that ends [parse]: [content] and [descriptions] are
    joined from the accumulated parts. *)
Definition finalizeQuestion (q : Question) : Question :=
  let desc := Js.join (q_descriptionHtmlParts q) in
  {| q_num := q_num q; q_id := q_id q; q_line := q_line q;
     q_content := Js.join (q_contentHtmlParts q);
     q_contentHtmlParts := q_contentHtmlParts q;
     q_descriptions := if Js.truthy desc then Some desc else None;
     q_descriptionHtmlParts := q_descriptionHtmlParts q;
     q_hasOptionsTag := q_hasOptionsTag q;
     q_optionsTagLine := q_optionsTagLine q;
     q_hasDescriptionsTag := q_hasDescriptionsTag q;
     q_descriptionsTagLine := q_descriptionsTagLine q;
     q_options := q_options q;
     q_listOpen := q_listOpen q; q_listTag := q_listTag q;
     q_listAttrs := q_listAttrs q;
     q_descListOpen := q_descListOpen q;
     q_descListTag := q_descListTag q;
     q_descListAttrs := q_descListAttrs q |}.

(* ================================================================== *)
(** ** The document parser ([QuizParser.parse]) *)
(* ================================================================== *)

(** [_parseBeginTag]: the trimmed text against
    [/^\[BEGIN#(MCQ|ESSAY)\]$/]. *)
Definition _parseBeginTag (text : string) : option QuizType :=
  let t := Js.trim text in
  if String.eqb t "[BEGIN#MCQ]" then Some MCQ
  else if String.eqb t "[BEGIN#ESSAY]" then Some ESSAY
  else None.

Record QuestionTag : Type := {
  inlineText : string;
  labelDigits : option string   (* [m[1]], read by no caller *)
}.

(** The longest prefix of digits, and what follows it. *)
Fixpoint spanDigits (s : string) : string * string :=
  match s with
  | String c s' =>
      if Js.isDigit c
      then let '(d, r) := spanDigits s' in (String c d, r)
      else (EmptyString, s)
  | EmptyString => (EmptyString, EmptyString)
  end.

Definition msgInvalidQuestionTag (t : string) : string :=
  "Invalid question tag " ++ Js.dq ++ t ++ Js.dq
  ++ ". Use [QUESTION] or [QUESTION#<number>] (e.g., [QUESTION#1]).".

(** [_parseQuestionTag]: [Ok None] is [null].  The last case is the
    regular expression of the labelled tag: the prefix, one or more
    digits, the closing bracket, then any characters up to the end of
    the text, none of them a line terminator. *)
Definition _parseQuestionTag (text : string) : result (option QuestionTag) :=
  let t := Js.trim text in
  if negb (Js.startsWith t "[QUESTION") then Ok None
  else if Js.startsWith t "[QUESTION]" then
    Ok (Some {| inlineText := Js.trim (Js.slice t (String.length "[QUESTION]"));
                labelDigits := None |})
  else if Js.startsWith t "[QUESTION#" then
    let '(digits, rest) := spanDigits (Js.drop (String.length "[QUESTION#") t) in
    match rest with
    | String "]" tail =>
        if negb (Js.isEmpty digits)
           && Js.forallb_str (fun c => negb (Js.isLineTerminator c)) tail
        then Ok (Some {| inlineText := Js.trim tail; labelDigits := Some digits |})
        else Err (msgInvalidQuestionTag t)
    | _ => Err (msgInvalidQuestionTag t)
    end
  else Err (msgInvalidQuestionTag t).

Definition msgMissingHeader : string :=
  "Missing quiz type header. The first non-empty line must be [BEGIN#MCQ] or [BEGIN#ESSAY].".

Definition msgMissingHeaderFound (t : string) : string :=
  msgMissingHeader ++ " (Found: " ++ Js.dq ++ t ++ Js.dq ++ ")".

(** The first loop of [parse], from index [i]: the quiz type and
    [beginIndex]. *)
Fixpoint findBegin (blocks : list Block) (i : nat) : result (QuizType * nat) :=
  match blocks with
  | [] => Err msgMissingHeader
  | element :: rest =>
      match element with
      | PARAGRAPH text _ | LIST_ITEM text _ _ =>
          let t := Js.trim text in
          if Js.isEmpty t then findBegin rest (S i)
          else
            match _parseBeginTag t with
            | None => Err (msgMissingHeaderFound t)
            | Some qt => Ok (qt, i)
            end
      | _ => Err msgMissingHeader
      end
  end.

Inductive ParserState : Type :=
| WAITING | READING_QUESTION | READING_OPTIONS | READING_DESCRIPTIONS.

Definition isState (a b : ParserState) : bool :=
  match a, b with
  | WAITING, WAITING | READING_QUESTION, READING_QUESTION
  | READING_OPTIONS, READING_OPTIONS
  | READING_DESCRIPTIONS, READING_DESCRIPTIONS => true
  | _, _ => false
  end.

(** The variables of the second loop: [result.questions],
    [result.images] with the blob heap, [currentQuestion] and [state]. *)
Record PState : Type := {
  st_questions : list Question;
  st_world : World;
  currentQuestion : option Question;
  state : ParserState
}.

Definition closeQuestionListIfOpen (q : Question) : Question :=
  if q_listOpen q
  then setContentBuffer q
         (push (q_contentHtmlParts q) ("</" ++ templateTag (q_listTag q) ++ ">"))
         false None ""
  else q.

Definition closeDescriptionListIfOpen (q : Question) : Question :=
  if q_descListOpen q
  then setDescriptionBuffer q
         (push (q_descriptionHtmlParts q)
            ("</" ++ templateTag (q_descListTag q) ++ ">"))
         false None ""
  else q.

Definition closeLists (q : Question) : Question :=
  closeDescriptionListIfOpen (closeQuestionListIfOpen q).

(** [contentHtmlParts.push(part)]. *)
Definition pushContent (q : Question) (part : string) : Question :=
  setContentBuffer q (push (q_contentHtmlParts q) part)
    (q_listOpen q) (q_listTag q) (q_listAttrs q).

(** [descriptionHtmlParts.push(part)]. *)
Definition pushDescription (q : Question) (part : string) : Question :=
  setDescriptionBuffer q (push (q_descriptionHtmlParts q) part)
    (q_descListOpen q) (q_descListTag q) (q_descListAttrs q).

(** The trimmed text of the loop; empty for anything but a paragraph or
    a list item. *)
Definition blockText (element : Block) : string :=
  match element with
  | PARAGRAPH text _ | LIST_ITEM text _ _ => Js.trim text
  | _ => ""
  end.

Definition lineOf (i : nat) : string := Js.ofNat (i + 1).

Definition msgBeginPlacement (qt : QuizType) (i beginLine : nat) : string :=
  "Invalid BEGIN header placement at line " ++ lineOf i ++ ". [BEGIN#"
  ++ quizTypeName qt ++ "] must be the first non-empty line (currently at line "
  ++ Js.ofNat beginLine ++ ").".

Definition msgOptionsPlacement (i : nat) : string :=
  "Invalid [OPTIONS] placement at line " ++ lineOf i
  ++ ". [OPTIONS] must appear after a [QUESTION#n] tag.".

Definition msgOptionsForEssay (i : nat) : string :=
  "Invalid [OPTIONS] for ESSAY at line " ++ lineOf i
  ++ ". Essay questions must not contain [OPTIONS].".

Definition msgDuplicateOptions (num i : nat) : string :=
  "Duplicate [OPTIONS] tag for Question " ++ Js.ofNat num ++ " at line "
  ++ lineOf i ++ ". Only one [OPTIONS] section is allowed per question.".

Definition msgDescriptionsPlacement (i : nat) : string :=
  "Invalid [DESCRIPTIONS] placement at line " ++ lineOf i
  ++ ". [DESCRIPTIONS] must appear after a [QUESTION#n] tag.".

Definition msgDescriptionsMcq (i : nat) : string :=
  "Invalid [DESCRIPTIONS] placement at line " ++ lineOf i
  ++ ". For MCQ, [DESCRIPTIONS] must appear after [OPTIONS].".

Definition msgDescriptionsEssay (i : nat) : string :=
  "Invalid [DESCRIPTIONS] placement at line " ++ lineOf i
  ++ ". For ESSAY, [DESCRIPTIONS] must appear after the question content.".

Definition msgDuplicateDescriptions (num i : nat) : string :=
  "Duplicate [DESCRIPTIONS] tag for Question " ++ Js.ofNat num ++ " at line "
  ++ lineOf i ++ ". Only one [DESCRIPTIONS] section is allowed per question.".

Definition isEssay (qt : QuizType) : bool :=
  match qt with ESSAY => true | MCQ => false end.

Definition isMcq (qt : QuizType) : bool :=
  match qt with MCQ => true | ESSAY => false end.

(** A block that starts a question: the previous question is closed and
    pushed, a new one is created at position [questions.length + 1]. *)
Definition startQuestion (i : nat) (tag : QuestionTag) (st : PState) : PState :=
  let questions' :=
    match currentQuestion st with
    | Some q => push (st_questions st) (closeLists q)
    | None => st_questions st
    end in
  let q := _createQuestionObj (List.length questions' + 1) (i + 1) in
  let q := if Js.truthy (inlineText tag)
           then pushContent q ("<p>" ++ _escapeHtml (inlineText tag) ++ "</p>")
           else q in
  {| st_questions := questions';
     st_world := st_world st;
     currentQuestion := Some q;
     state := READING_QUESTION |}.

(** Content of a question in state [READING_QUESTION]. *)
Definition readQuestion (element : Block) (q : Question) (w : World)
  : Question * World :=
  match element with
  | PARAGRAPH _ kids =>
      let q := closeQuestionListIfOpen q in
      let '(html, w, _) := _extractHtml kids w (q_id q) None in
      (if Js.truthy html then pushContent q ("<p>" ++ html ++ "</p>") else q, w)
  | TABLE _ =>
      let q := closeQuestionListIfOpen q in
      let '(html, w) := _extractTableHtml element w (q_id q) in
      (pushContent q html, w)
  | LIST_ITEM _ glyph kids =>
      let '(html, w, _) := _extractHtml kids w (q_id q) None in
      let '(nextTag, nextAttrs) := _htmlListInfoFromGlyph glyph in
      let q :=
        if negb (q_listOpen q) || tagDiffers (q_listTag q) nextTag
           || negb (String.eqb (q_listAttrs q) nextAttrs)
        then
          let q := closeQuestionListIfOpen q in
          setContentBuffer q
            (push (q_contentHtmlParts q) ("<" ++ nextTag ++ nextAttrs ++ ">"))
            true (Some nextTag) nextAttrs
        else q in
      (pushContent q ("<li>" ++ html ++ "</li>"), w)
  | OTHER_BLOCK => (q, w)
  end.

(** Content of a question in state [READING_DESCRIPTIONS]. *)
Definition readDescriptions (element : Block) (q : Question) (w : World)
  : Question * World :=
  match element with
  | PARAGRAPH _ kids =>
      let q := closeDescriptionListIfOpen q in
      let '(html, w, _) := _extractHtml kids w (q_id q) None in
      (if Js.truthy html then pushDescription q ("<p>" ++ html ++ "</p>") else q, w)
  | TABLE _ =>
      let q := closeDescriptionListIfOpen q in
      let '(html, w) := _extractTableHtml element w (q_id q) in
      (pushDescription q html, w)
  | LIST_ITEM _ glyph kids =>
      let '(html, w, _) := _extractHtml kids w (q_id q) None in
      let '(nextTag, nextAttrs) := _htmlListInfoFromGlyph glyph in
      let q :=
        if negb (q_descListOpen q) || tagDiffers (q_descListTag q) nextTag
           || negb (String.eqb (q_descListAttrs q) nextAttrs)
        then
          let q := closeDescriptionListIfOpen q in
          setDescriptionBuffer q
            (push (q_descriptionHtmlParts q) ("<" ++ nextTag ++ nextAttrs ++ ">"))
            true (Some nextTag) nextAttrs
        else q in
      (pushDescription q ("<li>" ++ html ++ "</li>"), w)
  | OTHER_BLOCK => (q, w)
  end.

(** [rawText.replace(/^\s*<>\s*/, '').trim().replace(/\s+/g, ' ')]. *)
Definition choiceTextOf (rawText : string) : string :=
  Js.collapseSpaces (Js.trim (Js.stripLeadingMarker rawText)).

(** Content of a question in state [READING_OPTIONS]: only a list item
    becomes an option. *)
Definition readOptions (i : nat) (element : Block) (q : Question) (w : World)
  : Question * World :=
  match element with
  | LIST_ITEM text _ kids =>
      let rawText := Js.trim text in
      let choiceText := choiceTextOf rawText in
      let isCorrect := Js.hasLeadingMarker rawText in
      let htmlContext :=
        if isCorrect
        then Some {| stripLeadingCorrectMarker := true;
                     _markerStripped := false;
                     inEquation := false |}
        else None in
      let '(html, w, _) := _extractHtml kids w (q_id q) htmlContext in
      (setOptions q
         (push (q_options q)
            {| o_id := "opt_" ++ Js.ofNat (List.length (q_options q));
               o_text := html;
               o_choiceText := Some choiceText;
               o_isCorrect := isCorrect;
               o_line := i + 1 |}),
       w)
  | _ => (q, w)
  end.

Definition withQuestion (st : PState) (q : Question) (w : World)
    (s : ParserState) : PState :=
  {| st_questions := st_questions st;
     st_world := w;
     currentQuestion := Some q;
     state := s |}.

(** One iteration of the second loop, on the block at index [i] (the
    header block is skipped by the caller). *)
Definition step (qt : QuizType) (beginLine : nat) (i : nat) (element : Block)
    (st : PState) : result PState :=
  let text := blockText element in
  if Js.truthy text && Js.startsWith text "[BEGIN#"
  then Err (msgBeginPlacement qt i beginLine)
  else
    do questionTag <- _parseQuestionTag text;
    match questionTag with
    | Some tag => Ok (startQuestion i tag st)
    | None =>
        if Js.startsWith text "[OPTIONS]" then
          match currentQuestion st with
          | None => Err (msgOptionsPlacement i)
          | Some q =>
              if isEssay qt then Err (msgOptionsForEssay i)
              else if q_hasOptionsTag q
              then Err (msgDuplicateOptions (q_num q) i)
              else Ok (withQuestion st (closeLists (setOptionsTag q (i + 1)))
                         (st_world st) READING_OPTIONS)
          end
        else if Js.startsWith text "[DESCRIPTIONS]" then
          match currentQuestion st with
          | None => Err (msgDescriptionsPlacement i)
          | Some q =>
              if isMcq qt && negb (isState (state st) READING_OPTIONS)
              then Err (msgDescriptionsMcq i)
              else if isEssay qt && negb (isState (state st) READING_QUESTION)
              then Err (msgDescriptionsEssay i)
              else if q_hasDescriptionsTag q
              then Err (msgDuplicateDescriptions (q_num q) i)
              else Ok (withQuestion st (closeLists (setDescriptionsTag q (i + 1)))
                         (st_world st) READING_DESCRIPTIONS)
          end
        else
          match currentQuestion st with
          | None => Ok st
          | Some q =>
              match state st with
              | READING_QUESTION =>
                  let '(q', w') := readQuestion element q (st_world st) in
                  Ok (withQuestion st q' w' (state st))
              | READING_OPTIONS =>
                  let '(q', w') := readOptions i element q (st_world st) in
                  Ok (withQuestion st q' w' (state st))
              | READING_DESCRIPTIONS =>
                  let '(q', w') := readDescriptions element q (st_world st) in
                  Ok (withQuestion st q' w' (state st))
              | WAITING => Ok st
              end
          end
    end.

(** The second loop, over the blocks from index [i] on. *)
Fixpoint loop (qt : QuizType) (beginIndex : nat) (i : nat)
    (blocks : list Block) (st : PState) : result PState :=
  match blocks with
  | [] => Ok st
  | element :: rest =>
      if i =? beginIndex then loop qt beginIndex (S i) rest st
      else
        do st' <- step qt (beginIndex + 1) i element st;
        loop qt beginIndex (S i) rest st'
  end.

Definition initialState (h : Heap) : PState :=
  {| st_questions := [];
     st_world := {| heap := h; images := [] |};
     currentQuestion := None;
     state := WAITING |}.

(** After the loop: the open question is pushed and every question is
    finalized. *)
Definition finish (qt : QuizType) (st : PState) : ParseResult * Heap :=
  let questions' :=
    match currentQuestion st with
    | Some q => push (st_questions st) (closeLists q)
    | None => st_questions st
    end in
  ({| quizType := Some qt;
      questions := map finalizeQuestion questions';
      r_images := images (st_world st) |},
   heap (st_world st)).

(** [QuizParser.parse(body)], run on a heap [h] of blobs. *)
Definition parse (body : Body) (h : Heap) : result (ParseResult * Heap) :=
  do (qt, beginIndex) <- findBegin body 0;
  do st <- loop qt beginIndex 0 body (initialState h);
  Ok (finish qt st).

(* ================================================================== *)
(** ** The validator ([QuizValidator]) *)
(* ================================================================== *)

(** [s.replace(/re/g, rep)] for a regular expression given by [matchAt],
    the length of its match at the start of a string, if any. *)
Fixpoint replaceMatchesFrom (matchAt : string -> option nat) (rep : string)
    (skip : nat) (s : string) : string :=
  match s with
  | EmptyString => EmptyString
  | String c s' =>
      match skip with
      | S k => replaceMatchesFrom matchAt rep k s'
      | O =>
          match matchAt s with
          | Some n => rep ++ replaceMatchesFrom matchAt rep (n - 1) s'
          | None => String c (replaceMatchesFrom matchAt rep 0 s')
          end
      end
  end.

Definition isLetter (lower upper c : ascii) : bool :=
  Ascii.eqb c lower || Ascii.eqb c upper.

(** A line-break tag, case-insensitive: the opening angle bracket,
    spaces, the two letters, spaces, an optional slash, spaces, the
    closing angle bracket. *)
Definition matchBr (s : string) : option nat :=
  match s with
  | String "<" s1 =>
      match Js.trimStart s1 with
      | String b (String r s2) =>
          if isLetter "b" "B" b && isLetter "r" "R" r then
            let s3 := Js.trimStart s2 in
            let s4 := match s3 with String "/" t => t | _ => s3 end in
            match Js.trimStart s4 with
            | String ">" rest => Some (String.length s - String.length rest)
            | _ => None
            end
          else None
      | _ => None
      end
  | _ => None
  end.

(** The number of characters before the first closing angle bracket. *)
Fixpoint untilGt (s : string) : option nat :=
  match s with
  | EmptyString => None
  | String c s' =>
      if Ascii.eqb c ">" then Some 0 else option_map S (untilGt s')
  end.

(** Any tag: an opening angle bracket, one or more characters other than
    the closing one, the closing angle bracket. *)
Definition matchTag (s : string) : option nat :=
  match s with
  | String "<" s1 =>
      match untilGt s1 with
      | Some (S n) => Some (S n + 2)
      | _ => None
      end
  | _ => None
  end.

Definition _stripHtml_ (html : string) : string :=
  Js.replaceAll "&#39;" "'"
    (Js.replaceAll "&quot;" Js.dq
      (Js.replaceAll "&gt;" ">"
        (Js.replaceAll "&lt;" "<"
          (Js.replaceAll "&amp;" "&"
            (Js.replaceAll "&nbsp;" " "
              (replaceMatchesFrom matchTag "" 0
                (replaceMatchesFrom matchBr " " 0 html))))))).

Definition _normalizeOptionLine_ (o : QuizOption) : string :=
  let base := match o_choiceText o with
              | Some choiceText => choiceText
              | None => _stripHtml_ (o_text o)
              end in
  Js.collapseSpaces (Js.trim base).

Record Diagnostic : Type := {
  message : string;
  line : nat
}.

Record Validation : Type := {
  isValid : bool;
  errors : list Diagnostic;
  warnings : list Diagnostic
}.

Definition question_ (num : nat) : string := "Question " ++ Js.ofNat num ++ ": ".

Definition msgContentEmpty (num : nat) : string :=
  question_ num ++ "Content is empty.".

Definition msgOptionsNotAllowed (num : nat) : string :=
  question_ num
  ++ "[OPTIONS] is not allowed for ESSAY. Remove [OPTIONS] and the option list.".

Definition msgMissingOptions (num : nat) : string :=
  question_ num ++ "Missing [OPTIONS]. MCQ questions must have an [OPTIONS] section.".

Definition msgNeedsTwo (num count : nat) : string :=
  question_ num ++ "Needs at least 2 options (found " ++ Js.ofNat count ++ ").".

Definition msgNoCorrect (num : nat) : string :=
  question_ num ++ "No correct answer marked. Add '<>' to one option.".

Definition msgMultipleCorrect (num correctCount : nat) : string :=
  question_ num ++ "Multiple correct answers found (" ++ Js.ofNat correctCount
  ++ "). Only one allowed.".

Definition msgDuplicate (num : nat) (key : string) : string :=
  question_ num ++ "Duplicate options found: " ++ Js.dq ++ key ++ Js.dq
  ++ ". Options must be unique.".

Definition msgEmptyOption (num idx : nat) : string :=
  "Question " ++ Js.ofNat num ++ ", Option " ++ Js.ofNat (idx + 1)
  ++ ": Option text is empty.".

(** The [seen] object of the duplicate check, by its own property names.
    An assignment to the name [__proto__] reaches the setter inherited
    from [Object.prototype], which ignores a number: no own property is
    created. *)
Definition hasOwnProperty (seen : list string) (key : string) : bool :=
  existsb (String.eqb key) seen.

Definition assign (seen : list string) (key : string) : list string :=
  if String.eqb key "__proto__" then seen else key :: seen.

(** Rule 4 of the MCQ branch: the [forEach] over the options with the
    [seen] object. *)
Fixpoint duplicateErrors (q : Question) (opts : list QuizOption)
    (seen : list string) : list Diagnostic :=
  match opts with
  | [] => []
  | o :: rest =>
      let key := _normalizeOptionLine_ o in
      if Js.isEmpty key then duplicateErrors q rest seen
      else if hasOwnProperty seen key
      then {| message := msgDuplicate (q_num q) key;
              line := Js.orNat (o_line o) (q_line q) |}
           :: duplicateErrors q rest seen
      else duplicateErrors q rest (assign seen key)
  end.

(** Rule 5: the [forEach] over the options, [idx] counting from the
    given index. *)
Fixpoint emptyOptionWarnings (q : Question) (opts : list QuizOption)
    (idx : nat) : list Diagnostic :=
  match opts with
  | [] => []
  | o :: rest =>
      if Js.isEmpty (Js.trim (o_text o))
      then {| message := msgEmptyOption (q_num q) idx; line := o_line o |}
           :: emptyOptionWarnings q rest (S idx)
      else emptyOptionWarnings q rest (S idx)
  end.

Definition contentErrors (q : Question) : list Diagnostic :=
  if Js.isEmpty (Js.trim (q_content q))
  then [ {| message := msgContentEmpty (q_num q); line := q_line q |} ]
  else [].

Definition essayErrors (q : Question) : list Diagnostic :=
  if q_hasOptionsTag q || (0 <? List.length (q_options q))
  then
    let firstLine := match q_options q with o :: _ => o_line o | [] => 0 end in
    [ {| message := msgOptionsNotAllowed (q_num q);
         line := Js.orNat (q_optionsTagLine q) (Js.orNat firstLine (q_line q)) |} ]
  else [].

Definition missingOptionsErrors (q : Question) : list Diagnostic :=
  if negb (q_hasOptionsTag q)
  then [ {| message := msgMissingOptions (q_num q); line := q_line q |} ]
  else [].

Definition optionCountErrors (q : Question) : list Diagnostic :=
  if List.length (q_options q) <? 2
  then [ {| message := msgNeedsTwo (q_num q) (List.length (q_options q));
            line := Js.orNat (q_optionsTagLine q) (q_line q) |} ]
  else [].

(** [q.options.filter(o => o.isCorrect).length]. *)
Definition correctCount (q : Question) : nat :=
  List.length (filter o_isCorrect (q_options q)).

Definition correctAnswerErrors (q : Question) : list Diagnostic :=
  if correctCount q =? 0
  then [ {| message := msgNoCorrect (q_num q); line := q_line q |} ]
  else if 1 <? correctCount q
  then [ {| message := msgMultipleCorrect (q_num q) (correctCount q);
            line := q_line q |} ]
  else [].

(** The body of [questions.forEach] in [validate]: the errors and the
    warnings it pushes, in order. *)
Definition validateQuestion (qt : QuizType) (q : Question)
  : list Diagnostic * list Diagnostic :=
  match qt with
  | ESSAY => (contentErrors q ++ essayErrors q, [])%list
  | MCQ =>
      ((contentErrors q ++ missingOptionsErrors q ++ optionCountErrors q
        ++ correctAnswerErrors q ++ duplicateErrors q (q_options q) [])%list,
       emptyOptionWarnings q (q_options q) 0)
  end.

Definition msgInvalidQuizType : string :=
  "Missing or invalid quiz type header. The first non-empty line must be [BEGIN#MCQ] or [BEGIN#ESSAY].".

Definition msgNoQuestions : string :=
  "No questions found. Please add at least one [QUESTION] / [QUESTION#n] block.".

(** [QuizValidator.validate(parseResult)]. *)
Definition validate (parseResult : ParseResult) : Validation :=
  match quizType parseResult with
  | None =>
      {| isValid := false;
         errors := [ {| message := msgInvalidQuizType; line := 0 |} ];
         warnings := [] |}
  | Some qt =>
      match questions parseResult with
      | [] =>
          {| isValid := false;
             errors := [ {| message := msgNoQuestions; line := 0 |} ];
             warnings := [] |}
      | qs =>
          let results := map (validateQuestion qt) qs in
          let errs := concat (map fst results) in
          {| isValid := List.length errs =? 0;
             errors := errs;
             warnings := concat (map snd results) |}
      end
  end.


(* ================================================================== *)
(** ** The exporter ([QuizExporter]) *)
(* ================================================================== *)

Record ExportOption : Type := {
  e_option_content : string;
  e_is_correct : bool
}.

Record ExportQuestion : Type := {
  e_id : string;
  e_content : string;
  e_descriptions : option string;
  e_options : list ExportOption
}.

Record ExportMetadata : Type := {
  e_generated_at : string;
  e_quiz_type : option QuizType;
  e_question_count : nat
}.

Record ExportJson : Type := {
  e_metadata : ExportMetadata;
  e_questions : list ExportQuestion
}.

Definition exportQuestion (q : Question) : ExportQuestion :=
  {| e_id := q_id q;
     e_content := q_content q;
     e_descriptions :=
       match q_descriptions q with
       | Some d => if Js.isEmpty (Js.trim d) then None else Some d
       | None => None
       end;
     e_options :=
       map (fun o => {| e_option_content := o_text o;
                        e_is_correct := o_isCorrect o |}) (q_options q) |}.

(** [blob.setName(name)] on the blob a reference points to. *)
Definition setName (name : string) (b : Blob) : Blob :=
  {| blobName := Some name;
     blobContentType := blobContentType b;
     blobBytes := blobBytes b |}.

Fixpoint update (h : Heap) (r : BlobRef) (f : Blob -> Blob) : Heap :=
  match h, r with
  | [], _ => []
  | b :: h', O => f b :: h'
  | b :: h', S r' => b :: update h' r' f
  end.

(** The loop over [Object.entries(parseResult.images)]: every blob is
    renamed in place and pushed.  The entries come in the order of the
    store, see [ImageStore]. *)
Fixpoint renameAll (entries : ImageStore) (h : Heap) (blobs : list BlobRef)
  : Heap * list BlobRef :=
  match entries with
  | [] => (h, blobs)
  | (filename, blob) :: rest =>
      renameAll rest (update h blob (setName ("images/" ++ filename)))
        (push blobs blob)
  end.

(** What [Utilities.zip(blobs, name)] is given: the name of the archive
    and the blobs as they are at that moment. *)
Record Zip : Type := {
  zipName : string;
  zipEntries : list (option Blob)
}.

Section Exporter.

(** [JSON.stringify(value, null, 2)] and the clock
    ([new Date().toISOString()]) belong to the host. *)
Variable JSON_stringify : ExportJson -> list byte.
Variable now : string.

(** [QuizExporter.generateZip(parseResult)]: the archive, and the state
    of the model after the call (the object passed in and the heap of
    blobs). *)
Definition generateZip (parseResult : ParseResult) (h : Heap)
  : Zip * (ParseResult * Heap) :=
  let exportJson :=
    {| e_metadata :=
         {| e_generated_at := now;
            e_quiz_type := quizType parseResult;
            e_question_count := List.length (questions parseResult) |};
       e_questions := map exportQuestion (questions parseResult) |} in
  let '(h1, json) :=
    alloc h {| blobName := Some "quiz.json";
               blobContentType := "application/json";
               blobBytes := JSON_stringify exportJson |} in
  let '(h2, blobs) := renameAll (r_images parseResult) h1 [json] in
  ({| zipName := "quiz_export.zip";
      zipEntries := map (nth_error h2) blobs |},
   (parseResult, h2)).

End Exporter.

(* ================================================================== *)
(** ** Sample documents and models *)
(* ================================================================== *)

Module Samples.

Definition bold : Attributes :=
  {| BOLD := true; ITALIC := false; UNDERLINE := false;
     STRIKETHROUGH := false; VERTICAL_ALIGNMENT := None; LINK_URL := None |}.

(** A paragraph, or a lettered list item, holding one run of text. *)
Definition para (s : string) : Block := PARAGRAPH s [TEXT s [(0, plain)]].
Definition item (s : string) : Block :=
  LIST_ITEM s LATIN_UPPER [TEXT s [(0, plain)]].
Definition boldItem (s : string) : Block :=
  LIST_ITEM s LATIN_UPPER [TEXT s [(0, bold)]].

Definition png : Blob :=
  {| blobName := Some "photo.png";
     blobContentType := "image/png";
     blobBytes := [x89; x50; x4e; x47] |}.

(** The end-to-end example: one MCQ question with two options. *)
Definition capital : Body :=
  [ para "[BEGIN#MCQ]";
    para "[QUESTION#1] Capital of Indonesia?";
    para "[OPTIONS]";
    item "<> Jakarta";
    item "Bandung" ].


(** Labels out of order. *)
Definition relabelled : Body :=
  [ para "[BEGIN#MCQ]";
    para "[QUESTION#99] First";
    para "[QUESTION#1] Second" ].

(** Text, a table and an image between the header and the first
    question; and the same document with empty paragraphs there. *)
Definition preamble : list Block :=
  [ para "Instructions: answer all questions.";
    TABLE [[[para "cell"]]];
    PARAGRAPH "" [INLINE_IMAGE png (Some 40%Z) (Some 30%Z)] ].

Definition blanks : list Block := [ para ""; para ""; para "" ].

Definition tail : list Block :=
  [ para "[QUESTION#1] Capital of Indonesia?";
    PARAGRAPH "" [INLINE_IMAGE png None None];
    para "[OPTIONS]";
    item "<> Jakarta";
    item "Bandung" ].

Definition withPreamble : Body :=
  ([ para "" ] ++ para "[BEGIN#MCQ]" :: preamble ++ tail)%list.

Definition withBlanks : Body :=
  ([ para "" ] ++ para "[BEGIN#MCQ]" :: blanks ++ tail)%list.



(** Two list items of bold spaces: no text once trimmed, but markup
    once rendered. *)
Definition boldSpaces : Body :=
  [ para "[BEGIN#MCQ]";
    para "[QUESTION#1] Pick one";
    para "[OPTIONS]";
    boldItem "  ";
    boldItem "  ";
    item "<> yes";
    item "no" ].

(** A question with an image, ready for export. *)
Definition withImage : Body :=
  [ para "[BEGIN#ESSAY]";
    para "[QUESTION#1] Describe the picture.";
    PARAGRAPH "" [INLINE_IMAGE png (Some 40%Z) (Some 30%Z)] ].

(** The third question of the validator's test: two options, both
    marked correct. *)
Definition mkOption (text : string) (correct : bool) (l : nat) : QuizOption :=
  {| o_id := ""; o_text := "<p>" ++ text ++ "</p>";
     o_choiceText := Some text; o_isCorrect := correct; o_line := l |}.

Definition mkQuestion (num l : nat) (content : string) (tag : bool)
    (tagLine : nat) (opts : list QuizOption) : Question :=
  {| q_num := num; q_id := "q" ++ Js.ofNat num; q_line := l;
     q_content := content; q_contentHtmlParts := [content];
     q_descriptions := None; q_descriptionHtmlParts := [];
     q_hasOptionsTag := tag; q_optionsTagLine := tagLine;
     q_hasDescriptionsTag := false; q_descriptionsTagLine := 0;
     q_options := opts;
     q_listOpen := false; q_listTag := None; q_listAttrs := "";
     q_descListOpen := false; q_descListTag := None; q_descListAttrs := "" |}.

Definition multiCorrect : Question :=
  mkQuestion 3 30 "<p>Multi Correct</p>" true 31
    [ mkOption "A" true 32; mkOption "B" true 33 ].

(** The essay model of the validator's test. *)
Definition essayModel : ParseResult :=
  {| quizType := Some ESSAY;
     questions :=
       [ mkQuestion 1 10 "<p>Essay Question</p>" true 12
           [ mkOption "Not allowed" false 13 ] ];
     r_images := [] |}.

(** Equation nodes. *)
Definition fracNode : Inline :=
  EQUATION_FUNCTION "frac"
    [ TEXT "100" []; TEXT "" []; EQUATION_SYMBOL "\times" "" ].

Definition rootThree : Inline :=
  EQUATION_FUNCTION "root" [ TEXT "x" []; TEXT "3" []; TEXT "y" [] ].

Definition rootTwo : Inline :=
  EQUATION_FUNCTION "\root" [ TEXT "x" []; TEXT "3" [] ].

Definition rootOne : Inline :=
  EQUATION_FUNCTION "root" [ TEXT "x" [] ].

Definition emptyWorld : World := {| heap := []; images := [] |}.

End Samples.

(* ================================================================== *)
(** ** Vocabulary of the statements *)
(* ================================================================== *)

(** A paragraph or a list item: the two kinds of block that have text. *)
Definition isTextBlock (e : Block) : bool :=
  match e with
  | PARAGRAPH _ _ | LIST_ITEM _ _ _ => true
  | _ => false
  end.

(** What [getText()] returns, for a block that has text. *)
Definition rawText (e : Block) : string :=
  match e with
  | PARAGRAPH text _ | LIST_ITEM text _ _ => text
  | _ => ""
  end.

Definition headerText (qt : QuizType) : string :=
  match qt with MCQ => "[BEGIN#MCQ]" | ESSAY => "[BEGIN#ESSAY]" end.

(** A block without content for the header scan: a paragraph or list
    item whose trimmed text is empty. *)
Definition isBlank (e : Block) : bool :=
  isTextBlock e && Js.isEmpty (blockText e).

(** A block whose trimmed text starts like one of the tags of the
    markup. *)
Definition isTagBlock (e : Block) : bool :=
  let t := blockText e in
  Js.startsWith t "[BEGIN#" || Js.startsWith t "[QUESTION"
  || Js.startsWith t "[OPTIONS]" || Js.startsWith t "[DESCRIPTIONS]".

(** An error of the validator about the number of correct answers of
    question [num]: its message starts as one of the two messages of that
    rule. *)
Definition aboutCorrectCount (num : nat) (d : Diagnostic) : bool :=
  Js.startsWith (message d) (question_ num ++ "No correct answer marked.")
  || Js.startsWith (message d) (question_ num ++ "Multiple correct answers found (").

(** An error of the validator about duplicate options of question
    [num]. *)
Definition aboutDuplicates (num : nat) (d : Diagnostic) : bool :=
  Js.startsWith (message d) (question_ num ++ "Duplicate options found: ").

(** Duplicate detection as the specification words it: an option is a
    duplicate when its (non-empty) normalized text is the one of an
    option before it. *)
Fixpoint laterOccurrences (q : Question) (earlier opts : list QuizOption)
  : list Diagnostic :=
  match opts with
  | [] => []
  | o :: rest =>
      let key := _normalizeOptionLine_ o in
      if negb (Js.isEmpty key)
         && existsb (fun o' => String.eqb (_normalizeOptionLine_ o') key) earlier
      then {| message := msgDuplicate (q_num q) key;
              line := Js.orNat (o_line o) (q_line q) |}
           :: laterOccurrences q (push earlier o) rest
      else laterOccurrences q (push earlier o) rest
  end.

Definition hasEmptyKey (o : QuizOption) : bool :=
  Js.isEmpty (_normalizeOptionLine_ o).

Definition hasEmptyText (o : QuizOption) : bool :=
  Js.isEmpty (Js.trim (o_text o)).

(** Two question objects that carry the same [num] and [id]. *)
Definition sameLabel (q q' : Question) : Prop :=
  q_num q' = q_num q /\ q_id q' = q_id q.

(** The label a question has when [n] questions are closed before it. *)
Definition labelled (n : nat) (q : Question) : Prop :=
  q_num q = n + 1 /\ q_id q = "q" ++ Js.ofNat (n + 1).

Definition numbered (qs : list Question) : Prop :=
  forall k q, nth_error qs k = Some q -> labelled k q.

Definition wellNumbered (st : PState) : Prop :=
  numbered (st_questions st)
  /\ forall q, currentQuestion st = Some q ->
       labelled (List.length (st_questions st)) q.

Ltac break_lets :=
  repeat match goal with
         | |- context [let '(_, _) := ?x in _] => destruct x
         | |- context [if ?c then _ else _] => destruct c
         end.

(** The [seen] object holds the non-empty keys of the options met so
    far, as long as none of them is the name [__proto__]. *)
Definition tracks (seen : list string) (earlier : list QuizOption) : Prop :=
  forall k, Js.isEmpty k = false ->
    hasOwnProperty seen k
    = existsb (fun o' => String.eqb (_normalizeOptionLine_ o') k) earlier.

(** What the renaming loop leaves of a blob of the heap. *)
Definition renamedBy (entries : ImageStore) (r : BlobRef) (b b' : Blob) : Prop :=
  blobContentType b' = blobContentType b
  /\ blobBytes b' = blobBytes b
  /\ ((exists k, In (k, r) entries /\ blobName b' = Some ("images/" ++ k))
      \/ ((forall k, ~ In (k, r) entries) /\ b' = b)).

(* ================================================================== *)
(** ** The controller's readers of the document ([Code.js]) *)
(* ================================================================== *)

(** The header pattern of the controller, on a text already trimmed:
    exactly one of the two header tags. *)
Definition matchBeginTag (text : string) : option QuizType :=
  if String.eqb text "[BEGIN#MCQ]" then Some MCQ
  else if String.eqb text "[BEGIN#ESSAY]" then Some ESSAY
  else None.

(** The loop of [_getQuizTypeHeaderInfo_], from index [i]: the type and
    the line of the header, or [None] for [null]. *)
Fixpoint headerInfoFrom (blocks : list Block) (i : nat)
  : option (QuizType * nat) :=
  match blocks with
  | [] => None
  | el :: rest =>
      match el with
      | PARAGRAPH text _ | LIST_ITEM text _ _ =>
          let text := Js.trim text in
          if Js.isEmpty text then headerInfoFrom rest (S i)
          else
            match matchBeginTag text with
            | None => None
            | Some type => Some (type, i + 1)
            end
      | _ => None
      end
  end.

Definition _getQuizTypeHeaderInfo_ (body : Body) : option (QuizType * nat) :=
  headerInfoFrom body 0.

(** [getQuizTypeHeader()]: the pair of [type] ([None] for [null]) and
    [line]. *)
Definition getQuizTypeHeader (body : Body) : option QuizType * nat :=
  match _getQuizTypeHeaderInfo_ body with
  | Some (type, l) => (Some type, l)
  | None => (None, 0)
  end.

Definition msgInvalidTagOnLine (lineNumber : nat) (t : string) : string :=
  "Invalid question tag on line " ++ Js.ofNat lineNumber
  ++ ". Use [QUESTION] or [QUESTION#<number>] (e.g., [QUESTION#1]). Found: " ++ t.

(** [_getQuestionTagInfoFromTrimmed_]: the length of the tag a trimmed
    line starts with; [Ok None] is [null].  The labelled tag is the
    prefix, one or more digits and the closing bracket, whatever
    follows. *)
Definition _getQuestionTagInfoFromTrimmed_ (trimmed : string) (lineNumber : nat)
  : result (option nat) :=
  let t := trimmed in
  if negb (Js.startsWith t "[QUESTION") then Ok None
  else if Js.startsWith t "[QUESTION]" then Ok (Some (String.length "[QUESTION]"))
  else if Js.startsWith t "[QUESTION#" then
    let '(digits, rest) := spanDigits (Js.drop (String.length "[QUESTION#") t) in
    match rest with
    | String "]" _ =>
        if negb (Js.isEmpty digits)
        then Ok (Some (String.length "[QUESTION#" + String.length digits + 1))
        else Err (msgInvalidTagOnLine lineNumber t)
    | _ => Err (msgInvalidTagOnLine lineNumber t)
    end
  else Err (msgInvalidTagOnLine lineNumber t).

(** The loop of [_getNextQuestionLabelNumber_], from index [i] with
    [count] tags met so far. *)
Fixpoint countQuestionTags (blocks : list Block) (i count : nat) : result nat :=
  match blocks with
  | [] => Ok count
  | element :: rest =>
      match element with
      | PARAGRAPH text _ | LIST_ITEM text _ _ =>
          let trimmed := Js.trim text in
          if negb (Js.startsWith trimmed "[QUESTION")
          then countQuestionTags rest (S i) count
          else
            do _ <- _getQuestionTagInfoFromTrimmed_ trimmed (i + 1);
            countQuestionTags rest (S i) (count + 1)
      | _ => countQuestionTags rest (S i) count
      end
  end.

Definition _getNextQuestionLabelNumber_ (body : Body) : result nat :=
  do count <- countQuestionTags body 0 0;
  Ok (count + 1).

(** The questions a loop state holds: the closed ones and the open
    one. *)
Definition startedQuestions (st : PState) : nat :=
  List.length (st_questions st)
  + match currentQuestion st with Some _ => 1 | None => 0 end.

(* ================================================================== *)
(** ** Vocabulary of the invariants of the parser *)
(* ================================================================== *)

(** The fields of a question that the content of its blocks does not
    touch. *)
Definition core (q : Question)
  : nat * string * nat * bool * nat * bool * nat * list QuizOption :=
  (q_num q, q_id q, q_line q, q_hasOptionsTag q, q_optionsTagLine q,
   q_hasDescriptionsTag q, q_descriptionsTagLine q, q_options q).

(** The block a 1-based line of a diagnostic points at. *)
Definition blockAt (body : Body) (l : nat) : option Block :=
  match l with
  | O => None
  | S k => nth_error body k
  end.

(** An option read from a list item of the document, at its line: it is
    correct when the trimmed text of the item starts with the marker,
    and its choiceText is computed from that text. *)
Definition optionAt (body : Body) (o : QuizOption) : Prop :=
  exists text glyph kids,
    blockAt body (o_line o) = Some (LIST_ITEM text glyph kids)
    /\ o_isCorrect o = Js.hasLeadingMarker (Js.trim text)
    /\ o_choiceText o = Some (choiceTextOf (Js.trim text)).

(** A block whose trimmed text starts with [tag]. *)
Definition tagAt (body : Body) (l : nat) (tag : string) : Prop :=
  exists e, blockAt body l = Some e /\ Js.startsWith (blockText e) tag = true.

(** The sections of a question of kind [qt], read from the blocks up to
    line [i]: where its tags are, in which order, and where its options
    come from. *)
Record located (qt : QuizType) (body : Body) (i : nat) (q : Question) : Prop := {
  loc_question : tagAt body (q_line q) "[QUESTION" /\ q_line q <= i;
  loc_options :
    q_hasOptionsTag q = true ->
    qt = MCQ /\ tagAt body (q_optionsTagLine q) "[OPTIONS]"
    /\ q_line q < q_optionsTagLine q <= i;
  loc_descriptions :
    q_hasDescriptionsTag q = true ->
    tagAt body (q_descriptionsTagLine q) "[DESCRIPTIONS]"
    /\ q_line q < q_descriptionsTagLine q <= i
    /\ (qt = MCQ ->
        q_hasOptionsTag q = true
        /\ q_optionsTagLine q < q_descriptionsTagLine q);
  loc_option :
    forall k o, nth_error (q_options q) k = Some o ->
      o_id o = "opt_" ++ Js.ofNat k
      /\ optionAt body o
      /\ q_hasOptionsTag q = true
      /\ q_optionsTagLine q < o_line o <= i
      /\ (q_hasDescriptionsTag q = true -> o_line o < q_descriptionsTagLine q);
  loc_increasing :
    forall k k' o o', k < k' ->
      nth_error (q_options q) k = Some o ->
      nth_error (q_options q) k' = Some o' ->
      o_line o < o_line o'
}.

(** What the state of the loop says of the open question. *)
Definition stateFits (qt : QuizType) (s : ParserState) (q : Question) : Prop :=
  match s with
  | WAITING => False
  | READING_QUESTION =>
      q_hasOptionsTag q = false /\ q_hasDescriptionsTag q = false
  | READING_OPTIONS =>
      q_hasOptionsTag q = true /\ q_hasDescriptionsTag q = false
  | READING_DESCRIPTIONS =>
      q_hasDescriptionsTag q = true
  end.

(** The invariant of the loop after the blocks before index [i]. *)
Record parsed (qt : QuizType) (body : Body) (i : nat) (st : PState) : Prop := {
  inv_closed : Forall (located qt body i) (st_questions st);
  inv_open :
    forall q, currentQuestion st = Some q ->
      located qt body i q /\ stateFits qt (state st) q
}.

(** The error of a second [DESCRIPTIONS] tag. *)
Definition aboutDuplicateDescriptions (msg : string) : bool :=
  Js.startsWith msg "Duplicate [DESCRIPTIONS] tag".

(* ================================================================== *)
(** ** Vocabulary of the properties of the renderer, the validator and
       the exporter *)
(* ================================================================== *)

(** A string built character by character. *)
Fixpoint mapChars (f : ascii -> string) (s : string) : string :=
  match s with
  | EmptyString => EmptyString
  | String c s' => f c ++ mapChars f s'
  end.

(** The entity of one character, as an escaping in one pass would give
    it. *)
Definition escapeChar (c : ascii) : string :=
  if Ascii.eqb c "&" then "&amp;"
  else if Ascii.eqb c "<" then "&lt;"
  else if Ascii.eqb c ">" then "&gt;"
  else if Ascii.eqb c (ascii_of_nat 34) then "&quot;"
  else if Ascii.eqb c "'" then "&#039;"
  else String c "".

(** The characters that open or close markup or an attribute value. *)
Definition isMarkupChar (c : ascii) : bool :=
  Ascii.eqb c "<" || Ascii.eqb c ">" || Ascii.eqb c (ascii_of_nat 34)
  || Ascii.eqb c "'".

(** A key made of digits only.  An object enumerates its integer-like
    keys, which are of this kind, before the others and by value. *)
Definition digitsOnly (k : string) : bool :=
  negb (Js.isEmpty k) && Js.forallb_str Js.isDigit k.

(** The number of options whose [isCorrect] is true, counted on the
    flags of the options. *)
Definition flaggedCorrect (opts : list QuizOption) : nat :=
  count_occ Bool.bool_dec (map o_isCorrect opts) true.

(** The options with their 0-based positions. *)
Definition indexed (opts : list QuizOption) : list (nat * QuizOption) :=
  combine (seq 0 (List.length opts)) opts.

(** The non-empty normalized texts of a list of options. *)
Definition nonEmptyKeys (opts : list QuizOption) : list string :=
  filter (fun k => negb (Js.isEmpty k)) (map _normalizeOptionLine_ opts).

(** The blob [Utilities.newBlob(data, contentType, name)] creates. *)
Definition newBlob (data : list byte) (contentType name : string) : Blob :=
  {| blobName := Some name; blobContentType := contentType; blobBytes := data |}.

(** The value serialized into [quiz.json]. *)
Definition exportJsonOf (now : string) (parseResult : ParseResult) : ExportJson :=
  {| e_metadata :=
       {| e_generated_at := now;
          e_quiz_type := quizType parseResult;
          e_question_count := List.length (questions parseResult) |};
     e_questions := map exportQuestion (questions parseResult) |}.

(* ================================================================== *)
(** ** The correct-answer mark in the controller ([toggleCorrectAnswer]) *)
(* ================================================================== *)

(** The length of the match of the mark at the start of the text of a
    list item: white space, the two characters of the mark, and at most
    one white-space character; [None] when the text does not start so. *)
Definition matchMark (text : string) : option nat :=
  let t := Js.trimStart text in
  if Js.startsWith t "<>" then
    let lead := String.length text - String.length t in
    match Js.drop 2 t with
    | String c _ => if Js.isSpace c then Some (lead + 3) else Some (lead + 2)
    | EmptyString => Some (lead + 2)
    end
  else None.

(** [editAsText().deleteText(0, n - 1)] and [insertText(0, s)], by what
    [getText()] returns afterwards. *)
Definition deleteFirst (n : nat) (text : string) : string := Js.drop n text.
Definition insertFirst (s text : string) : string := s ++ text.

(** [removeMarkFromItem], on the text of the item. *)
Definition removeMarkFromItem (text : string) : string :=
  match matchMark text with
  | Some n => deleteFirst n text
  | None => text
  end.

(** What [processElement] does to the text of the list item it is run
    on: an existing mark is removed, a mark is added otherwise. *)
Definition toggleMark (text : string) : string :=
  match matchMark text with
  | Some n => deleteFirst n text
  | None => insertFirst "<> " text
  end.

(* ================================================================== *)
(** ** Vocabulary of the image store *)
(* ================================================================== *)

(** The images below an inline element, in document order. *)
Fixpoint inlineImages (child : Inline) : list Blob :=
  match child with
  | INLINE_IMAGE data _ _ => [data]
  | EQUATION children => flat_map inlineImages children
  | EQUATION_FUNCTION _ children => flat_map inlineImages children
  | _ => []
  end.

(** The images of a block, in document order. *)
Fixpoint blockImages (block : Block) : list Blob :=
  match block with
  | PARAGRAPH _ kids => flat_map inlineImages kids
  | LIST_ITEM _ _ kids => flat_map inlineImages kids
  | TABLE rows => flat_map (flat_map (flat_map blockImages)) rows
  | OTHER_BLOCK => []
  end.

(** The images of a block read as an option: those of a list item. *)
Definition optionImages (block : Block) : list Blob :=
  match block with
  | LIST_ITEM _ _ kids => flat_map inlineImages kids
  | _ => []
  end.

(** What the renderer does to the world for one image of the question
    [questionId]. *)
Definition addImage (questionId : string) (w : World) (data : Blob) : World :=
  {| heap := push (heap w) data;
     images := storeSet (imageFilename questionId (images w) (blobContentType data))
                 (List.length (heap w)) (images w) |}.

Definition addImages (questionId : string) (w : World) (blobs : list Blob)
  : World :=
  fold_left (addImage questionId) blobs w.

(** Induction on an inline element, with the property known of the
    children of an equation or of an equation function. *)
Section InlineInduction.

Variable P : Inline -> Prop.
Hypothesis text_case : forall text runs, P (TEXT text runs).
Hypothesis image_case : forall data width height, P (INLINE_IMAGE data width height).
Hypothesis equation_case :
  forall children, Forall P children -> P (EQUATION children).
Hypothesis function_case :
  forall code children, Forall P children -> P (EQUATION_FUNCTION code children).
Hypothesis symbol_case : forall code text, P (EQUATION_SYMBOL code text).
Hypothesis other_case : P OTHER_INLINE.

Fixpoint Inline_nested_ind (child : Inline) : P child :=
  match child with
  | TEXT text runs => text_case text runs
  | INLINE_IMAGE data width height => image_case data width height
  | EQUATION children =>
      equation_case
        ((fix all (l : list Inline) : Forall P l :=
            match l with
            | [] => Forall_nil P
            | k :: l' => Forall_cons k (Inline_nested_ind k) (all l')
            end) children)
  | EQUATION_FUNCTION code children =>
      function_case code
        ((fix all (l : list Inline) : Forall P l :=
            match l with
            | [] => Forall_nil P
            | k :: l' => Forall_cons k (Inline_nested_ind k) (all l')
            end) children)
  | EQUATION_SYMBOL code text => symbol_case code text
  | OTHER_INLINE => other_case
  end.

End InlineInduction.

(** Induction on a block, with the property known of the blocks in the
    cells of a table. *)
Section BlockInduction.

Variable P : Block -> Prop.
Hypothesis paragraph_case : forall text kids, P (PARAGRAPH text kids).
Hypothesis item_case : forall text glyph kids, P (LIST_ITEM text glyph kids).
Hypothesis table_case :
  forall rows, Forall (Forall (Forall P)) rows -> P (TABLE rows).
Hypothesis other_block_case : P OTHER_BLOCK.

Fixpoint Block_nested_ind (block : Block) : P block :=
  match block with
  | PARAGRAPH text kids => paragraph_case text kids
  | LIST_ITEM text glyph kids => item_case text glyph kids
  | TABLE rows =>
      table_case
        ((fix allRows (l : list (list (list Block)))
            : Forall (Forall (Forall P)) l :=
            match l with
            | [] => Forall_nil _
            | row :: l' =>
                Forall_cons row
                  ((fix allCells (c : list (list Block))
                      : Forall (Forall P) c :=
                      match c with
                      | [] => Forall_nil _
                      | cell :: c' =>
                          Forall_cons cell
                            ((fix allBlocks (b : list Block) : Forall P b :=
                                match b with
                                | [] => Forall_nil _
                                | x :: b' =>
                                    Forall_cons x (Block_nested_ind x)
                                      (allBlocks b')
                                end) cell)
                            (allCells c')
                      end) row)
                  (allRows l')
            end) rows)
  | OTHER_BLOCK => other_block_case
  end.

End BlockInduction.

(** The file name of the [j]-th image of question [n], with extension
    [ext]. *)
Definition imageKey (n j : nat) (ext : string) : string :=
  ("q" ++ Js.ofNat n) ++ "_img_" ++ Js.padStart0 3 (Js.ofNat j) ++ "." ++ ext.

(** The number a string of decimal digits denotes. *)
Definition readNat (s : string) : option nat :=
  option_map Nat.of_uint (NilEmpty.uint_of_string s).

(** The invariant of the world during a parse started on the heap [h]:
    the blobs of [h] are where they were, every blob added since is
    referenced by one entry of the store, in the order of the store, and
    every key is the file name of an image of a question, numbered
    within the images of that question. *)
Record sound (h : Heap) (w : World) : Prop := {
  heap_grows :
    exists extra, heap w = (h ++ extra)%list
                  /\ map snd (images w) = seq (List.length h) (List.length extra);
  keys_distinct : NoDup (keys (images w));
  keys_counted :
    forall k, In k (keys (images w)) ->
      exists n j ext, k = imageKey n j ext
        /\ 1 <= j <= existingCount ("q" ++ Js.ofNat n) (images w)
}.

(** The invariant of the state of the loop, for the image store. *)
Definition stateSound (h : Heap) (st : PState) : Prop :=
  sound h (st_world st)
  /\ forall q, currentQuestion st = Some q -> q_id q = "q" ++ Js.ofNat (q_num q).

(* ================================================================== *)
(** ** Renumbering the labels in the controller ([renumberQuestionLabels]) *)
(* ================================================================== *)

(** The length of the match of white space at the start of a text. *)
Fixpoint leadingSpaces (s : string) : nat :=
  match s with
  | String c s' => if Js.isSpace c then S (leadingSpaces s') else 0
  | EmptyString => 0
  end.

Fixpoint take (n : nat) (s : string) : string :=
  match n, s with
  | S k, String c s' => String c (take k s')
  | _, _ => EmptyString
  end.

(** [editAsText().deleteText(startOffset, endOffsetInclusive)] and
    [insertText(offset, s)], by what [getText()] returns afterwards. *)
Definition deleteText (startOffset endOffsetInclusive : nat) (text : string)
  : string :=
  take startOffset text ++ Js.drop (endOffsetInclusive + 1) text.

Definition insertText (offset : nat) (s text : string) : string :=
  take offset text ++ s ++ Js.drop offset text.

(** The body of the loop of [renumberQuestionLabels] on the text [raw]
    of a paragraph or list item at line [lineNumber], when [counter]
    tags were met before: the text afterwards.  A text that does not
    start with a question tag is left as it is; an invalid tag throws. *)
Definition relabelLine (raw : string) (lineNumber counter : nat)
  : result string :=
  let trimmed := Js.trim raw in
  if negb (Js.startsWith trimmed "[QUESTION") then Ok raw
  else
    do info <- _getQuestionTagInfoFromTrimmed_ trimmed lineNumber;
    match info with
    | None =>
        (* not reached: [trimmed] starts with the prefix of a tag *)
        Err "TypeError: Cannot read properties of null (reading 'tagLength')"
    | Some tagLength =>
        let counter := counter + 1 in
        let newTag := "[QUESTION#" ++ Js.ofNat counter ++ "]" in
        let leadingWsLen := leadingSpaces raw in
        Ok (insertText leadingWsLen newTag
              (deleteText leadingWsLen (leadingWsLen + tagLength - 1) raw))
    end.

(** No character of the text ends a line. *)
Definition oneLine (s : string) : bool :=
  Js.forallb_str (fun c => negb (Js.isLineTerminator c)) s.

(* ================================================================== *)
(** ** Writing the header in the controller ([resetQuizAndSetType]) *)
(* ================================================================== *)

Section Reset.

(** The children the host gives a paragraph or list item whose content
    is set to a text. *)
Variable childrenOf : string -> list Inline.

(** The paragraph [body.insertParagraph(index, text)] creates. *)
Definition newParagraph (text : string) : Block :=
  PARAGRAPH text (childrenOf text).

(** [container.setText(text)]. *)
Definition setText (el : Block) (text : string) : Block :=
  match el with
  | PARAGRAPH _ _ => PARAGRAPH text (childrenOf text)
  | LIST_ITEM _ glyph _ => LIST_ITEM text glyph (childrenOf text)
  | _ => el
  end.

(** The body of the loop over the elements below the new header: a
    paragraph or list item whose trimmed text is a header, or starts
    like one, is emptied. *)
Definition clearBegin (el : Block) : Block :=
  match el with
  | PARAGRAPH text _ | LIST_ITEM text _ _ =>
      let raw := Js.trim text in
      if negb (Js.truthy raw) then el
      else if match matchBeginTag raw with Some _ => true | None => false end
              || Js.startsWith raw "[BEGIN#"
      then setText el ""
      else el
  | _ => el
  end.

(** [resetQuizAndSetType(type)] once [type] is known to name a kind of
    quiz: the children of the body afterwards. *)
Definition resetQuiz (quizType : QuizType) (body : Body) : Body :=
  newParagraph ("[BEGIN#" ++ quizTypeName quizType ++ "]")
  :: newParagraph "" :: map clearBegin body.

End Reset.

(** The error of a header that is not the first non-empty line. *)
Definition aboutBeginPlacement (msg : string) : bool :=
  Js.startsWith msg "Invalid BEGIN header placement".

(* ================================================================== *)
(** ** Vocabulary of the lists in the content of a question *)
(* ================================================================== *)

(** What a part of the content of a question is for the nesting of its
    lists: the start tag of a list, its end tag, an item, or anything
    else. *)
Inductive PartKind : Type :=
| OpenList (tag : string)
| CloseList (tag : string)
| Item
| Flow.

Definition partKind (part : string) : PartKind :=
  if Js.startsWith part "<li>" then Item
  else if String.eqb part "</ul>" then CloseList "ul"
  else if String.eqb part "</ol>" then CloseList "ol"
  else if Js.startsWith part "<ul" then OpenList "ul"
  else if Js.startsWith part "<ol" then OpenList "ol"
  else Flow.

(** Reading the parts in order, from inside the list [open] (or outside
    of any): the list one is inside of after them; [None] when an item
    is outside of a list, an end tag does not end the list it is in, or
    a list or other content starts inside a list. *)
Fixpoint nesting (open : option string) (parts : list string)
  : option (option string) :=
  match parts with
  | [] => Some open
  | part :: rest =>
      match partKind part, open with
      | Item, Some _ => nesting open rest
      | CloseList t, Some t' =>
          if String.eqb t t' then nesting None rest else None
      | OpenList t, None => nesting (Some t) rest
      | Flow, None => nesting None rest
      | _, _ => None
      end
  end.

(** The list the bookkeeping of a buffer says is open. *)
Definition openList (open : bool) (tag : option string) : option string :=
  if open then tag else None.

Definition isListTag (t : option string) : Prop :=
  t = None \/ t = Some "ul" \/ t = Some "ol".

(** The invariant of the two buffers of a question. *)
Definition listsFit (q : Question) : Prop :=
  (nesting None (q_contentHtmlParts q)
   = Some (openList (q_listOpen q) (q_listTag q))
   /\ isListTag (openList (q_listOpen q) (q_listTag q)))
  /\ (nesting None (q_descriptionHtmlParts q)
      = Some (openList (q_descListOpen q) (q_descListTag q))
      /\ isListTag (openList (q_descListOpen q) (q_descListTag q))).

(** The lists of both buffers of a question are closed. *)
Definition closedLists (q : Question) : Prop :=
  nesting None (q_contentHtmlParts q) = Some None
  /\ nesting None (q_descriptionHtmlParts q) = Some None.

(** The invariant of the loop for the lists: the buffers of the closed
    questions are closed, those of the open question fit its
    bookkeeping. *)
Definition stateListed (st : PState) : Prop :=
  Forall closedLists (st_questions st)
  /\ forall q, currentQuestion st = Some q -> listsFit q.

(* ================================================================== *)
(** ** The preview in the controller *)
(* ================================================================== *)

(** An entry of the list of [getPreviewQuestionList]: [value] and
    [label]. *)
Definition previewEntry (q : Question) : string * string :=
  (q_id q, "Question " ++ Js.ofNat (q_num q) ++ " (" ++ q_id q ++ ")").

Definition getPreviewQuestionList (body : Body) (h : Heap)
  : result (list (string * string) * Heap) :=
  do (parseResult, h') <- parse body h;
  Ok (map previewEntry (questions parseResult), h').

(** The questions [openPreviewDialog(questionIdOrAll)] renders, given
    the result of its parse. *)
Definition previewedQuestions (questionIdOrAll : string)
    (parseResult : ParseResult) : list Question :=
  let wanted := if Js.truthy questionIdOrAll then questionIdOrAll else "all" in
  if String.eqb wanted "all" then questions parseResult
  else filter (fun q => String.eqb (q_id q) wanted) (questions parseResult).

(* ================================================================== *)
(** ** Facts about the string primitives *)
(* ================================================================== *)

Lemma trimEnd_idem (s : string) : Js.trimEnd (Js.trimEnd s) = Js.trimEnd s.
Proof.
  induction s as [|c s IH]; simpl; [reflexivity|].
  destruct (Js.isSpace c && Js.isEmpty (Js.trimEnd s)) eqn:E; simpl.
  - reflexivity.
  - rewrite IH, E. reflexivity.
Qed.

Lemma trimStart_head (s : string) :
  Js.trimStart s = EmptyString
  \/ exists c r, Js.trimStart s = String c r /\ Js.isSpace c = false.
Proof.
  induction s as [|c s IH]; simpl; [now left|].
  destruct (Js.isSpace c) eqn:E; [exact IH|].
  right. now exists c, s.
Qed.

Lemma trim_idem (s : string) : Js.trim (Js.trim s) = Js.trim s.
Proof.
  unfold Js.trim.
  destruct (trimStart_head s) as [-> | (c & r & -> & Hc)]; [reflexivity|].
  simpl. rewrite Hc. simpl. rewrite Hc. simpl. rewrite Hc. simpl.
  now rewrite trimEnd_idem.
Qed.

Lemma prefix_inv (p s : string) :
  String.prefix p s = true -> exists r, s = p ++ r.
Proof.
  revert s; induction p as [|a p IH]; intros s H.
  - now exists s.
  - destruct s as [|b s]; simpl in H; [discriminate|].
    destruct (ascii_dec a b) as [->|]; [|discriminate].
    destruct (IH _ H) as [r ->]. now exists r.
Qed.

Lemma prefix_cancel (a p s : string) :
  String.prefix (a ++ p) (a ++ s) = String.prefix p s.
Proof.
  induction a as [|c a IH]; simpl; [reflexivity|].
  destruct (ascii_dec c c); [exact IH|congruence].
Qed.

Lemma prefix_self_app (p s : string) : String.prefix p (p ++ s) = true.
Proof.
  induction p as [|c p IH]; simpl; [now destruct s|].
  destruct (ascii_dec c c); [exact IH|congruence].
Qed.

Lemma isEmpty_true (s : string) : Js.isEmpty s = true -> s = EmptyString.
Proof. destruct s; [reflexivity|discriminate]. Qed.

Lemma append_nil_r (s : string) : s ++ "" = s.
Proof. induction s; simpl; congruence. Qed.

Lemma append_assoc (a b c : string) : (a ++ b) ++ c = a ++ b ++ c.
Proof. induction a; simpl; congruence. Qed.

Lemma string_of_uint_digits (d : Decimal.uint) :
  Js.forallb_str Js.isDigit (NilEmpty.string_of_uint d) = true.
Proof. induction d; simpl; auto. Qed.

Lemma ofNat_digits (n : nat) : Js.forallb_str Js.isDigit (Js.ofNat n) = true.
Proof. apply string_of_uint_digits. Qed.

Lemma ofNat_inj (n m : nat) : Js.ofNat n = Js.ofNat m -> n = m.
Proof.
  unfold Js.ofNat. intros E.
  apply DecimalNat.Unsigned.to_uint_inj.
  apply (f_equal NilEmpty.uint_of_string) in E.
  rewrite !NilEmpty.usu in E. congruence.
Qed.

(** The digits a text starts with, when they are known to end. *)
Lemma spanDigits_digits (d : string) (c : ascii) (r : string) :
  Js.forallb_str Js.isDigit d = true -> Js.isDigit c = false ->
  spanDigits (d ++ String c r) = (d, String c r).
Proof.
  intros D C. induction d as [|a d IH]; cbn [append spanDigits].
  - now rewrite C.
  - cbn [Js.forallb_str] in D. apply andb_prop in D as [Da Dd].
    rewrite Da, (IH Dd). reflexivity.
Qed.

Lemma append_inj_l (a x y : string) : a ++ x = a ++ y -> x = y.
Proof. induction a as [|c a IH]; cbn [append]; [auto|]. intros [= E]. auto. Qed.

Lemma join_cons (x : string) (xs : list string) :
  Js.join (x :: xs) = x ++ Js.join xs.
Proof.
  unfold Js.join. destruct xs; simpl; [now rewrite append_nil_r|reflexivity].
Qed.

Lemma blockText_trim (e : Block) : Js.trim (blockText e) = blockText e.
Proof. destruct e; simpl; try apply trim_idem; reflexivity. Qed.


(* ================================================================== *)
(** ** Facts about the header scan and the main loop *)
(* ================================================================== *)

Lemma bind_ok {A B : Type} (r : result A) (k : A -> result B) (b : B) :
  bind r k = Ok b -> exists a, r = Ok a /\ k a = Ok b.
Proof. destruct r as [a|m]; simpl; [eauto|discriminate]. Qed.

Lemma parseBeginTag_some (t : string) (qt : QuizType) :
  _parseBeginTag t = Some qt -> Js.trim t = headerText qt.
Proof.
  unfold _parseBeginTag.
  destruct (String.eqb_spec (Js.trim t) "[BEGIN#MCQ]") as [->|_].
  - intros [= <-]. reflexivity.
  - destruct (String.eqb_spec (Js.trim t) "[BEGIN#ESSAY]") as [->|_].
    + intros [= <-]. reflexivity.
    + discriminate.
Qed.

Lemma parseBeginTag_header (qt : QuizType) :
  _parseBeginTag (headerText qt) = Some qt.
Proof. destruct qt; reflexivity. Qed.

(** The header scan succeeds exactly on blank blocks followed by a
    header block. *)
Lemma findBegin_inv (blocks : list Block) (i b : nat) (qt : QuizType) :
  findBegin blocks i = Ok (qt, b) ->
  exists pre hdr rest,
    blocks = (pre ++ hdr :: rest)%list /\ b = i + List.length pre
    /\ Forall (fun e => isBlank e = true) pre
    /\ isTextBlock hdr = true /\ blockText hdr = headerText qt.
Proof.
  revert i; induction blocks as [|e rest IH]; intros i H; simpl in H;
    [discriminate|].
  assert (Hcase :
    isTextBlock e = true ->
    (if Js.isEmpty (blockText e) then findBegin rest (S i)
     else match _parseBeginTag (blockText e) with
          | None => Err (msgMissingHeaderFound (blockText e))
          | Some qt => Ok (qt, i)
          end) = Ok (qt, b) ->
    exists pre hdr rest0,
      (e :: rest = pre ++ hdr :: rest0)%list /\ b = i + List.length pre
      /\ Forall (fun e => isBlank e = true) pre
      /\ isTextBlock hdr = true /\ blockText hdr = headerText qt).
  { intros Ht Hr. destruct (Js.isEmpty (blockText e)) eqn:E.
    - destruct (IH _ Hr) as (pre & hdr & rest0 & -> & -> & Hpre & Hh & Hx).
      exists (e :: pre), hdr, rest0. repeat split; auto; try (simpl; lia).
      constructor; [|exact Hpre]. unfold isBlank. now rewrite Ht, E.
    - destruct (_parseBeginTag (blockText e)) as [qt'|] eqn:P; [|discriminate].
      injection Hr as -> ->.
      exists [], e, rest. repeat split; auto; try (simpl; lia).
      apply parseBeginTag_some in P. now rewrite blockText_trim in P. }
  destruct e; try discriminate; apply Hcase; auto.
Qed.

Lemma findBegin_intro (pre : list Block) (hdr : Block) (rest : list Block)
    (i : nat) (qt : QuizType) :
  Forall (fun e => isBlank e = true) pre ->
  isTextBlock hdr = true -> blockText hdr = headerText qt ->
  findBegin (pre ++ hdr :: rest) i = Ok (qt, i + List.length pre).
Proof.
  intros Hpre Hh Hx. revert i.
  induction Hpre as [|e pre He _ IH]; intros i; simpl.
  - replace (i + 0) with i by lia.
    destruct hdr; try discriminate; simpl in Hx; rewrite Hx;
      destruct qt; reflexivity.
  - unfold isBlank in He. apply andb_true_iff in He as [Ht He].
    replace (i + S (List.length pre)) with (S i + List.length pre) by lia.
    destruct e; try discriminate; simpl in He; rewrite He; apply IH.
Qed.

Lemma app_same_length {A : Type} (l1 l2 r1 r2 : list A) :
  (l1 ++ r1 = l2 ++ r2)%list -> List.length l1 = List.length l2 ->
  l1 = l2 /\ r1 = r2.
Proof.
  revert l2; induction l1 as [|a l1 IH]; intros [|b l2] H L;
    simpl in *; try discriminate; auto.
  injection H as -> H. injection L as L.
  destruct (IH _ H L) as [-> ->]. auto.
Qed.

(** The header scan reads nothing after the header. *)
Lemma findBegin_ext (pre : list Block) (hdr : Block) (x y : list Block)
    (i : nat) (qt : QuizType) :
  findBegin (pre ++ hdr :: x) i = Ok (qt, i + List.length pre) ->
  findBegin (pre ++ hdr :: y) i = Ok (qt, i + List.length pre)
  /\ Forall (fun e => isBlank e = true) pre
  /\ isTextBlock hdr = true /\ blockText hdr = headerText qt.
Proof.
  intros H.
  destruct (findBegin_inv _ _ H) as (pre' & hdr' & rest' & E & L & Hpre & Hh & Hx).
  assert (L' : List.length pre = List.length pre') by lia.
  destruct (app_same_length _ _ _ _ E L') as [-> [= -> ->]].
  repeat split; auto. now apply findBegin_intro.
Qed.

Lemma loop_app (qt : QuizType) (b : nat) (l1 l2 : list Block) (i : nat)
    (st : PState) :
  loop qt b i (l1 ++ l2) st =
  bind (loop qt b i l1 st) (fun st' => loop qt b (i + List.length l1) l2 st').
Proof.
  revert i st; induction l1 as [|e l1 IH]; intros i st; simpl.
  - now replace (i + 0) with i by lia.
  - replace (i + S (List.length l1)) with (S i + List.length l1) by lia.
    destruct (i =? b); [apply IH|].
    destruct (step qt (b + 1) i e st) as [st'|m]; simpl; [apply IH|reflexivity].
Qed.

Lemma parseQuestionTag_none (t : string) :
  Js.startsWith (Js.trim t) "[QUESTION" = false -> _parseQuestionTag t = Ok None.
Proof. intros H. unfold _parseQuestionTag. now rewrite H. Qed.

(** A block that is no tag leaves the state alone while no question is
    open. *)
Lemma step_inert (qt : QuizType) (bl i : nat) (e : Block) (st : PState) :
  isTagBlock e = false -> currentQuestion st = None ->
  step qt bl i e st = Ok st.
Proof.
  unfold isTagBlock, step. intros H Hc.
  apply orb_false_iff in H as [H Hd].
  apply orb_false_iff in H as [H Ho].
  apply orb_false_iff in H as [Hb Hq].
  rewrite Hb, andb_false_r.
  rewrite parseQuestionTag_none by now rewrite blockText_trim.
  simpl. now rewrite Ho, Hd, Hc.
Qed.

Lemma loop_inert (qt : QuizType) (b : nat) (blocks : list Block) (i : nat)
    (st : PState) :
  Forall (fun e => isTagBlock e = false) blocks -> currentQuestion st = None ->
  loop qt b i blocks st = Ok st.
Proof.
  intros H Hc. revert i.
  induction H as [|e blocks He _ IH]; intros i; simpl; [reflexivity|].
  destruct (i =? b); [apply IH|].
  rewrite step_inert by assumption. apply IH.
Qed.

Lemma blank_not_tag (e : Block) : isBlank e = true -> isTagBlock e = false.
Proof.
  unfold isBlank, isTagBlock. intros H.
  apply andb_true_iff in H as [_ H]. apply isEmpty_true in H. now rewrite H.
Qed.

(** The loop fails when it has a block on which every state fails. *)
Lemma loop_fails_at (qt : QuizType) (b : nat) (blocks : list Block)
    (k : nat) (e : Block) (i : nat) (st : PState) :
  nth_error blocks k = Some e -> i + k <> b ->
  (forall st', isOk (step qt (b + 1) (i + k) e st') = false) ->
  isOk (loop qt b i blocks st) = false.
Proof.
  revert k i st; induction blocks as [|x blocks IH]; intros k i st Hn Hb Hs.
  - destruct k; discriminate.
  - destruct k as [|k]; simpl in Hn.
    + injection Hn as ->. replace (i + 0) with i in * by lia. simpl.
      destruct (Nat.eqb_spec i b); [contradiction|].
      specialize (Hs st). destruct (step qt (b + 1) i e st); [discriminate|reflexivity].
    + replace (i + S k) with (S i + k) in * by lia. simpl.
      destruct (i =? b); [now apply IH with k|].
      destruct (step qt (b + 1) i x st); [now apply IH with k|reflexivity].
Qed.

Lemma blockText_raw (e : Block) : blockText e = Js.trim (rawText e).
Proof. destruct e; reflexivity. Qed.

Lemma step_begin_fails (qt : QuizType) (bl i : nat) (e : Block) (st : PState) :
  Js.startsWith (blockText e) "[BEGIN#" = true ->
  isOk (step qt bl i e st) = false.
Proof.
  intros H. unfold step. rewrite H.
  destruct (prefix_inv _ _ H) as [r ->]. reflexivity.
Qed.

Lemma loop_ok_no_begin (qt : QuizType) (b : nat) (blocks : list Block)
    (i : nat) (st st' : PState) :
  loop qt b i blocks st = Ok st' ->
  forall k e, nth_error blocks k = Some e -> i + k <> b ->
    Js.startsWith (blockText e) "[BEGIN#" = false.
Proof.
  intros H k e Hn Hb.
  destruct (Js.startsWith (blockText e) "[BEGIN#") eqn:E; [|reflexivity].
  assert (F : isOk (loop qt b i blocks st) = false).
  { apply loop_fails_at with k e; auto. intros. now apply step_begin_fails. }
  rewrite H in F. discriminate.
Qed.


Lemma nth_error_middle {A : Type} (pre : list A) (x : A) (rest : list A) :
  nth_error (pre ++ x :: rest) (List.length pre) = Some x.
Proof. induction pre; simpl; auto. Qed.

Lemma nth_error_before {A : Type} (pre : list A) (x : A) (rest : list A)
    (j : nat) (e : A) :
  j < List.length pre -> nth_error (pre ++ x :: rest) j = Some e -> In e pre.
Proof.
  intros L H. rewrite nth_error_app1 in H by exact L.
  eapply nth_error_In; eauto.
Qed.

(** The parse of a document whose loop state is no longer needed. *)
Lemma parse_ok_inv (body : Body) (h : Heap) (r : ParseResult) (h' : Heap) :
  parse body h = Ok (r, h') ->
  exists qt b st,
    findBegin body 0 = Ok (qt, b)
    /\ loop qt b 0 body (initialState h) = Ok st
    /\ finish qt st = (r, h').
Proof.
  unfold parse. intros H.
  apply bind_ok in H as ([qt b] & Hf & H).
  apply bind_ok in H as (st & Hl & H).
  exists qt, b, st. repeat split; auto. congruence.
Qed.

Lemma loop_header_prefix (qt : QuizType) (pre : list Block) (hdr : Block)
    (mid : list Block) (st : PState) :
  Forall (fun e => isBlank e = true) pre ->
  Forall (fun e => isTagBlock e = false) mid ->
  currentQuestion st = None ->
  loop qt (List.length pre) 0 (pre ++ hdr :: mid) st = Ok st.
Proof.
  intros Hpre Hmid Hc. rewrite loop_app.
  rewrite loop_inert; auto.
  - simpl. rewrite Nat.eqb_refl. now apply loop_inert.
  - eapply Forall_impl; [|exact Hpre]. intros e. apply blank_not_tag.
Qed.

(** The end-to-end example: one question, its two options, and a
    validation without errors. *)
Example capital_end_to_end :
  exists r h q,
    parse Samples.capital [] = Ok (r, h)
    /\ questions r = [q]
    /\ q_content q = "<p>Capital of Indonesia?</p>"
    /\ map (fun o => (o_text o, o_isCorrect o)) (q_options q)
       = [("Jakarta", true); ("Bandung", false)]
    /\ validate r = {| isValid := true; errors := []; warnings := [] |}.
Proof.
  do 3 eexists. split; [lazy; reflexivity|].
  split; [reflexivity|]. split; [reflexivity|]. split; lazy; reflexivity.
Qed.

(* ================================================================== *)
(** ** Numbering of the questions: the invariant of the loop *)
(* ================================================================== *)

Lemma sameLabel_refl (q : Question) : sameLabel q q.
Proof. split; reflexivity. Qed.

Lemma sameLabel_trans (a b c : Question) :
  sameLabel a b -> sameLabel b c -> sameLabel a c.
Proof. unfold sameLabel. intros [] []. split; congruence. Qed.

Lemma closeLists_label (q : Question) : sameLabel q (closeLists q).
Proof.
  unfold closeLists, closeDescriptionListIfOpen, closeQuestionListIfOpen.
  break_lets; split; reflexivity.
Qed.

Lemma readQuestion_label (e : Block) (q : Question) (w : World) :
  sameLabel q (fst (readQuestion e q w)).
Proof.
  unfold readQuestion, closeQuestionListIfOpen.
  destruct e; break_lets; split; reflexivity.
Qed.

Lemma readDescriptions_label (e : Block) (q : Question) (w : World) :
  sameLabel q (fst (readDescriptions e q w)).
Proof.
  unfold readDescriptions, closeDescriptionListIfOpen.
  destruct e; break_lets; split; reflexivity.
Qed.

Lemma readOptions_label (i : nat) (e : Block) (q : Question) (w : World) :
  sameLabel q (fst (readOptions i e q w)).
Proof.
  unfold readOptions. destruct e; break_lets; split; reflexivity.
Qed.

Lemma labelled_same (n : nat) (q q' : Question) :
  labelled n q -> sameLabel q q' -> labelled n q'.
Proof. unfold labelled, sameLabel. intros [] []. split; congruence. Qed.

Lemma numbered_push (qs : list Question) (q : Question) :
  numbered qs -> labelled (List.length qs) q -> numbered (push qs q).
Proof.
  intros Hn Hq k q' H. unfold push in H.
  destruct (Nat.lt_ge_cases k (List.length qs)) as [L|L].
  - rewrite nth_error_app1 in H by exact L. now apply Hn.
  - rewrite nth_error_app2 in H by exact L.
    destruct (k - List.length qs) as [|d] eqn:D; simpl in H.
    + injection H as <-. now replace k with (List.length qs) by lia.
    + destruct d; discriminate.
Qed.

Lemma numbered_close (st : PState) :
  wellNumbered st ->
  numbered (match currentQuestion st with
            | Some q => push (st_questions st) (closeLists q)
            | None => st_questions st
            end).
Proof.
  intros [Hn Hc]. destruct (currentQuestion st) as [q|]; [|exact Hn].
  apply numbered_push; [exact Hn|].
  eapply labelled_same; [apply Hc; reflexivity|apply closeLists_label].
Qed.

Lemma startQuestion_numbered (i : nat) (tag : QuestionTag) (st : PState) :
  wellNumbered st -> wellNumbered (startQuestion i tag st).
Proof.
  intros H. unfold startQuestion, wellNumbered. simpl. split.
  - now apply numbered_close.
  - intros q [= <-]. destruct (Js.truthy (inlineText tag)); split; reflexivity.
Qed.

Lemma withQuestion_numbered (st : PState) (q q' : Question) (w : World)
    (s : ParserState) :
  wellNumbered st -> currentQuestion st = Some q -> sameLabel q q' ->
  wellNumbered (withQuestion st q' w s).
Proof.
  intros [Hn Hc] Hq Hs. split; simpl; [exact Hn|].
  intros x [= <-]. eapply labelled_same; [apply Hc; exact Hq|exact Hs].
Qed.

Lemma step_numbered (qt : QuizType) (bl i : nat) (e : Block) (st st' : PState) :
  step qt bl i e st = Ok st' -> wellNumbered st -> wellNumbered st'.
Proof.
  unfold step. intros H Hw.
  destruct (Js.truthy (blockText e) && Js.startsWith (blockText e) "[BEGIN#");
    [discriminate|].
  apply bind_ok in H as ([tag|] & _ & H).
  { injection H as <-. now apply startQuestion_numbered. }
  destruct (Js.startsWith (blockText e) "[OPTIONS]").
  { destruct (currentQuestion st) as [q|] eqn:Hq; [|discriminate].
    destruct (isEssay qt); [discriminate|].
    destruct (q_hasOptionsTag q); [discriminate|].
    injection H as <-. eapply withQuestion_numbered; eauto.
    eapply sameLabel_trans; [|apply closeLists_label]. split; reflexivity. }
  destruct (Js.startsWith (blockText e) "[DESCRIPTIONS]").
  { destruct (currentQuestion st) as [q|] eqn:Hq; [|discriminate].
    destruct (isMcq qt && negb (isState (state st) READING_OPTIONS));
      [discriminate|].
    destruct (isEssay qt && negb (isState (state st) READING_QUESTION));
      [discriminate|].
    destruct (q_hasDescriptionsTag q); [discriminate|].
    injection H as <-. eapply withQuestion_numbered; eauto.
    eapply sameLabel_trans; [|apply closeLists_label]. split; reflexivity. }
  destruct (currentQuestion st) as [q|] eqn:Hq; [|now injection H as <-].
  destruct (state st).
  - now injection H as <-.
  - pose proof (readQuestion_label e q (st_world st)) as L.
    destruct (readQuestion e q (st_world st)) as [q' w'].
    injection H as <-. eapply withQuestion_numbered; eauto.
  - pose proof (readOptions_label i e q (st_world st)) as L.
    destruct (readOptions i e q (st_world st)) as [q' w'].
    injection H as <-. eapply withQuestion_numbered; eauto.
  - pose proof (readDescriptions_label e q (st_world st)) as L.
    destruct (readDescriptions e q (st_world st)) as [q' w'].
    injection H as <-. eapply withQuestion_numbered; eauto.
Qed.

Lemma loop_numbered (qt : QuizType) (b : nat) (blocks : list Block) (i : nat)
    (st st' : PState) :
  loop qt b i blocks st = Ok st' -> wellNumbered st -> wellNumbered st'.
Proof.
  revert i st; induction blocks as [|e blocks IH]; intros i st H Hw; simpl in H.
  - now injection H as <-.
  - destruct (i =? b); [eauto|].
    apply bind_ok in H as (st1 & Hs & H).
    eapply IH; [exact H|]. eapply step_numbered; eauto.
Qed.

Lemma initial_numbered (h : Heap) : wellNumbered (initialState h).
Proof.
  split; simpl.
  - intros [|k] q H; discriminate.
  - discriminate.
Qed.

Lemma finish_numbered (qt : QuizType) (st : PState) :
  wellNumbered st -> numbered (questions (fst (finish qt st))).
Proof.
  intros H k q Hk. simpl in Hk.
  rewrite nth_error_map in Hk.
  destruct (nth_error _ k) as [q0|] eqn:E; [|discriminate].
  injection Hk as <-.
  apply (numbered_close H) in E. destruct E as [E1 E2]. split; assumption.
Qed.

(* ================================================================== *)
(** ** Facts about the validator *)
(* ================================================================== *)

(** The questions are validated one by one, in order. *)
Lemma validate_each (qt : QuizType) (q : Question) (qs : list Question)
    (imgs : ImageStore) :
  let v := validate {| quizType := Some qt; questions := q :: qs;
                       r_images := imgs |} in
  errors v = flat_map (fun x => fst (validateQuestion qt x)) (q :: qs)
  /\ warnings v = flat_map (fun x => snd (validateQuestion qt x)) (q :: qs).
Proof.
  cbv zeta. unfold validate. cbn [quizType questions errors warnings].
  now rewrite !map_map, !flat_map_concat_map.
Qed.


(** A message of question [num] is told from the two messages about the
    correct answer by what follows its header. *)
Lemma aboutCorrectCount_body (num : nat) (body : string) (l : nat) :
  aboutCorrectCount num {| message := question_ num ++ body; line := l |} =
  String.prefix "No correct answer marked." body
  || String.prefix "Multiple correct answers found (" body.
Proof.
  unfold aboutCorrectCount, Js.startsWith. simpl. now rewrite !prefix_cancel.
Qed.

Lemma aboutDuplicates_body (num : nat) (body : string) (l : nat) :
  aboutDuplicates num {| message := question_ num ++ body; line := l |} =
  String.prefix "Duplicate options found: " body.
Proof.
  unfold aboutDuplicates, Js.startsWith. simpl. now rewrite prefix_cancel.
Qed.

Lemma filter_correct_duplicates (q : Question) (opts : list QuizOption)
    (seen : list string) :
  filter (aboutCorrectCount (q_num q)) (duplicateErrors q opts seen) = [].
Proof.
  revert seen; induction opts as [|o opts IH]; intros seen; simpl; auto.
  destruct (Js.isEmpty (_normalizeOptionLine_ o)); auto.
  destruct (hasOwnProperty seen (_normalizeOptionLine_ o)); auto.
  simpl. unfold msgDuplicate. rewrite aboutCorrectCount_body. simpl. auto.
Qed.

Lemma filter_duplicates_duplicates (q : Question) (opts : list QuizOption)
    (seen : list string) :
  filter (aboutDuplicates (q_num q)) (duplicateErrors q opts seen)
  = duplicateErrors q opts seen.
Proof.
  revert seen; induction opts as [|o opts IH]; intros seen; simpl; auto.
  destruct (Js.isEmpty (_normalizeOptionLine_ o)); auto.
  destruct (hasOwnProperty seen (_normalizeOptionLine_ o)); auto.
  simpl. unfold msgDuplicate at 1. rewrite aboutDuplicates_body. simpl.
  now rewrite IH.
Qed.

(** The rules of the MCQ branch other than the two above give no message
    about the correct answer and none about duplicates. *)
Lemma filter_correct_others (q : Question) :
  filter (aboutCorrectCount (q_num q)) (contentErrors q) = []
  /\ filter (aboutCorrectCount (q_num q)) (missingOptionsErrors q) = []
  /\ filter (aboutCorrectCount (q_num q)) (optionCountErrors q) = [].
Proof.
  unfold contentErrors, missingOptionsErrors, optionCountErrors,
    msgContentEmpty, msgMissingOptions, msgNeedsTwo.
  repeat split; break_lets; cbn [filter]; try reflexivity;
    rewrite aboutCorrectCount_body; simpl; reflexivity.
Qed.

Lemma filter_duplicates_others (q : Question) :
  filter (aboutDuplicates (q_num q)) (contentErrors q) = []
  /\ filter (aboutDuplicates (q_num q)) (missingOptionsErrors q) = []
  /\ filter (aboutDuplicates (q_num q)) (optionCountErrors q) = []
  /\ filter (aboutDuplicates (q_num q)) (correctAnswerErrors q) = [].
Proof.
  unfold contentErrors, missingOptionsErrors, optionCountErrors,
    correctAnswerErrors, msgContentEmpty, msgMissingOptions, msgNeedsTwo,
    msgNoCorrect, msgMultipleCorrect.
  repeat split; break_lets; cbn [filter]; try reflexivity;
    rewrite aboutDuplicates_body; simpl; reflexivity.
Qed.

Lemma filter_correct_correct (q : Question) :
  filter (aboutCorrectCount (q_num q)) (correctAnswerErrors q)
  = correctAnswerErrors q.
Proof.
  unfold correctAnswerErrors.
  destruct (correctCount q =? 0).
  - cbn [filter]. unfold msgNoCorrect. rewrite aboutCorrectCount_body.
    reflexivity.
  - destruct (1 <? correctCount q); [|reflexivity].
    cbn [filter]. unfold msgMultipleCorrect.
    rewrite aboutCorrectCount_body, prefix_self_app, orb_true_r. reflexivity.
Qed.

Lemma existsb_push {A : Type} (p : A -> bool) (l : list A) (x : A) :
  existsb p (push l x) = existsb p l || p x.
Proof. unfold push. rewrite existsb_app. simpl. now rewrite orb_false_r. Qed.

Lemma tracks_skip (seen : list string) (earlier : list QuizOption)
    (o : QuizOption) :
  tracks seen earlier ->
  (Js.isEmpty (_normalizeOptionLine_ o) = true
   \/ hasOwnProperty seen (_normalizeOptionLine_ o) = true) ->
  tracks seen (push earlier o).
Proof.
  intros T H k Hk. rewrite existsb_push, (T k Hk).
  destruct (String.eqb_spec (_normalizeOptionLine_ o) k) as [E|];
    [|now rewrite orb_false_r].
  destruct H as [H|H].
  - rewrite E in H. congruence.
  - rewrite E, (T k Hk) in H. rewrite H. reflexivity.
Qed.

Lemma tracks_assign (seen : list string) (earlier : list QuizOption)
    (o : QuizOption) :
  tracks seen earlier ->
  _normalizeOptionLine_ o <> "__proto__" ->
  tracks (assign seen (_normalizeOptionLine_ o)) (push earlier o).
Proof.
  intros T P k Hk. rewrite existsb_push, <- (T k Hk). unfold assign.
  destruct (String.eqb_spec (_normalizeOptionLine_ o) "__proto__");
    [contradiction|].
  simpl. rewrite String.eqb_sym. apply orb_comm.
Qed.

Lemma duplicateErrors_refines (q : Question) (opts : list QuizOption)
    (seen : list string) (earlier : list QuizOption) :
  Forall (fun o => _normalizeOptionLine_ o <> "__proto__") opts ->
  tracks seen earlier ->
  duplicateErrors q opts seen = laterOccurrences q earlier opts.
Proof.
  intros H. revert seen earlier.
  induction H as [|o opts Ho _ IH]; intros seen earlier T; simpl; auto.
  destruct (Js.isEmpty (_normalizeOptionLine_ o)) eqn:E; simpl.
  - apply IH. apply tracks_skip; auto.
  - rewrite <- (T _ E).
    destruct (hasOwnProperty seen (_normalizeOptionLine_ o)) eqn:S.
    + f_equal. apply IH. apply tracks_skip; auto.
    + apply IH. now apply tracks_assign.
Qed.

(** Options with an empty key are invisible to the duplicate check. *)
Lemma duplicateErrors_skip_empty (q : Question) (opts : list QuizOption)
    (seen : list string) :
  duplicateErrors q opts seen
  = duplicateErrors q (filter (fun o => negb (hasEmptyKey o)) opts) seen.
Proof.
  revert seen; induction opts as [|o opts IH]; intros seen; simpl; auto.
  unfold hasEmptyKey at 1.
  destruct (Js.isEmpty (_normalizeOptionLine_ o)) eqn:E; simpl; auto.
  rewrite E. destruct (hasOwnProperty seen (_normalizeOptionLine_ o)); auto.
  now rewrite IH.
Qed.

Lemma emptyOptionWarnings_length (q : Question) (opts : list QuizOption)
    (idx : nat) :
  List.length (emptyOptionWarnings q opts idx)
  = List.length (filter hasEmptyText opts).
Proof.
  revert idx; induction opts as [|o opts IH]; intros idx; simpl; auto.
  unfold hasEmptyText at 1.
  destruct (Js.isEmpty (Js.trim (o_text o))); simpl; auto.
Qed.

Lemma filter_empty_keys (opts : list QuizOption) :
  Forall (fun o => hasEmptyKey o = true) opts ->
  filter (fun o => negb (hasEmptyKey o)) opts = [].
Proof.
  induction 1 as [|o opts Ho _ IH]; simpl; [reflexivity|].
  rewrite Ho. simpl. exact IH.
Qed.

(** The errors of an MCQ question about duplicate options are those of
    the duplicate check. *)
Lemma duplicate_errors_of_question (q : Question) :
  filter (aboutDuplicates (q_num q)) (fst (validateQuestion MCQ q))
  = duplicateErrors q (q_options q) [].
Proof.
  cbn [validateQuestion fst].
  destruct (filter_duplicates_others q) as (E1 & E2 & E3 & E4).
  now rewrite !filter_app, E1, E2, E3, E4, filter_duplicates_duplicates.
Qed.

(** The errors of an MCQ question about the number of correct answers
    are those of the rule on the correct answer. *)
Lemma correct_errors_of_question (q : Question) :
  filter (aboutCorrectCount (q_num q)) (fst (validateQuestion MCQ q))
  = correctAnswerErrors q.
Proof.
  cbn [validateQuestion fst].
  destruct (filter_correct_others q) as (E1 & E2 & E3).
  now rewrite !filter_app, E1, E2, E3, filter_correct_correct,
    filter_correct_duplicates, app_nil_r.
Qed.

(** The count of the validator is the number of options flagged
    correct. *)
Lemma correctCount_flags (q : Question) :
  correctCount q = flaggedCorrect (q_options q).
Proof.
  unfold correctCount, flaggedCorrect.
  induction (q_options q) as [|o opts IH]; [reflexivity|].
  cbn [filter map count_occ]. destruct (o_isCorrect o).
  - destruct (Bool.bool_dec true true); [|congruence].
    cbn [List.length]. now rewrite IH.
  - destruct (Bool.bool_dec false true); [discriminate|exact IH].
Qed.

Lemma correct_messages (num k : nat) :
  msgNoCorrect num
  = "Question " ++ Js.ofNat num
    ++ ": No correct answer marked. Add '<>' to one option."
  /\ msgMultipleCorrect num k
     = "Question " ++ Js.ofNat num ++ ": Multiple correct answers found ("
       ++ Js.ofNat k ++ "). Only one allowed.".
Proof.
  unfold msgNoCorrect, msgMultipleCorrect, question_.
  split; rewrite !append_assoc; reflexivity.
Qed.

(** The warnings of rule 5, read off the options: one for every option
    whose text is empty once trimmed, with its position and its line. *)
Lemma emptyOptionWarnings_exact (q : Question) (opts : list QuizOption)
    (idx : nat) :
  emptyOptionWarnings q opts idx
  = map (fun p =>
           {| message := "Question " ++ Js.ofNat (q_num q) ++ ", Option "
                         ++ Js.ofNat (fst p + 1) ++ ": Option text is empty.";
              line := o_line (snd p) |})
      (filter (fun p => hasEmptyText (snd p))
         (combine (seq idx (List.length opts)) opts)).
Proof.
  revert idx; induction opts as [|o opts IH]; intros idx; [reflexivity|].
  cbn [emptyOptionWarnings List.length seq combine filter snd].
  unfold hasEmptyText at 1.
  destruct (Js.isEmpty (Js.trim (o_text o))); cbn [map fst snd];
    now rewrite IH.
Qed.

Lemma combine_seq_In {A : Type} (l : list A) :
  forall (i k : nat) (x : A),
    In (k, x) (combine (seq i (List.length l)) l)
    <-> i <= k /\ nth_error l (k - i) = Some x.
Proof.
  induction l as [|a l IH]; intros i k x; cbn [List.length seq combine In].
  - split; [contradiction|]. intros [_ H]. now destruct (k - i).
  - rewrite IH. split.
    + intros [[= <- <-]|[L H]].
      * rewrite Nat.sub_diag. split; [lia|reflexivity].
      * split; [lia|]. replace (k - i) with (S (k - S i)) by lia. exact H.
    + intros [L H]. destruct (Nat.eq_dec i k) as [->|N].
      * rewrite Nat.sub_diag in H. injection H as ->. now left.
      * right. split; [lia|].
        replace (k - i) with (S (k - S i)) in H by lia. exact H.
Qed.

Lemma indexed_In (opts : list QuizOption) (k : nat) (o : QuizOption) :
  In (k, o) (indexed opts) <-> nth_error opts k = Some o.
Proof.
  unfold indexed. rewrite combine_seq_In, Nat.sub_0_r.
  split; [tauto|]. split; [lia|assumption].
Qed.

(** The position named by the message of a warning of rule 5. *)
Lemma empty_option_message_inj (num k k' : nat) :
  "Question " ++ Js.ofNat num ++ ", Option " ++ Js.ofNat (k' + 1)
  ++ ": Option text is empty."
  = "Question " ++ Js.ofNat num ++ ", Option " ++ Js.ofNat (k + 1)
    ++ ": Option text is empty." ->
  k' = k.
Proof.
  cbn [append]. intros [= E]. apply append_inj_l in E.
  cbn [append] in E. injection E as E.
  apply (f_equal spanDigits) in E.
  rewrite !spanDigits_digits in E by (apply ofNat_digits || reflexivity).
  injection E as E. apply ofNat_inj in E. lia.
Qed.

(** The validator on sample models: the essay model of the repository's
    tests, and two options that both read [__proto__], which the [seen]
    object cannot record. *)
Example essay_model_rejected :
  validate Samples.essayModel
  = {| isValid := false;
       errors := [ {| message := msgOptionsNotAllowed 1; line := 12 |} ];
       warnings := [] |}.
Proof. lazy. reflexivity. Qed.

Example proto_options_not_recorded :
  duplicateErrors Samples.multiCorrect
    [ Samples.mkOption "__proto__" true 32; Samples.mkOption "__proto__" false 33 ] []
  = [].
Proof. lazy. reflexivity. Qed.

(* ================================================================== *)
(** ** Facts about the exporter and the renderer *)
(* ================================================================== *)

Lemma nth_error_update (h : Heap) (r r' : BlobRef) (f : Blob -> Blob) :
  nth_error (update h r f) r' =
  if r' =? r then option_map f (nth_error h r') else nth_error h r'.
Proof.
  revert r r'; induction h as [|b h IH]; intros r r'; simpl.
  - destruct (r' =? r), r'; reflexivity.
  - destruct r as [|r], r' as [|r']; simpl; auto.
Qed.

Lemma nth_error_push {A : Type} (l : list A) (x : A) (r : nat) (b : A) :
  nth_error l r = Some b -> nth_error (push l x) r = Some b.
Proof.
  intros H. unfold push. rewrite nth_error_app1; auto.
  apply nth_error_Some. congruence.
Qed.

Lemma renameAll_frame (entries : ImageStore) (h : Heap) (blobs : list BlobRef)
    (r : BlobRef) (b : Blob) :
  nth_error h r = Some b ->
  exists b', nth_error (fst (renameAll entries h blobs)) r = Some b'
             /\ renamedBy entries r b b'.
Proof.
  revert h blobs b; induction entries as [|[k0 r0] rest IH];
    intros h blobs b H; simpl.
  - exists b. split; [exact H|]. repeat split. right. split; auto.
  - set (h1 := update h r0 (setName ("images/" ++ k0))).
    assert (H1 : nth_error h1 r
                 = Some (if r =? r0 then setName ("images/" ++ k0) b else b)).
    { unfold h1. rewrite nth_error_update, H. now destruct (r =? r0). }
    destruct (IH h1 (push blobs r0) _ H1) as (b' & Hb' & Ht & Hy & Hn).
    exists b'. split; [exact Hb'|].
    destruct (Nat.eqb_spec r r0) as [->|Ne]; simpl in Ht, Hy; repeat split; auto.
    + left. destruct Hn as [(k & Hk & Hname)|[_ ->]].
      * exists k. split; [now right|exact Hname].
      * exists k0. split; [now left|reflexivity].
    + destruct Hn as [(k & Hk & Hname)|[Hno ->]].
      * left. exists k. split; [now right|exact Hname].
      * right. split; [|reflexivity].
        intros k [E|E]; [congruence|now apply (Hno k)].
Qed.

(** A function node renders its arguments, then translates. *)
Lemma extractNode_function (code : string) (kids : list Inline) (w : World)
    (questionId : string) (context : option Context) :
  _extractNode (EQUATION_FUNCTION code kids) w questionId context =
  let '(args, w') := renderArgs kids w questionId context in
  (renderFunction code args, w', context).
Proof.
  simpl.
  match goal with
  | |- (let '(_, _) := ?f kids w in _) = _ =>
      assert (E : forall ks w0, f ks w0 = renderArgs ks w0 questionId context)
  end.
  { induction ks as [|k ks IH]; intros w0; simpl; [reflexivity|].
    destruct (_extractNode k w0 questionId (Some (assignInEquation context)))
      as [[a w1] c].
    now rewrite IH. }
  now rewrite E.
Qed.

(** A [root] node with one child, and one without children, where the
    template prints the missing first argument as [undefined]. *)
Example root_one_child :
  fst (fst (_extractNode Samples.rootOne Samples.emptyWorld "q1" None))
  = "\sqrt{x}".
Proof. lazy. reflexivity. Qed.

Example root_without_children :
  fst (fst (_extractNode (EQUATION_FUNCTION "root" []) Samples.emptyWorld
              "q1" None))
  = "\sqrt{undefined}".
Proof. lazy. reflexivity. Qed.

Lemma renderArgs_length (kids : list Inline) (w : World) (questionId : string)
    (context : option Context) :
  List.length (fst (renderArgs kids w questionId context)) = List.length kids.
Proof.
  revert w; induction kids as [|k kids IH]; intros w; simpl; [reflexivity|].
  destruct (_extractNode k w questionId (Some (assignInEquation context)))
    as [[a w1] c].
  specialize (IH w1).
  destruct (renderArgs kids w1 questionId context) as [rest w2].
  simpl in *. now rewrite IH.
Qed.

(* ================================================================== *)
(** ** The claims *)
(* ================================================================== *)




(** C2, as stated, fails: [generateZip] renames every blob stored in the
    images mapping, so a stored blob is not as before the call. *)
Lemma export_renames_stored_blob :
  exists r h,
    parse Samples.withImage [] = Ok (r, h)
    /\ In ("q1_img_001.png", 0) (r_images r)
    /\ nth_error h 0 = Some Samples.png
    /\ nth_error (snd (snd (generateZip (fun _ => []) "2026-01-10T00:00:00.000Z" r h))) 0
       = Some (setName "images/q1_img_001.png" Samples.png)
    /\ blobName (setName "images/q1_img_001.png" Samples.png)
       <> blobName Samples.png.
Proof.
  eexists. eexists. split; [lazy; reflexivity|].
  repeat split; try (lazy; reflexivity); [now left|discriminate].
Qed.

(** C2, amended.  For every Quiz Model, [generateZip] leaves the model
    object as it was (quizType, every question, the keys of the images
    mapping and the blobs they refer to), and of every blob of the heap
    the content type and the bytes; a blob stored in the images mapping
    is renamed to [images/] followed by a file name it is stored under,
    and a blob that is not stored there is untouched. *)
Theorem export_frame (JSON_stringify : ExportJson -> list byte) (now : string)
    (parseResult : ParseResult) (h : Heap) :
  let out := generateZip JSON_stringify now parseResult h in
  fst (snd out) = parseResult
  /\ forall r b, nth_error h r = Some b ->
       exists b', nth_error (snd (snd out)) r = Some b'
                  /\ renamedBy (r_images parseResult) r b b'.
Proof.
  intros out; subst out; unfold generateZip, alloc.
  match goal with
  | |- context [renameAll ?es (push h ?x) ?bs] =>
      pose proof (fun r b (H : nth_error h r = Some b) =>
                    @renameAll_frame es (push h x) bs r b
                      (@nth_error_push _ h x r b H)) as F;
      destruct (renameAll es (push h x) bs) as [h2 blobs]
  end.
  simpl in *. split; [reflexivity|exact F].
Qed.

Lemma export_frame_witness :
  nth_error [Samples.png] 0 = Some Samples.png
  /\ exists b',
       nth_error (snd (snd (generateZip (fun _ => []) ""
                              {| quizType := Some ESSAY; questions := [];
                                 r_images := [("q1_img_001.png", 0)] |}
                              [Samples.png]))) 0 = Some b'
       /\ renamedBy [("q1_img_001.png", 0)] 0 Samples.png b'.
Proof.
  split; [reflexivity|].
  apply (proj2 (@export_frame (fun _ => []) ""
                  {| quizType := Some ESSAY; questions := [];
                     r_images := [("q1_img_001.png", 0)] |}
                  [Samples.png]) 0 Samples.png). reflexivity.
Defined.

(** C3.  For every document that parses, the question in position [k]
    of the result (counting from 0, in document order) has
    [num = k + 1], one more than the number of questions closed before
    it, and [id = "q" + num].  The label of the tag plays no part: a
    question is started the same way whatever digits the tag carries,
    and [[QUESTION#99]] followed by [[QUESTION#1]] gives the numbers 1
    and 2 and the ids [q1] and [q2]. *)
Theorem question_numbering :
  (forall body h r h',
      parse body h = Ok (r, h') ->
      forall k q, nth_error (questions r) k = Some q ->
        q_num q = k + 1 /\ q_id q = "q" ++ Js.ofNat (q_num q))
  /\ (forall i tag tag' st,
        inlineText tag = inlineText tag' ->
        startQuestion i tag st = startQuestion i tag' st)
  /\ (exists r h',
        parse Samples.relabelled [] = Ok (r, h')
        /\ map (fun q => (q_num q, q_id q)) (questions r)
           = [(1, "q1"); (2, "q2")]).
Proof.
  split; [|split].
  - intros body h r h' H k q Hk.
    destruct (parse_ok_inv _ _ H) as (qt & b & st & _ & Hl & Hf).
    pose proof (finish_numbered qt
                  (loop_numbered _ _ _ _ Hl (initial_numbered h))) as N.
    rewrite Hf in N. destruct (N _ _ Hk) as [E1 E2]. split; [exact E1|].
    now rewrite E1.
  - intros i tag tag' st E. unfold startQuestion. now rewrite E.
  - eexists. eexists. split; lazy; reflexivity.
Qed.

Lemma question_numbering_witness :
  exists r h',
    parse Samples.capital [] = Ok (r, h')
    /\ exists q, nth_error (questions r) 0 = Some q
                 /\ q_num q = 0 + 1 /\ q_id q = "q" ++ Js.ofNat (q_num q).
Proof.
  eexists. eexists. split; [lazy; reflexivity|].
  eexists. split; [reflexivity|].
  eapply (proj1 question_numbering Samples.capital []); lazy; reflexivity.
Defined.

(** C4, as stated, fails: a [root] node with three argument children,
    of which the second (the index) renders as "3", is rendered without
    the index. *)
Lemma root_with_three_children :
  fst (renderArgs [TEXT "x" []; TEXT "3" []; TEXT "y" []]
         Samples.emptyWorld "q1" None) = ["x"; "3"; "y"]
  /\ fst (fst (_extractNode Samples.rootThree Samples.emptyWorld "q1" None))
     = "\sqrt{x}"
  /\ fst (fst (_extractNode Samples.rootThree Samples.emptyWorld "q1" None))
     <> "\sqrt[3]{x}".
Proof.
  split; [|split]; try (lazy; reflexivity). lazy. discriminate.
Qed.

(** C4, amended.  For every equation function node whose code is [root],
    with as many rendered arguments as it has children: when it has
    exactly two and the second (the index) renders non-empty, the result
    is [\sqrt[index]{base}]; when it has at least one and is not of that
    form, the result is [\sqrt{base}], [base] being the first. *)
Theorem root_rendering (code : string) (kids : list Inline) (w : World)
    (questionId : string) (context : option Context) :
  Js.stripLeadingBackslashes (Js.trim code) = "root" ->
  let rendered := renderArgs kids w questionId context in
  let node := _extractNode (EQUATION_FUNCTION code kids) w questionId context in
  List.length (fst rendered) = List.length kids
  /\ (forall base index,
        fst rendered = [base; index] -> index <> "" ->
        node = ("\sqrt[" ++ index ++ "]{" ++ base ++ "}", snd rendered, context))
  /\ (forall base others,
        fst rendered = base :: others ->
        (forall index, others = [index] -> index = "") ->
        node = ("\sqrt{" ++ base ++ "}", snd rendered, context)).
Proof.
  intros Hc rendered node. subst node. rewrite extractNode_function.
  split; [apply renderArgs_length|].
  subst rendered. destruct (renderArgs kids w questionId context) as [args w'].
  simpl. unfold renderFunction. rewrite Hc. simpl. split.
  - intros base index -> Hi. simpl. destruct index; [contradiction|reflexivity].
  - intros base others -> Ho. destruct others as [|index [|x others]]; simpl; auto.
    now rewrite (Ho index eq_refl).
Qed.

Lemma root_rendering_witness :
  Js.stripLeadingBackslashes (Js.trim "\root") = "root"
  /\ _extractNode Samples.rootTwo Samples.emptyWorld "q1" None
     = ("\sqrt[3]{x}", Samples.emptyWorld, None).
Proof.
  split; [reflexivity|].
  refine (proj1 (proj2 (@root_rendering "\root" [TEXT "x" []; TEXT "3" []]
                          Samples.emptyWorld "q1" None _)) "x" "3" _ _);
    [reflexivity|reflexivity|discriminate].
Defined.

(** C7.  For every equation function node whose code is [frac], the
    rendering is [\frac{numerator}{denominator}], the numerator being
    the rendering of the first argument and the denominator the
    concatenation of the renderings of the others; the arguments "100",
    "" and "\times" give [\frac{100}{\times}]. *)
Theorem frac_rendering :
  (forall code kids w questionId context,
      Js.stripLeadingBackslashes (Js.trim code) = "frac" ->
      let rendered := renderArgs kids w questionId context in
      _extractNode (EQUATION_FUNCTION code kids) w questionId context
      = ("\frac{" ++ hd "" (fst rendered) ++ "}{"
         ++ String.concat "" (tl (fst rendered)) ++ "}",
         snd rendered, context))
  /\ renderFunction "frac" ["100"; ""; "\times"] = "\frac{100}{\times}"
  /\ fst (renderArgs [TEXT "100" []; TEXT "" []; EQUATION_SYMBOL "\times" ""]
            Samples.emptyWorld "q1" None) = ["100"; ""; "\times"]
  /\ fst (fst (_extractNode Samples.fracNode Samples.emptyWorld "q1" None))
     = "\frac{100}{\times}".
Proof.
  split; [|split; [|split]].
  - intros code kids w questionId context Hc rendered. subst rendered.
    rewrite extractNode_function.
    destruct (renderArgs kids w questionId context) as [args w'].
    simpl. unfold renderFunction. rewrite Hc. simpl.
    destruct args; reflexivity.
  - lazy. reflexivity.
  - lazy. reflexivity.
  - lazy. reflexivity.
Qed.

Lemma frac_rendering_witness :
  Js.stripLeadingBackslashes (Js.trim " \\frac ") = "frac"
  /\ _extractNode (EQUATION_FUNCTION " \\frac " [TEXT "a" []; TEXT "b" []])
       Samples.emptyWorld "q1" None
     = ("\frac{a}{b}", Samples.emptyWorld, None).
Proof.
  split; [reflexivity|].
  apply (proj1 frac_rendering " \\frac " [TEXT "a" []; TEXT "b" []]
           Samples.emptyWorld "q1" None).
  reflexivity.
Defined.




(** C6.  For every MCQ question the validator gives an error about the
    number of correct answers exactly when the number of options whose
    [isCorrect] is true is not 1: "No correct answer marked" for none,
    "Multiple correct answers found (k)" for k > 1 such options, and
    nothing for one.  A question with two options, both marked correct,
    gets exactly one error, "Question 3: Multiple correct answers found
    (2). Only one allowed.". *)
Theorem correct_answer_count :
  (forall q qs imgs,
      errors (validate {| quizType := Some MCQ; questions := q :: qs;
                          r_images := imgs |})
      = flat_map (fun x => fst (validateQuestion MCQ x)) (q :: qs))
  /\ (forall q,
      filter (aboutCorrectCount (q_num q)) (fst (validateQuestion MCQ q))
      = match flaggedCorrect (q_options q) with
        | 0 => [ {| message :=
                      "Question " ++ Js.ofNat (q_num q)
                      ++ ": No correct answer marked. Add '<>' to one option.";
                    line := q_line q |} ]
        | 1 => []
        | k => [ {| message :=
                      "Question " ++ Js.ofNat (q_num q)
                      ++ ": Multiple correct answers found (" ++ Js.ofNat k
                      ++ "). Only one allowed.";
                    line := q_line q |} ]
        end)
  /\ (forall q,
      filter (aboutCorrectCount (q_num q)) (fst (validateQuestion MCQ q)) = []
      <-> flaggedCorrect (q_options q) = 1)
  /\ errors (validate {| quizType := Some MCQ;
                         questions := [Samples.multiCorrect];
                         r_images := [] |})
     = [ {| message := "Question 3: Multiple correct answers found (2). Only one allowed.";
            line := 30 |} ].
Proof.
  assert (E : forall q,
            filter (aboutCorrectCount (q_num q)) (fst (validateQuestion MCQ q))
            = match flaggedCorrect (q_options q) with
              | 0 => [ {| message :=
                            "Question " ++ Js.ofNat (q_num q)
                            ++ ": No correct answer marked. Add '<>' to one option.";
                          line := q_line q |} ]
              | 1 => []
              | k => [ {| message :=
                            "Question " ++ Js.ofNat (q_num q)
                            ++ ": Multiple correct answers found ("
                            ++ Js.ofNat k ++ "). Only one allowed.";
                          line := q_line q |} ]
              end).
  { intros q. rewrite correct_errors_of_question. unfold correctAnswerErrors.
    rewrite correctCount_flags.
    destruct (flaggedCorrect (q_options q)) as [|[|k]];
      cbn [Nat.eqb Nat.ltb Nat.leb].
    - now rewrite (proj1 (correct_messages (q_num q) 0)).
    - reflexivity.
    - now rewrite (proj2 (correct_messages (q_num q) (S (S k)))). }
  split; [|split; [|split]].
  - intros q qs imgs. apply (validate_each MCQ q qs imgs).
  - exact E.
  - intros q. rewrite E.
    destruct (flaggedCorrect (q_options q)) as [|[|k]]; split;
      (discriminate || reflexivity).
  - lazy. reflexivity.
Qed.

Lemma correct_answer_count_witness :
  flaggedCorrect (q_options (Samples.mkQuestion 1 2 "<p>Pick</p>" true 3
                     [Samples.mkOption "a" true 4; Samples.mkOption "b" false 5]))
  = 1
  /\ filter (aboutCorrectCount 1)
       (fst (validateQuestion MCQ
               (Samples.mkQuestion 1 2 "<p>Pick</p>" true 3
                  [Samples.mkOption "a" true 4; Samples.mkOption "b" false 5])))
     = [].
Proof.
  assert (H : flaggedCorrect
                (q_options (Samples.mkQuestion 1 2 "<p>Pick</p>" true 3
                   [Samples.mkOption "a" true 4; Samples.mkOption "b" false 5]))
              = 1) by reflexivity.
  split; [exact H|].
  exact (proj2 (proj1 (proj2 (proj2 correct_answer_count))
                  (Samples.mkQuestion 1 2 "<p>Pick</p>" true 3
                     [Samples.mkOption "a" true 4; Samples.mkOption "b" false 5]))
           H).
Defined.

(** C8.  When [parse] returns a model, the document has a header block:
    a paragraph or list item whose trimmed text is exactly [[BEGIN#MCQ]]
    or [[BEGIN#ESSAY]] (the quiz type of the model); every block before
    it is a paragraph or list item with empty trimmed text; and no other
    block has a text that begins with [[BEGIN#].  In every other case
    [parse] raises an error. *)
Theorem header_rule (body : Body) (h : Heap) (r : ParseResult) (h' : Heap) :
  parse body h = Ok (r, h') ->
  exists b hdr qt,
    nth_error body b = Some hdr
    /\ isTextBlock hdr = true
    /\ Js.trim (rawText hdr) = headerText qt
    /\ quizType r = Some qt
    /\ (forall j e, j < b -> nth_error body j = Some e ->
          isTextBlock e = true /\ Js.trim (rawText e) = "")
    /\ (forall j e, j <> b -> nth_error body j = Some e ->
          Js.startsWith (Js.trim (rawText e)) "[BEGIN#" = false).
Proof.
  intros H.
  destruct (parse_ok_inv _ _ H) as (qt & b & st & Hf & Hl & Hr).
  destruct (findBegin_inv _ _ Hf) as (pre & hdr & rest & -> & -> & Hpre & Ht & Hx).
  exists (List.length pre), hdr, qt. simpl in *.
  split; [apply nth_error_middle|]. split; [exact Ht|].
  split; [now rewrite <- blockText_raw|].
  split; [now injection Hr as <- _|]. split.
  - intros j e Hj He. apply nth_error_before in He; [|exact Hj].
    rewrite Forall_forall in Hpre. specialize (Hpre _ He).
    unfold isBlank in Hpre. apply andb_true_iff in Hpre as [Hb He'].
    split; [exact Hb|]. rewrite <- blockText_raw. now apply isEmpty_true.
  - intros j e Hj He. rewrite <- blockText_raw.
    apply (loop_ok_no_begin _ _ _ _ Hl j He). simpl. exact Hj.
Qed.

Lemma header_rule_witness :
  exists r h',
    parse Samples.withPreamble [] = Ok (r, h')
    /\ exists b hdr qt,
         nth_error Samples.withPreamble b = Some hdr
         /\ isTextBlock hdr = true
         /\ Js.trim (rawText hdr) = headerText qt
         /\ quizType r = Some qt
         /\ (forall j e, j < b -> nth_error Samples.withPreamble j = Some e ->
               isTextBlock e = true /\ Js.trim (rawText e) = "")
         /\ (forall j e, j <> b -> nth_error Samples.withPreamble j = Some e ->
               Js.startsWith (Js.trim (rawText e)) "[BEGIN#" = false).
Proof.
  eexists. eexists. split; [lazy; reflexivity|].
  eapply (@header_rule Samples.withPreamble []). lazy. reflexivity.
Defined.

(** C9, as stated, fails: an option whose normalized choiceText is empty
    need not produce the empty-option-text warning.  Two list items of
    bold spaces have an empty choiceText and a rendered text that is not
    empty, and the validator gives no warning at all. *)
Lemma bold_spaces_no_warning :
  exists r h q,
    parse Samples.boldSpaces [] = Ok (r, h)
    /\ questions r = [q]
    /\ map hasEmptyKey (q_options q) = [true; true; false; false]
    /\ map o_text (q_options q) = ["<b>  </b>"; "<b>  </b>"; "yes"; "no"]
    /\ validate r = {| isValid := true; errors := []; warnings := [] |}.
Proof.
  do 3 eexists.
  split; [lazy; reflexivity|].
  split; [reflexivity|].
  split; [lazy; reflexivity|].
  split; lazy; reflexivity.
Qed.

(** C9, amended.  For every MCQ question, options whose normalized
    choiceText is empty are exempt from duplicate detection: the
    duplicate errors are those of the question without these options,
    and there is none when every option is of that kind.  The
    empty-option-text warning goes by the rendered text instead: the
    warnings of the question are, in the order of the options, one for
    each option whose text is empty once trimmed, naming the position of
    the option (from 1) and carrying its line; so an option produces the
    warning of its position exactly when its text is empty once
    trimmed. *)
Theorem empty_options_exempt (q : Question) :
  (forall qs imgs,
      let v := validate {| quizType := Some MCQ; questions := q :: qs;
                           r_images := imgs |} in
      errors v = flat_map (fun x => fst (validateQuestion MCQ x)) (q :: qs)
      /\ warnings v = flat_map (fun x => snd (validateQuestion MCQ x)) (q :: qs))
  /\ filter (aboutDuplicates (q_num q)) (fst (validateQuestion MCQ q))
     = duplicateErrors q (filter (fun o => negb (hasEmptyKey o)) (q_options q)) []
  /\ (Forall (fun o => hasEmptyKey o = true) (q_options q) ->
      filter (aboutDuplicates (q_num q)) (fst (validateQuestion MCQ q)) = [])
  /\ List.length (snd (validateQuestion MCQ q))
     = List.length (filter hasEmptyText (q_options q))
  /\ snd (validateQuestion MCQ q)
     = map (fun p =>
              {| message := "Question " ++ Js.ofNat (q_num q) ++ ", Option "
                            ++ Js.ofNat (fst p + 1) ++ ": Option text is empty.";
                 line := o_line (snd p) |})
         (filter (fun p => hasEmptyText (snd p)) (indexed (q_options q)))
  /\ (forall k o, nth_error (q_options q) k = Some o ->
        (In {| message := "Question " ++ Js.ofNat (q_num q) ++ ", Option "
                          ++ Js.ofNat (k + 1) ++ ": Option text is empty.";
               line := o_line o |} (snd (validateQuestion MCQ q))
         <-> Js.isEmpty (Js.trim (o_text o)) = true)).
Proof.
  assert (X : snd (validateQuestion MCQ q)
              = map (fun p =>
                       {| message := "Question " ++ Js.ofNat (q_num q)
                                     ++ ", Option " ++ Js.ofNat (fst p + 1)
                                     ++ ": Option text is empty.";
                          line := o_line (snd p) |})
                  (filter (fun p => hasEmptyText (snd p))
                     (indexed (q_options q))))
    by (cbn [validateQuestion snd]; apply emptyOptionWarnings_exact).
  split; [|split; [|split; [|split; [|split; [exact X|]]]]].
  - intros qs imgs. apply (validate_each MCQ q qs imgs).
  - rewrite duplicate_errors_of_question. apply duplicateErrors_skip_empty.
  - intros H.
    rewrite duplicate_errors_of_question, duplicateErrors_skip_empty.
    now rewrite (filter_empty_keys H).
  - cbn [validateQuestion snd]. apply emptyOptionWarnings_length.
  - intros k o Hk. rewrite X, in_map_iff. split.
    + intros ([k' o'] & E & I). apply filter_In in I as [I T].
      cbn [fst snd] in *. pose proof (f_equal message E) as E1.
      cbn [message] in E1. apply empty_option_message_inj in E1. subst k'.
      apply indexed_In in I. rewrite Hk in I. injection I as <-. exact T.
    + intros T. exists (k, o). split; [reflexivity|].
      apply filter_In. split; [now apply indexed_In|exact T].
Qed.

Lemma empty_options_exempt_witness :
  let q := Samples.mkQuestion 1 2 "<p>Pick one</p>" true 3
             [ {| o_id := "opt_0"; o_text := ""; o_choiceText := Some "";
                  o_isCorrect := true; o_line := 4 |};
               {| o_id := "opt_1"; o_text := ""; o_choiceText := Some "";
                  o_isCorrect := false; o_line := 5 |} ] in
  Forall (fun o => hasEmptyKey o = true) (q_options q)
  /\ filter (aboutDuplicates (q_num q)) (fst (validateQuestion MCQ q)) = []
  /\ In {| message := "Question 1, Option 2: Option text is empty."; line := 5 |}
       (snd (validateQuestion MCQ q)).
Proof.
  intros q.
  assert (H : Forall (fun o => hasEmptyKey o = true) (q_options q)).
  { repeat constructor. }
  split; [exact H|].
  split; [exact (proj1 (proj2 (proj2 (@empty_options_exempt q))) H)|].
  exact (proj2 (proj2 (proj2 (proj2 (proj2 (proj2 (@empty_options_exempt q)))))
                  1 _ eq_refl) eq_refl).
Defined.

(** C10.  A block that is no tag, placed after the header and before the
    first question tag, is discarded: the loop passes over the header and
    these blocks without an error and leaves its state (questions, image
    store, heap) as at the start; and putting any other blocks that are
    no tags in their place changes nothing in what [parse] returns. *)
Theorem preamble_discarded (pre : list Block) (hdr : Block)
    (mid mid' rest : list Block) (qt : QuizType) (h : Heap) :
  findBegin (pre ++ hdr :: mid ++ rest)%list 0 = Ok (qt, List.length pre) ->
  Forall (fun e => isTagBlock e = false) mid ->
  Forall (fun e => isTagBlock e = false) mid' ->
  List.length mid' = List.length mid ->
  loop qt (List.length pre) 0 (pre ++ hdr :: mid)%list (initialState h)
  = Ok (initialState h)
  /\ parse (pre ++ hdr :: mid' ++ rest)%list h
     = parse (pre ++ hdr :: mid ++ rest)%list h.
Proof.
  intros Hf Hm Hm' Hlen.
  destruct (@findBegin_ext pre hdr (mid ++ rest) (mid' ++ rest) 0 qt Hf)
    as (Hf' & Hpre & _).
  split; [now apply loop_header_prefix|].
  unfold parse. simpl in Hf'. rewrite Hf, Hf'. simpl.
  assert (E : forall m, Forall (fun e => isTagBlock e = false) m ->
            loop qt (List.length pre) 0 (pre ++ hdr :: m ++ rest)%list
              (initialState h)
            = loop qt (List.length pre) (List.length pre + S (List.length m))
                rest (initialState h)).
  { intros m Hm0.
    replace (pre ++ hdr :: m ++ rest)%list with ((pre ++ hdr :: m) ++ rest)%list
      by now rewrite <- app_assoc.
    rewrite loop_app, loop_header_prefix by auto. simpl.
    now rewrite length_app. }
  now rewrite (E mid Hm), (E mid' Hm'), Hlen.
Qed.

Lemma preamble_discarded_witness :
  findBegin Samples.withPreamble 0 = Ok (MCQ, 1)
  /\ Forall (fun e => isTagBlock e = false) Samples.preamble
  /\ Forall (fun e => isTagBlock e = false) Samples.blanks
  /\ List.length Samples.blanks = List.length Samples.preamble
  /\ parse Samples.withBlanks [] = parse Samples.withPreamble [].
Proof.
  assert (H1 : findBegin Samples.withPreamble 0 = Ok (MCQ, 1))
    by (lazy; reflexivity).
  assert (H2 : Forall (fun e => isTagBlock e = false) Samples.preamble)
    by (repeat constructor).
  assert (H3 : Forall (fun e => isTagBlock e = false) Samples.blanks)
    by (repeat constructor).
  split; [exact H1|]. split; [exact H2|]. split; [exact H3|].
  split; [reflexivity|].
  exact (proj2 (@preamble_discarded [Samples.para ""] (Samples.para "[BEGIN#MCQ]")
                  Samples.preamble Samples.blanks Samples.tail MCQ []
                  H1 H2 H3 eq_refl)).
Defined.

(* ================================================================== *)
(** * Further properties of the code *)
(* ================================================================== *)

(* ================================================================== *)
(** ** The controller's readers and the parser *)
(* ================================================================== *)

Lemma headerInfoFrom_findBegin (blocks : list Block) (i : nat) :
  headerInfoFrom blocks i =
  match findBegin blocks i with
  | Ok (qt, b) => Some (qt, b + 1)
  | Err _ => None
  end.
Proof.
  revert i; induction blocks as [|e rest IH]; intros i; simpl; [reflexivity|].
  assert (E : forall t, matchBeginTag (Js.trim t) = _parseBeginTag (Js.trim t)).
  { intros t. unfold matchBeginTag, _parseBeginTag. now rewrite trim_idem. }
  destruct e; try reflexivity;
    (destruct (Js.isEmpty (Js.trim text)); [apply IH|];
     rewrite E; destruct (_parseBeginTag (Js.trim text)); reflexivity).
Qed.

(** X1.  The controller's header reader agrees with the header scan of
    the parser: it reports the type and the 1-based line of the header
    where the scan finds it, and [null] with line 0 where the scan
    raises; on a document that parses, its type is the one of the
    model. *)
Theorem header_reader_agrees :
  (forall body,
      getQuizTypeHeader body =
      match findBegin body 0 with
      | Ok (qt, b) => (Some qt, b + 1)
      | Err _ => (None, 0)
      end)
  /\ (forall body h r h',
        parse body h = Ok (r, h') ->
        fst (getQuizTypeHeader body) = quizType r
        /\ 1 <= snd (getQuizTypeHeader body) <= List.length body)
  /\ (forall body h,
        fst (getQuizTypeHeader body) = None -> isOk (parse body h) = false).
Proof.
  assert (A : forall body,
      getQuizTypeHeader body =
      match findBegin body 0 with
      | Ok (qt, b) => (Some qt, b + 1)
      | Err _ => (None, 0)
      end).
  { intros body. unfold getQuizTypeHeader, _getQuizTypeHeaderInfo_.
    rewrite headerInfoFrom_findBegin.
    destruct (findBegin body 0) as [[qt b]|]; reflexivity. }
  split; [exact A|]. split.
  - intros body h r h' H. rewrite A.
    destruct (parse_ok_inv _ _ H) as (qt & b & st & Hf & _ & Hr).
    rewrite Hf. simpl.
    destruct (findBegin_inv _ _ Hf) as (pre & hdr & rest & -> & -> & _).
    split; [now injection Hr as <- _|].
    rewrite length_app. simpl. lia.
  - intros body h H. rewrite A in H. unfold parse.
    destruct (findBegin body 0) as [[qt b]|]; [discriminate|reflexivity].
Qed.

Lemma header_reader_agrees_witness :
  exists r h',
    parse Samples.withPreamble [] = Ok (r, h')
    /\ fst (getQuizTypeHeader Samples.withPreamble) = quizType r
    /\ 1 <= snd (getQuizTypeHeader Samples.withPreamble)
       <= List.length Samples.withPreamble.
Proof.
  eexists. eexists. split; [lazy; reflexivity|].
  eapply (proj1 (proj2 header_reader_agrees) Samples.withPreamble []).
  lazy. reflexivity.
Defined.

Lemma spanDigits_app (s : string) :
  fst (spanDigits s) ++ snd (spanDigits s) = s.
Proof.
  induction s as [|c s IH]; simpl; [reflexivity|].
  destruct (Js.isDigit c); [|reflexivity].
  destruct (spanDigits s) as [d r]. simpl in *. now rewrite IH.
Qed.

Lemma drop_app_length (a b : string) : Js.drop (String.length a) (a ++ b) = b.
Proof. induction a; simpl; auto. Qed.

Lemma drop_drop (n m : nat) (s : string) :
  Js.drop m (Js.drop n s) = Js.drop (n + m) s.
Proof.
  revert s; induction n as [|n IH]; intros s; simpl; [reflexivity|].
  destruct s; [now destruct m|apply IH].
Qed.

(** What both readers of a question tag see of a labelled tag. *)
Lemma labelled_tag_shape (t digits tail : string) :
  spanDigits (Js.drop (String.length "[QUESTION#") t)
  = (digits, String "]" tail) ->
  Js.drop (String.length "[QUESTION#" + String.length digits + 1) t = tail.
Proof.
  intros H.
  pose proof (spanDigits_app (Js.drop (String.length "[QUESTION#") t)) as E.
  rewrite H in E. simpl fst in E. simpl snd in E.
  rewrite <- Nat.add_assoc, <- drop_drop, <- E, <- drop_drop, drop_app_length.
  reflexivity.
Qed.

(** X2.  The two readers of a question tag, the parser's and the
    controller's.  What the parser takes for a tag, the controller takes
    too, and the inline text of the parser is the trimmed text after the
    tag the controller measures; what is no tag for one is no tag for
    the other; and a line the controller accepts is refused by the
    parser only when it has a labelled tag followed by a line
    terminator. *)
Theorem tag_readers_agree (text : string) (n : nat) :
  (forall tag,
      _parseQuestionTag text = Ok (Some tag) ->
      exists len,
        _getQuestionTagInfoFromTrimmed_ (Js.trim text) n = Ok (Some len)
        /\ inlineText tag = Js.trim (Js.drop len (Js.trim text)))
  /\ (_parseQuestionTag text = Ok None <->
      _getQuestionTagInfoFromTrimmed_ (Js.trim text) n = Ok None)
  /\ (forall len,
        _getQuestionTagInfoFromTrimmed_ (Js.trim text) n = Ok (Some len) ->
        isOk (_parseQuestionTag text) = false ->
        Js.startsWith (Js.trim text) "[QUESTION#" = true
        /\ Js.forallb_str (fun c => negb (Js.isLineTerminator c))
             (Js.drop len (Js.trim text)) = false).
Proof.
  unfold _parseQuestionTag, _getQuestionTagInfoFromTrimmed_.
  set (t := Js.trim text).
  destruct (Js.startsWith t "[QUESTION") eqn:E0; cbv iota beta delta [negb].
  2:{ split; [discriminate|]. split; [tauto|discriminate]. }
  destruct (Js.startsWith t "[QUESTION]") eqn:E1; cbv iota beta.
  { split; [|split; [split; discriminate|discriminate]].
    intros tag [= <-]. eexists. split; reflexivity. }
  destruct (Js.startsWith t "[QUESTION#") eqn:E2; cbv iota beta.
  2:{ split; [discriminate|]. split; [split; discriminate|discriminate]. }
  destruct (spanDigits (Js.drop (String.length "[QUESTION#") t))
    as [digits rest] eqn:S.
  destruct rest as [|c tail];
    [split; [discriminate|split; [split; discriminate|discriminate]]|].
  destruct c as [[] [] [] [] [] [] [] []]; cbv iota beta;
    try solve [split; [discriminate|split; [split; discriminate|discriminate]]].
  pose proof (labelled_tag_shape _ S) as D.
  destruct (Js.isEmpty digits); simpl;
    [split; [discriminate|split; [split; discriminate|discriminate]]|].
  destruct (Js.forallb_str _ tail) eqn:F.
  - split; [|split; [split; discriminate|discriminate]].
    intros tag [= <-]. eexists. split; [reflexivity|].
    simpl in D |- *. now rewrite D.
  - split; [discriminate|]. split; [split; discriminate|].
    intros len [= <-] _. split; [reflexivity|]. simpl in D |- *. now rewrite D.
Qed.

Lemma tag_readers_agree_witness :
  let tag := {| inlineText := "What?"; labelDigits := Some "12" |} in
  _parseQuestionTag "  [QUESTION#12]  What?  " = Ok (Some tag)
  /\ exists len,
       _getQuestionTagInfoFromTrimmed_ (Js.trim "  [QUESTION#12]  What?  ") 4
       = Ok (Some len)
       /\ inlineText tag
          = Js.trim (Js.drop len (Js.trim "  [QUESTION#12]  What?  ")).
Proof.
  intros tag. split; [lazy; reflexivity|].
  apply (proj1 (@tag_readers_agree "  [QUESTION#12]  What?  " 4)).
  lazy. reflexivity.
Defined.

(* ================================================================== *)
(** ** The sections of a parsed question: the invariant of the loop *)
(* ================================================================== *)

Lemma core_closeLists (q : Question) : core (closeLists q) = core q.
Proof.
  unfold closeLists, closeDescriptionListIfOpen, closeQuestionListIfOpen.
  break_lets; reflexivity.
Qed.

Lemma core_readQuestion (e : Block) (q : Question) (w : World) :
  core (fst (readQuestion e q w)) = core q.
Proof.
  unfold readQuestion, closeQuestionListIfOpen.
  destruct e; break_lets; reflexivity.
Qed.

Lemma core_readDescriptions (e : Block) (q : Question) (w : World) :
  core (fst (readDescriptions e q w)) = core q.
Proof.
  unfold readDescriptions, closeDescriptionListIfOpen.
  destruct e; break_lets; reflexivity.
Qed.

Lemma core_finalize (q : Question) : core (finalizeQuestion q) = core q.
Proof. reflexivity. Qed.

(** What [readOptions] does to the open question: nothing, or one more
    option read from the list item at index [i]. *)
Lemma readOptions_cases (i : nat) (e : Block) (q : Question) (w : World) :
  core (fst (readOptions i e q w)) = core q
  \/ exists text glyph kids html,
       e = LIST_ITEM text glyph kids
       /\ core (fst (readOptions i e q w))
          = (q_num q, q_id q, q_line q, q_hasOptionsTag q, q_optionsTagLine q,
             q_hasDescriptionsTag q, q_descriptionsTagLine q,
             push (q_options q)
               {| o_id := "opt_" ++ Js.ofNat (List.length (q_options q));
                  o_text := html;
                  o_choiceText := Some (choiceTextOf (Js.trim text));
                  o_isCorrect := Js.hasLeadingMarker (Js.trim text);
                  o_line := i + 1 |}).
Proof.
  destruct e; try (left; reflexivity).
  right. unfold readOptions.
  destruct (_extractHtml children w (q_id q) _) as [[html w'] c].
  exists text, glyph, children, html. split; reflexivity.
Qed.

Lemma located_core (qt : QuizType) (body : Body) (i j : nat) (q q' : Question) :
  core q' = core q -> i <= j -> located qt body i q -> located qt body j q'.
Proof.
  unfold core. intros [= _ _ El Eo Eol Ed Edl Eop] L [H1 H2 H3 H4 H5].
  constructor; rewrite ?El, ?Eo, ?Eol, ?Ed, ?Edl, ?Eop.
  - split; [tauto|lia].
  - intros H. specialize (H2 H). repeat split; try tauto; lia.
  - intros H. specialize (H3 H). repeat split; try tauto; lia.
  - intros k o H. specialize (H4 k o H). repeat split; try tauto; lia.
  - exact H5.
Qed.

Lemma stateFits_core (qt : QuizType) (s : ParserState) (q q' : Question) :
  core q' = core q -> stateFits qt s q -> stateFits qt s q'.
Proof.
  unfold core. intros [= _ _ _ Eo _ Ed _ _].
  destruct s; simpl; rewrite ?Eo, ?Ed; auto.
Qed.

Lemma parsed_next (qt : QuizType) (body : Body) (i : nat) (st : PState) :
  parsed qt body i st -> parsed qt body (S i) st.
Proof.
  intros [Hc Ho]. constructor.
  - eapply Forall_impl; [|exact Hc]. intros q.
    apply located_core; [reflexivity|lia].
  - intros q Hq. destruct (Ho q Hq) as [L F]. split; [|exact F].
    revert L. apply located_core; [reflexivity|lia].
Qed.

Lemma nth_error_push_inv {A : Type} (l : list A) (x : A) (k : nat) (o : A) :
  nth_error (push l x) k = Some o ->
  (k < List.length l /\ nth_error l k = Some o)
  \/ (k = List.length l /\ o = x).
Proof.
  unfold push. intros H.
  destruct (Nat.lt_ge_cases k (List.length l)) as [L|L].
  - rewrite nth_error_app1 in H by exact L. now left.
  - rewrite nth_error_app2 in H by exact L.
    destruct (k - List.length l) as [|d] eqn:D; simpl in H.
    + injection H as <-. right. split; [lia|reflexivity].
    + destruct d; discriminate.
Qed.

Lemma parseQuestionTag_some (t : string) (tag : QuestionTag) :
  _parseQuestionTag t = Ok (Some tag) ->
  Js.startsWith (Js.trim t) "[QUESTION" = true.
Proof.
  unfold _parseQuestionTag.
  destruct (Js.startsWith (Js.trim t) "[QUESTION"); [reflexivity|discriminate].
Qed.

Lemma parseQuestionTag_err (t msg : string) :
  _parseQuestionTag t = Err msg -> msg = msgInvalidQuestionTag (Js.trim t).
Proof.
  unfold _parseQuestionTag.
  destruct (negb _); [discriminate|].
  destruct (Js.startsWith (Js.trim t) "[QUESTION]"); [discriminate|].
  destruct (Js.startsWith (Js.trim t) "[QUESTION#"); [|congruence].
  destruct (spanDigits _) as [digits rest].
  destruct rest as [|c tail]; [congruence|].
  destruct c as [[] [] [] [] [] [] [] []]; try congruence.
  destruct (_ && _); [discriminate|congruence].
Qed.

Lemma tagAt_here (body : Body) (i : nat) (e : Block) (tag : string) :
  nth_error body i = Some e -> Js.startsWith (blockText e) tag = true ->
  tagAt body (i + 1) tag.
Proof. intros H T. exists e. now rewrite Nat.add_1_r. Qed.

(** The closed questions after a question is started. *)
Lemma closed_after_start (qt : QuizType) (body : Body) (i : nat) (st : PState) :
  parsed qt body i st ->
  Forall (located qt body (S i))
    match currentQuestion st with
    | Some q => push (st_questions st) (closeLists q)
    | None => st_questions st
    end.
Proof.
  intros P. destruct (parsed_next P) as [Hc Ho].
  destruct (currentQuestion st) as [q|]; [|exact Hc].
  unfold push. apply Forall_app. split; [exact Hc|].
  constructor; [|constructor].
  destruct (Ho q eq_refl) as [L _]. revert L.
  apply located_core; [apply core_closeLists|lia].
Qed.

(** The question just created at index [i]. *)
Lemma located_created (qt : QuizType) (body : Body) (i n : nat) (e : Block)
    (q : Question) :
  nth_error body i = Some e ->
  Js.startsWith (blockText e) "[QUESTION" = true ->
  core q = core (_createQuestionObj n (i + 1)) ->
  located qt body (S i) q.
Proof.
  intros He Ht E. apply located_core with (i := S i) (q := _createQuestionObj n (i + 1));
    [exact E|lia|].
  constructor; simpl; try discriminate.
  - split; [now apply tagAt_here with e|lia].
  - intros [|k] o H; discriminate.
  - intros [|k] k' o o' _ H; discriminate.
Qed.

(** One iteration of the loop keeps the invariant, and an error it
    raises is not the one of a second [DESCRIPTIONS] tag. *)
Lemma step_parsed (qt : QuizType) (body : Body) (bl i : nat) (e : Block)
    (st : PState) :
  nth_error body i = Some e -> parsed qt body i st ->
  match step qt bl i e st with
  | Ok st' => parsed qt body (S i) st'
  | Err msg => aboutDuplicateDescriptions msg = false
  end.
Proof.
  intros He P. unfold step.
  destruct (Js.truthy (blockText e) && Js.startsWith (blockText e) "[BEGIN#");
    [reflexivity|].
  destruct (_parseQuestionTag (blockText e)) as [[tag|]|msg] eqn:T; simpl.
  3:{ apply parseQuestionTag_err in T. now subst msg. }
  { (* a question tag *)
    apply parseQuestionTag_some in T. rewrite blockText_trim in T.
    constructor; simpl.
    - now apply closed_after_start.
    - intros q [= <-].
      destruct (Js.truthy (inlineText tag)); (split; [|split; reflexivity]);
        apply located_created with (n := List.length
          match currentQuestion st with
          | Some q => push (st_questions st) (closeLists q)
          | None => st_questions st
          end + 1) (e := e); auto. }
  destruct (Js.startsWith (blockText e) "[OPTIONS]") eqn:To.
  { (* the OPTIONS tag *)
    destruct (currentQuestion st) as [q|] eqn:Hq; [|reflexivity].
    destruct qt; [|reflexivity]. simpl.
    destruct (q_hasOptionsTag q) eqn:Ht; [reflexivity|].
    destruct (parsed_next P) as [Hc _]. destruct P as [_ Ho].
    destruct (Ho q Hq) as [[L1 L2 L3 L4 L5] F].
    assert (Hd : q_hasDescriptionsTag q = false).
    { destruct (q_hasDescriptionsTag q); [|reflexivity].
      destruct (L3 eq_refl) as (_ & _ & X). destruct (X eq_refl). congruence. }
    constructor; cbn [withQuestion st_questions currentQuestion state]; [exact Hc|].
    intros q' [= <-]. split.
    - apply located_core with (i := S i)
        (q := setOptionsTag q (i + 1)); [apply core_closeLists|lia|].
      constructor; simpl.
      + split; [tauto|lia].
      + intros _. split; [reflexivity|]. split; [now apply tagAt_here with e|lia].
      + rewrite Hd. discriminate.
      + intros k o H. destruct (L4 k o H) as (_ & _ & X & _). congruence.
      + exact L5.
    - eapply stateFits_core; [apply core_closeLists|]. simpl. auto. }
  destruct (Js.startsWith (blockText e) "[DESCRIPTIONS]") eqn:Td.
  { (* the DESCRIPTIONS tag *)
    destruct (currentQuestion st) as [q|] eqn:Hq; [|reflexivity].
    destruct (parsed_next P) as [Hc _]. destruct P as [_ Ho].
    destruct (Ho q Hq) as [[L1 L2 L3 L4 L5] F].
    destruct (isMcq qt && negb (isState (state st) READING_OPTIONS)) eqn:C1;
      [reflexivity|].
    destruct (isEssay qt && negb (isState (state st) READING_QUESTION)) eqn:C2;
      [reflexivity|].
    assert (Hd : q_hasDescriptionsTag q = false).
    { destruct qt; simpl in C1, C2; destruct (state st); simpl in *;
        try discriminate; tauto. }
    rewrite Hd.
    constructor; cbn [withQuestion st_questions currentQuestion state]; [exact Hc|].
    intros q' [= <-]. split.
    - apply located_core with (i := S i)
        (q := setDescriptionsTag q (i + 1)); [apply core_closeLists|lia|].
      constructor; simpl.
      + split; [tauto|lia].
      + intros H. specialize (L2 H). repeat split; try tauto; lia.
      + intros _. split; [now apply tagAt_here with e|]. split; [lia|].
        intros ->. simpl in C1. destruct (state st); simpl in *; try discriminate.
        destruct F as [F1 _]. split; [exact F1|].
        destruct (L2 F1) as (_ & _ & X). lia.
      + intros k o H. destruct (L4 k o H) as (X1 & X2 & X3 & X4 & _).
        repeat split; auto; lia.
      + exact L5.
    - eapply stateFits_core; [apply core_closeLists|]. reflexivity. }
  (* content *)
  destruct (currentQuestion st) as [q|] eqn:Hq.
  2:{ apply parsed_next in P. destruct P as [Hc Ho]. constructor; [exact Hc|].
      intros q H. rewrite Hq in H. discriminate. }
  destruct (parsed_next P) as [Hc _]. destruct P as [_ Ho].
  destruct (Ho q Hq) as [L F].
  destruct (state st) eqn:S.
  - destruct F.
  - pose proof (core_readQuestion e q (st_world st)) as C.
    destruct (readQuestion e q (st_world st)) as [q' w']. simpl in C.
    constructor; cbn [withQuestion st_questions currentQuestion state]; [exact Hc|]. intros x [= <-]. split.
    + revert L. apply located_core; [exact C|lia].
    + revert F. apply stateFits_core. exact C.
  - pose proof (readOptions_cases i e q (st_world st)) as C.
    destruct (readOptions i e q (st_world st)) as [q' w']. simpl in C.
    constructor; cbn [withQuestion st_questions currentQuestion state]; [exact Hc|]. intros x [= <-].
    destruct C as [C|(text & glyph & kids & html & -> & C)].
    + split; [revert L; apply located_core; [exact C|lia]|].
      revert F. apply stateFits_core. exact C.
    + unfold core in C. injection C as _ _ El Eo Eol Ed Edl Eop.
      destruct F as [F1 F2]. destruct L as [L1 L2 L3 L4 L5].
      destruct (L2 F1) as (_ & _ & X).
      split; [|unfold stateFits; rewrite Eo, Ed; auto].
      constructor; rewrite ?El, ?Eo, ?Eol, ?Ed, ?Edl, ?Eop.
      * split; [tauto|lia].
      * intros H. specialize (L2 H). repeat split; try tauto; lia.
      * rewrite F2. discriminate.
      * intros k o H. apply nth_error_push_inv in H as [[_ H]|[-> ->]].
        { destruct (L4 k o H) as (X1 & X2 & X3 & X4 & X5).
          repeat split; auto; lia. }
        simpl. split; [reflexivity|]. split.
        { exists text, glyph, kids. simpl. rewrite Nat.add_1_r. simpl. auto. }
        split; [exact F1|]. split; [lia|]. rewrite F2. discriminate.
      * intros k k' o o' Hk H H'.
        apply nth_error_push_inv in H as [[Lk H]|[-> ->]];
          apply nth_error_push_inv in H' as [[Lk' H']|[-> ->]]; try lia.
        { exact (L5 k k' o o' Hk H H'). }
        simpl. destruct (L4 k o H) as (_ & _ & _ & Y & _). lia.
  - pose proof (core_readDescriptions e q (st_world st)) as C.
    destruct (readDescriptions e q (st_world st)) as [q' w']. simpl in C.
    constructor; cbn [withQuestion st_questions currentQuestion state]; [exact Hc|]. intros x [= <-]. split.
    + revert L. apply located_core; [exact C|lia].
    + revert F. apply stateFits_core. exact C.
Qed.

Lemma loop_parsed (qt : QuizType) (body : Body) (b : nat)
    (pre blocks : list Block) (st : PState) :
  body = (pre ++ blocks)%list ->
  parsed qt body (List.length pre) st ->
  match loop qt b (List.length pre) blocks st with
  | Ok st' => parsed qt body (List.length body) st'
  | Err msg => aboutDuplicateDescriptions msg = false
  end.
Proof.
  revert pre st; induction blocks as [|e blocks IH]; intros pre st E P; simpl.
  - rewrite app_nil_r in E. now subst body.
  - assert (E' : body = ((pre ++ [e]) ++ blocks)%list)
      by now rewrite <- app_assoc.
    assert (L : List.length (pre ++ [e]) = S (List.length pre))
      by (rewrite length_app; simpl; lia).
    assert (He : nth_error body (List.length pre) = Some e)
      by (subst body; apply nth_error_middle).
    specialize (IH (pre ++ [e])%list). rewrite L in IH.
    destruct (List.length pre =? b).
    + apply IH; [exact E'|]. now apply parsed_next.
    + pose proof (step_parsed (b + 1) He P) as S.
      destruct (step qt (b + 1) (List.length pre) e st) as [st'|msg]; simpl;
        [|exact S].
      now apply IH.
Qed.

Lemma initial_parsed (qt : QuizType) (body : Body) (h : Heap) :
  parsed qt body 0 (initialState h).
Proof. constructor; simpl; [constructor|discriminate]. Qed.

(** Every question of a parsed model has its sections located in the
    document. *)
Lemma parse_located (body : Body) (h : Heap) (r : ParseResult) (h' : Heap) :
  parse body h = Ok (r, h') ->
  exists qt, quizType r = Some qt
             /\ Forall (located qt body (List.length body)) (questions r).
Proof.
  intros H. destruct (parse_ok_inv _ _ H) as (qt & b & st & _ & Hl & Hf).
  exists qt.
  pose proof (@loop_parsed qt body b [] body (initialState h) eq_refl
                (initial_parsed qt body h)) as P.
  simpl in P. rewrite Hl in P.
  unfold finish in Hf. injection Hf as <- _. simpl. split; [reflexivity|].
  rewrite Forall_map.
  assert (Q : Forall (located qt body (List.length body))
                match currentQuestion st with
                | Some q => push (st_questions st) (closeLists q)
                | None => st_questions st
                end).
  { destruct P as [Hc Ho]. destruct (currentQuestion st) as [q|]; [|exact Hc].
    unfold push. apply Forall_app. split; [exact Hc|].
    constructor; [|constructor]. destruct (Ho q eq_refl) as [L _].
    revert L. apply located_core; [apply core_closeLists|lia]. }
  eapply Forall_impl; [|exact Q]. intros q.
  apply located_core; [apply core_finalize|lia].
Qed.

(** X3.  In a parsed model the lines of the diagnostics point into the
    document: the line of a question is the 1-based index of a block
    whose trimmed text starts with [[QUESTION]; an option comes from the
    list item at its line, is correct exactly when the trimmed text of
    that item starts with the marker, and carries the choiceText computed
    from that text; the ids of the options of a question are [opt_0],
    [opt_1], ... in order, and their lines increase. *)
Theorem lines_point_at_blocks (body : Body) (h : Heap) (r : ParseResult)
    (h' : Heap) (q : Question) :
  parse body h = Ok (r, h') -> In q (questions r) ->
  tagAt body (q_line q) "[QUESTION"
  /\ forall k o, nth_error (q_options q) k = Some o ->
       o_id o = "opt_" ++ Js.ofNat k
       /\ optionAt body o
       /\ forall k' o', k < k' -> nth_error (q_options q) k' = Some o' ->
            o_line o < o_line o'.
Proof.
  intros H Hq. destruct (parse_located _ _ H) as (qt & _ & F).
  rewrite Forall_forall in F. destruct (F q Hq) as [[L1 _] _ _ L4 L5].
  split; [exact L1|]. intros k o Ho.
  destruct (L4 k o Ho) as (X1 & X2 & _). repeat split; auto.
  intros k' o' Hk Ho'. exact (L5 k k' o o' Hk Ho Ho').
Qed.

Lemma lines_point_at_blocks_witness :
  exists r h' q,
    parse Samples.capital [] = Ok (r, h') /\ In q (questions r)
    /\ tagAt Samples.capital (q_line q) "[QUESTION"
    /\ forall k o, nth_error (q_options q) k = Some o ->
         o_id o = "opt_" ++ Js.ofNat k
         /\ optionAt Samples.capital o
         /\ forall k' o', k < k' -> nth_error (q_options q) k' = Some o' ->
              o_line o < o_line o'.
Proof.
  do 3 eexists.
  split; [lazy; reflexivity|]. split; [left; reflexivity|].
  eapply (@lines_point_at_blocks Samples.capital []);
    [lazy; reflexivity|left; reflexivity].
Defined.

(** X4.  The order of the sections of a parsed question.  The OPTIONS
    tag occurs only in an MCQ model, at a block after the question tag
    whose text starts with [[OPTIONS]]; every option lies after it; the
    DESCRIPTIONS tag lies after the question tag, at a block whose text
    starts with [[DESCRIPTIONS]], and in an MCQ model after the OPTIONS
    tag and after every option. *)
Theorem sections_in_order (body : Body) (h : Heap) (r : ParseResult)
    (h' : Heap) (q : Question) :
  parse body h = Ok (r, h') -> In q (questions r) ->
  (q_hasOptionsTag q = true ->
     quizType r = Some MCQ
     /\ tagAt body (q_optionsTagLine q) "[OPTIONS]"
     /\ q_line q < q_optionsTagLine q)
  /\ (forall o, In o (q_options q) ->
        q_hasOptionsTag q = true /\ q_optionsTagLine q < o_line o
        /\ (q_hasDescriptionsTag q = true -> o_line o < q_descriptionsTagLine q))
  /\ (q_hasDescriptionsTag q = true ->
        tagAt body (q_descriptionsTagLine q) "[DESCRIPTIONS]"
        /\ q_line q < q_descriptionsTagLine q
        /\ (quizType r = Some MCQ ->
            q_hasOptionsTag q = true
            /\ q_optionsTagLine q < q_descriptionsTagLine q)).
Proof.
  intros H Hq. destruct (parse_located _ _ H) as (qt & Eq & F).
  rewrite Forall_forall in F. destruct (F q Hq) as [_ L2 L3 L4 _].
  split; [|split].
  - intros Ht. destruct (L2 Ht) as (-> & X & Y). repeat split; auto; lia.
  - intros o Ho. apply In_nth_error in Ho as [k Ho].
    destruct (L4 k o Ho) as (_ & _ & X & Y & Z). repeat split; auto; lia.
  - intros Hd. destruct (L3 Hd) as (X & Y & Z).
    split; [exact X|]. split; [lia|].
    intros E. rewrite Eq in E. injection E as ->. now apply Z.
Qed.

Lemma sections_in_order_witness :
  exists r h' q,
    parse Samples.capital [] = Ok (r, h') /\ In q (questions r)
    /\ q_hasOptionsTag q = true
    /\ quizType r = Some MCQ
    /\ tagAt Samples.capital (q_optionsTagLine q) "[OPTIONS]"
    /\ q_line q < q_optionsTagLine q.
Proof.
  do 3 eexists.
  split; [lazy; reflexivity|]. split; [left; reflexivity|].
  split; [reflexivity|].
  eapply (proj1 (@sections_in_order Samples.capital [] _ _ _ _ _)).
  reflexivity.
  Unshelve. all: try (lazy; reflexivity). left; reflexivity.
Defined.

(** X5.  An ESSAY model that comes from the parser has no OPTIONS tag
    and no option in any question, so the validator's ESSAY rule never
    fires on it: the only errors a parsed ESSAY question can get are
    those of an empty content. *)
Theorem parsed_essay_has_no_options (body : Body) (h : Heap) (r : ParseResult)
    (h' : Heap) (q : Question) :
  parse body h = Ok (r, h') -> quizType r = Some ESSAY -> In q (questions r) ->
  q_hasOptionsTag q = false /\ q_options q = []
  /\ validateQuestion ESSAY q = (contentErrors q, []).
Proof.
  intros H Ht Hq. destruct (parse_located _ _ H) as (qt & Eq & F).
  rewrite Ht in Eq. injection Eq as <-.
  rewrite Forall_forall in F. destruct (F q Hq) as [_ L2 _ L4 _].
  assert (A : q_hasOptionsTag q = false).
  { destruct (q_hasOptionsTag q); [|reflexivity].
    destruct (L2 eq_refl) as [X _]. discriminate. }
  assert (B : q_options q = []).
  { destruct (q_options q) as [|o opts]; [reflexivity|].
    destruct (L4 0 o eq_refl) as (_ & _ & X & _). congruence. }
  split; [exact A|]. split; [exact B|].
  simpl. unfold essayErrors. rewrite A, B. simpl. now rewrite List.app_nil_r.
Qed.

Lemma parsed_essay_has_no_options_witness :
  exists r h' q,
    parse Samples.withImage [] = Ok (r, h')
    /\ quizType r = Some ESSAY /\ In q (questions r)
    /\ q_hasOptionsTag q = false /\ q_options q = []
    /\ validateQuestion ESSAY q = (contentErrors q, []).
Proof.
  do 3 eexists.
  split; [lazy; reflexivity|]. split; [reflexivity|].
  split; [left; reflexivity|].
  eapply (@parsed_essay_has_no_options Samples.withImage []);
    [lazy; reflexivity|reflexivity|left; reflexivity].
Defined.

Lemma findBegin_error (blocks : list Block) (i : nat) (msg : string) :
  findBegin blocks i = Err msg -> aboutDuplicateDescriptions msg = false.
Proof.
  revert i; induction blocks as [|e rest IH]; intros i; simpl.
  - now intros [= <-].
  - destruct e; try (now intros [= <-]);
      (destruct (Js.isEmpty (Js.trim text)); [apply IH|];
       destruct (_parseBeginTag (Js.trim text)); [discriminate|];
       now intros [= <-]).
Qed.

(** X6.  The error "Duplicate [DESCRIPTIONS] tag ..." is never raised:
    whatever the document, an error of [parse] is another one (a second
    DESCRIPTIONS tag of a question is refused as misplaced). *)
Theorem duplicate_descriptions_unreachable :
  (forall num i, aboutDuplicateDescriptions (msgDuplicateDescriptions num i) = true)
  /\ (forall body h msg,
        parse body h = Err msg -> aboutDuplicateDescriptions msg = false).
Proof.
  split; [reflexivity|].
  intros body h msg. unfold parse.
  destruct (findBegin body 0) as [[qt b]|m] eqn:F; simpl.
  2:{ intros [= <-]. now apply findBegin_error in F. }
  pose proof (@loop_parsed qt body b [] body (initialState h) eq_refl
                (initial_parsed qt body h)) as P.
  simpl in P.
  destruct (loop qt b 0 body (initialState h)) as [st|m]; simpl;
    [discriminate|]. now intros [= <-].
Qed.

Lemma duplicate_descriptions_unreachable_witness :
  let body := [ Samples.para "[BEGIN#ESSAY]"; Samples.para "[QUESTION#1] Why?";
                Samples.para "[DESCRIPTIONS]"; Samples.para "[DESCRIPTIONS]" ] in
  parse body [] = Err (msgDescriptionsEssay 3)
  /\ aboutDuplicateDescriptions (msgDescriptionsEssay 3) = false.
Proof.
  intros body.
  assert (H : parse body [] = Err (msgDescriptionsEssay 3)) by (lazy; reflexivity).
  split; [exact H|].
  exact (proj2 duplicate_descriptions_unreachable body [] _ H).
Defined.

Lemma parseQuestionTag_none_inv (t : string) :
  _parseQuestionTag t = Ok None ->
  Js.startsWith (Js.trim t) "[QUESTION" = false.
Proof.
  unfold _parseQuestionTag.
  destruct (Js.startsWith (Js.trim t) "[QUESTION"); [|reflexivity]. simpl.
  destruct (Js.startsWith (Js.trim t) "[QUESTION]"); [discriminate|].
  destruct (Js.startsWith (Js.trim t) "[QUESTION#"); [|discriminate].
  destruct (spanDigits _) as [digits rest].
  destruct rest as [|c tail]; [discriminate|].
  destruct c as [[] [] [] [] [] [] [] []]; try discriminate.
  destruct (_ && _); discriminate.
Qed.

(** A line the parser takes for a question tag is accepted by the
    controller. *)
Lemma controller_accepts (t : string) (tag : QuestionTag) (n : nat) :
  _parseQuestionTag t = Ok (Some tag) ->
  isOk (_getQuestionTagInfoFromTrimmed_ (Js.trim t) n) = true.
Proof.
  unfold _parseQuestionTag, _getQuestionTagInfoFromTrimmed_.
  destruct (negb _); [discriminate|].
  destruct (Js.startsWith (Js.trim t) "[QUESTION]"); [reflexivity|].
  destruct (Js.startsWith (Js.trim t) "[QUESTION#"); [|discriminate].
  destruct (spanDigits _) as [digits rest].
  destruct rest as [|c tail]; [discriminate|].
  destruct c as [[] [] [] [] [] [] [] []]; try discriminate.
  destruct (negb (Js.isEmpty digits)); [reflexivity|discriminate].
Qed.

Lemma step_started (qt : QuizType) (bl i : nat) (e : Block) (st st' : PState) :
  step qt bl i e st = Ok st' ->
  (Js.startsWith (blockText e) "[QUESTION" = true
   /\ startedQuestions st' = startedQuestions st + 1
   /\ isOk (_getQuestionTagInfoFromTrimmed_ (blockText e) (i + 1)) = true)
  \/ (Js.startsWith (blockText e) "[QUESTION" = false
      /\ startedQuestions st' = startedQuestions st).
Proof.
  unfold step. intros H.
  destruct (Js.truthy (blockText e) && Js.startsWith (blockText e) "[BEGIN#");
    [discriminate|].
  apply bind_ok in H as ([tag|] & T & H).
  - left. injection H as <-.
    pose proof (parseQuestionTag_some _ T) as S.
    pose proof (controller_accepts _ (i + 1) T) as C.
    rewrite blockText_trim in S, C. repeat split; auto.
    unfold startedQuestions, startQuestion. simpl.
    destruct (currentQuestion st); unfold push; rewrite ?length_app; simpl; lia.
  - right. apply parseQuestionTag_none_inv in T. rewrite blockText_trim in T.
    split; [exact T|]. unfold startedQuestions.
    destruct (Js.startsWith (blockText e) "[OPTIONS]").
    { destruct (currentQuestion st) as [q|] eqn:Hq; [|discriminate].
      destruct (isEssay qt); [discriminate|].
      destruct (q_hasOptionsTag q); [discriminate|]. now injection H as <-. }
    destruct (Js.startsWith (blockText e) "[DESCRIPTIONS]").
    { destruct (currentQuestion st) as [q|] eqn:Hq; [|discriminate].
      destruct (_ && _); [discriminate|]. destruct (_ && _); [discriminate|].
      destruct (q_hasDescriptionsTag q); [discriminate|]. now injection H as <-. }
    destruct (currentQuestion st) as [q|] eqn:Hq.
    2:{ injection H as <-. now rewrite Hq. }
    destruct (state st).
    + injection H as <-. now rewrite Hq.
    + destruct (readQuestion e q (st_world st)). now injection H as <-.
    + destruct (readOptions i e q (st_world st)). now injection H as <-.
    + destruct (readDescriptions e q (st_world st)). now injection H as <-.
Qed.

Lemma loop_started (qt : QuizType) (b : nat) (blocks : list Block) (i : nat)
    (st st' : PState) :
  loop qt b i blocks st = Ok st' ->
  (forall k e, nth_error blocks k = Some e -> i + k = b ->
     Js.startsWith (blockText e) "[QUESTION" = false) ->
  countQuestionTags blocks i (startedQuestions st) = Ok (startedQuestions st').
Proof.
  revert i st; induction blocks as [|e blocks IH]; intros i st H Hb; simpl in *.
  - now injection H as <-.
  - assert (Hb' : forall k x, nth_error blocks k = Some x -> S i + k = b ->
              Js.startsWith (blockText x) "[QUESTION" = false).
    { intros k x Hk E. apply (Hb (S k) x Hk). lia. }
    assert (Skip : Js.startsWith (blockText e) "[QUESTION" = false ->
              forall c,
              countQuestionTags (e :: blocks) i c
              = countQuestionTags blocks (S i) c).
    { intros T c.
      destruct e; cbn [blockText countQuestionTags] in *; try reflexivity;
        now rewrite T. }
    change (countQuestionTags (e :: blocks) i (startedQuestions st)
            = Ok (startedQuestions st')).
    destruct (Nat.eqb_spec i b) as [->|Ne].
    + rewrite Skip; [now apply IH|]. apply (Hb 0 e eq_refl). lia.
    + apply bind_ok in H as (st1 & Hs & H).
      destruct (step_started _ _ _ _ _ Hs) as [(T & E & C)|(T & E)].
      * specialize (IH _ _ H Hb'). rewrite E in IH.
        destruct e; cbn [blockText countQuestionTags] in *;
          try (cbv in T; discriminate);
          rewrite T; cbn [negb];
          destruct (_getQuestionTagInfoFromTrimmed_ (Js.trim text) (i + 1));
          try discriminate; exact IH.
      * rewrite Skip by exact T. rewrite <- E. now apply IH.
Qed.

(** X7.  On a document that parses, the next label the controller
    proposes is the number of questions of the model plus one: the
    controller counts the question tags, and the parser made one question
    of each. *)
Theorem next_label_counts_questions (body : Body) (h : Heap) (r : ParseResult)
    (h' : Heap) :
  parse body h = Ok (r, h') ->
  _getNextQuestionLabelNumber_ body = Ok (List.length (questions r) + 1).
Proof.
  intros H. destruct (parse_ok_inv _ _ H) as (qt & b & st & Hf & Hl & Hr).
  destruct (findBegin_inv _ _ Hf) as (pre & hdr & rest & E & Eb & _ & _ & Hx).
  assert (C : countQuestionTags body 0 (startedQuestions (initialState h))
              = Ok (startedQuestions st)).
  { apply loop_started with qt b; [exact Hl|].
    intros k e Hk Ek. simpl in Ek, Eb. subst k b body.
    rewrite nth_error_middle in Hk. injection Hk as <-.
    rewrite Hx. now destruct qt. }
  change (startedQuestions (initialState h)) with 0 in C.
  unfold _getNextQuestionLabelNumber_. rewrite C. simpl.
  unfold finish in Hr. injection Hr as <- _. simpl. rewrite length_map.
  unfold startedQuestions.
  destruct (currentQuestion st); unfold push; rewrite ?length_app; simpl;
    repeat f_equal; lia.
Qed.

Lemma next_label_counts_questions_witness :
  exists r h',
    parse Samples.relabelled [] = Ok (r, h')
    /\ _getNextQuestionLabelNumber_ Samples.relabelled
       = Ok (List.length (questions r) + 1).
Proof.
  do 2 eexists. split; [lazy; reflexivity|].
  eapply (@next_label_counts_questions Samples.relabelled []).
  lazy. reflexivity.
Defined.

(* ================================================================== *)
(** ** The validator: what a valid model is *)
(* ================================================================== *)

Lemma flat_map_nil {A B : Type} (f : A -> list B) (l : list A) :
  flat_map f l = [] <-> forall x, In x l -> f x = [].
Proof.
  induction l as [|a l IH]; simpl; [tauto|].
  split.
  - intros H x [<-|Hx]; apply app_eq_nil in H as [H1 H2]; [exact H1|].
    now apply IH.
  - intros H. rewrite (H a (or_introl eq_refl)).
    apply IH. intros x Hx. apply H. now right.
Qed.

Lemma mcq_question_valid (q : Question) :
  fst (validateQuestion MCQ q) = [] <->
  Js.isEmpty (Js.trim (q_content q)) = false
  /\ q_hasOptionsTag q = true
  /\ 2 <= List.length (q_options q)
  /\ flaggedCorrect (q_options q) = 1
  /\ duplicateErrors q (q_options q) [] = [].
Proof.
  rewrite <- correctCount_flags.
  cbn [validateQuestion fst].
  unfold contentErrors, missingOptionsErrors, optionCountErrors,
    correctAnswerErrors.
  destruct (Js.isEmpty (Js.trim (q_content q)));
    [split; [discriminate|intros [X _]; discriminate]|].
  destruct (q_hasOptionsTag q);
    [|split; [discriminate|intros (_ & X & _); discriminate]].
  cbn [negb app].
  destruct (Nat.ltb_spec (List.length (q_options q)) 2);
    [split; [discriminate|intros (_ & _ & X & _); lia]|].
  cbn [app].
  destruct (Nat.eqb_spec (correctCount q) 0);
    [split; [discriminate|intros (_ & _ & _ & X & _); lia]|].
  destruct (Nat.ltb_spec 1 (correctCount q));
    [split; [discriminate|intros (_ & _ & _ & X & _); lia]|].
  cbn [app]. split.
  - intros E. repeat split; auto; lia.
  - intros (_ & _ & _ & _ & E). exact E.
Qed.

Lemma essay_question_valid (q : Question) :
  fst (validateQuestion ESSAY q) = [] <->
  Js.isEmpty (Js.trim (q_content q)) = false
  /\ q_hasOptionsTag q = false /\ q_options q = [].
Proof.
  cbn [validateQuestion fst]. unfold contentErrors, essayErrors.
  destruct (Js.isEmpty (Js.trim (q_content q)));
    [split; [discriminate|intros [X _]; discriminate]|].
  destruct (q_hasOptionsTag q); cbn [orb app];
    [split; [discriminate|intros (_ & X & _); discriminate]|].
  destruct (q_options q); cbn [List.length Nat.ltb Nat.leb];
    [tauto|split; [discriminate|intros (_ & _ & X); discriminate]].
Qed.

Lemma isValid_iff (qt : QuizType) (qs : list Question) (imgs : ImageStore) :
  isValid (validate {| quizType := Some qt; questions := qs; r_images := imgs |})
  = true
  <-> qs <> [] /\ forall q, In q qs -> fst (validateQuestion qt q) = [].
Proof.
  destruct qs as [|q qs].
  - simpl. split; [discriminate|]. intros [X _]. now contradiction X.
  - pose proof (validate_each qt q qs imgs) as [E _].
    unfold validate in *. cbn [quizType questions errors isValid] in *.
    rewrite E, Nat.eqb_eq, length_zero_iff_nil, flat_map_nil.
    split; [intros H; split; [discriminate|exact H]|tauto].
Qed.

(** The duplicate check as the comparison of the normalized texts. *)
Lemma laterOccurrences_nil (q : Question) (opts earlier : list QuizOption) :
  laterOccurrences q earlier opts = [] <->
  NoDup (nonEmptyKeys opts)
  /\ forall k, In k (nonEmptyKeys opts) ->
       ~ In k (map _normalizeOptionLine_ earlier).
Proof.
  revert earlier; induction opts as [|o opts IH]; intros earlier.
  - simpl. split; [intros _; split; [constructor|intros k []]|reflexivity].
  - cbn [laterOccurrences]. unfold nonEmptyKeys. cbn [map filter].
    fold (nonEmptyKeys opts).
    set (key := _normalizeOptionLine_ o).
    assert (X : forall k, existsb (fun o' => String.eqb (_normalizeOptionLine_ o') k) earlier = true
                <-> In k (map _normalizeOptionLine_ earlier)).
    { intros k. rewrite existsb_exists, in_map_iff.
      split; intros (x & H1 & H2); exists x.
      - apply String.eqb_eq in H2. auto.
      - split; [exact H2|]. now apply String.eqb_eq. }
    assert (P : map _normalizeOptionLine_ (push earlier o)
                = (map _normalizeOptionLine_ earlier ++ [key])%list)
      by (unfold push; now rewrite map_app).
    destruct (Js.isEmpty key) eqn:E; cbn [negb andb].
    + rewrite IH, P. split; intros [N D]; (split; [exact N|]); intros k Hk.
      * intros I. apply (D k Hk). apply in_or_app. now left.
      * intros I. apply in_app_or in I as [I|[<-|[]]]; [now apply (D k Hk)|].
        unfold nonEmptyKeys in Hk. apply filter_In in Hk as [_ Hk].
        rewrite E in Hk. discriminate.
    + destruct (existsb _ earlier) eqn:B.
      * split; [discriminate|]. intros [_ D]. exfalso.
        apply (D key); [now left|]. now apply X.
      * rewrite IH, P. split.
        -- intros [N D]. split.
           ++ constructor; [|exact N]. intros I. apply (D key I).
              apply in_or_app. right. now left.
           ++ intros k [<-|Hk].
              ** intros I. apply X in I. congruence.
              ** intros I. apply (D k Hk). apply in_or_app. now left.
        -- intros [N D]. inversion N as [|? ? N1 N2]; subst. split; [exact N2|].
           intros k Hk I. apply in_app_or in I as [I|[<-|[]]].
           ++ apply (D k); [now right|exact I].
           ++ now apply N1.
Qed.

(** X8.  What a valid model is.  An MCQ model is valid exactly when it
    has a question and every question has a non-empty content, the
    OPTIONS tag, at least two options, exactly one option marked correct
    and no duplicate error; where no option reads [__proto__], the last
    means that the non-empty normalized texts of the options are
    pairwise distinct.  An ESSAY model is valid exactly when it has a
    question and every question has a non-empty content, no OPTIONS tag
    and no option. *)
Theorem valid_models :
  (forall qs imgs,
      isValid (validate {| quizType := Some MCQ; questions := qs;
                           r_images := imgs |}) = true
      <-> qs <> []
          /\ forall q, In q qs ->
               Js.isEmpty (Js.trim (q_content q)) = false
               /\ q_hasOptionsTag q = true
               /\ 2 <= List.length (q_options q)
               /\ flaggedCorrect (q_options q) = 1
               /\ duplicateErrors q (q_options q) [] = [])
  /\ (forall q,
        Forall (fun o => _normalizeOptionLine_ o <> "__proto__") (q_options q) ->
        (duplicateErrors q (q_options q) [] = []
         <-> NoDup (nonEmptyKeys (q_options q))))
  /\ (forall qs imgs,
        isValid (validate {| quizType := Some ESSAY; questions := qs;
                             r_images := imgs |}) = true
        <-> qs <> []
            /\ forall q, In q qs ->
                 Js.isEmpty (Js.trim (q_content q)) = false
                 /\ q_hasOptionsTag q = false /\ q_options q = []).
Proof.
  split; [|split].
  - intros qs imgs. rewrite isValid_iff.
    split; intros [N H]; (split; [exact N|]); intros q Hq;
      apply mcq_question_valid; auto.
  - intros q H.
    rewrite (@duplicateErrors_refines q (q_options q) [] [] H)
      by (intros k _; reflexivity).
    rewrite laterOccurrences_nil. split; [tauto|]. intros N. split; [exact N|].
    intros k _ [].
  - intros qs imgs. rewrite isValid_iff.
    split; intros [N H]; (split; [exact N|]); intros q Hq;
      apply essay_question_valid; auto.
Qed.

Lemma valid_models_witness :
  Forall (fun o => _normalizeOptionLine_ o <> "__proto__")
    (q_options Samples.multiCorrect)
  /\ (duplicateErrors Samples.multiCorrect (q_options Samples.multiCorrect) [] = []
      <-> NoDup (nonEmptyKeys (q_options Samples.multiCorrect))).
Proof.
  assert (H : Forall (fun o => _normalizeOptionLine_ o <> "__proto__")
                (q_options Samples.multiCorrect)).
  { repeat constructor; lazy; discriminate. }
  split; [exact H|].
  exact (proj1 (proj2 valid_models) Samples.multiCorrect H).
Defined.

(* ================================================================== *)
(** ** The renderer: escaping, symbols and the marker *)
(* ================================================================== *)

Lemma prefix_nil (s : string) : String.prefix "" s = true.
Proof. now destruct s. Qed.

Lemma prefix_cons (a b : ascii) (p s : string) :
  String.prefix (String a p) (String b s) = Ascii.eqb a b && String.prefix p s.
Proof.
  cbn [String.prefix].
  destruct (ascii_dec a b) as [->|N].
  - now rewrite Ascii.eqb_refl.
  - destruct (Ascii.eqb_spec a b); [congruence|reflexivity].
Qed.

Lemma replaceAll_char (c : ascii) (rep s : string) :
  Js.replaceAll (String c "") rep s
  = mapChars (fun x => if Ascii.eqb x c then rep else String x "") s.
Proof.
  unfold Js.replaceAll. induction s as [|a s IH]; simpl; [reflexivity|].
  rewrite prefix_nil, IH.
  destruct (ascii_dec c a) as [->|N].
  - now rewrite Ascii.eqb_refl.
  - destruct (Ascii.eqb_spec a c); [congruence|reflexivity].
Qed.

Lemma mapChars_app (f : ascii -> string) (a b : string) :
  mapChars f (a ++ b) = mapChars f a ++ mapChars f b.
Proof.
  induction a as [|c a IH]; simpl; [reflexivity|].
  now rewrite IH, append_assoc.
Qed.

Lemma mapChars_mapChars (f g : ascii -> string) (s : string) :
  mapChars f (mapChars g s) = mapChars (fun c => mapChars f (g c)) s.
Proof.
  induction s as [|c s IH]; simpl; [reflexivity|].
  now rewrite mapChars_app, IH.
Qed.

Lemma mapChars_ext (f g : ascii -> string) (s : string) :
  (forall c, f c = g c) -> mapChars f s = mapChars g s.
Proof. intros H. induction s as [|c s IH]; simpl; [reflexivity|]. now rewrite H, IH. Qed.

(** The five replacements in a row are one pass over the characters. *)
Lemma escape_passes (text : string) :
  Js.replaceAll "'" "&#039;"
    (Js.replaceAll Js.dq "&quot;"
      (Js.replaceAll ">" "&gt;"
        (Js.replaceAll "<" "&lt;"
          (Js.replaceAll "&" "&amp;" text))))
  = mapChars escapeChar text.
Proof.
  unfold Js.dq. rewrite !replaceAll_char, !mapChars_mapChars.
  apply mapChars_ext. intros c.
  destruct c as [[] [] [] [] [] [] [] []]; reflexivity.
Qed.

Lemma forallb_str_app (p : ascii -> bool) (a b : string) :
  Js.forallb_str p (a ++ b) = Js.forallb_str p a && Js.forallb_str p b.
Proof.
  induction a as [|c a IH]; simpl; [reflexivity|].
  now rewrite IH, andb_assoc.
Qed.

(** X9.  Escaping is one pass over the characters of the text, each
    replaced by its entity or kept; the result holds no angle bracket
    and no quote, whatever the text; and the escaping of an attribute
    value is the same function. *)
Theorem escaping_leaves_no_markup (text : string) :
  _escapeHtml text = mapChars escapeChar text
  /\ Js.forallb_str (fun c => negb (isMarkupChar c)) (_escapeHtml text) = true
  /\ _escapeHtmlAttr text = _escapeHtml text.
Proof.
  assert (A : _escapeHtml text = mapChars escapeChar text).
  { unfold _escapeHtml. destruct text; [reflexivity|].
    cbn [Js.isEmpty]. apply escape_passes. }
  assert (B : _escapeHtmlAttr text = mapChars escapeChar text)
    by apply escape_passes.
  split; [exact A|]. split; [|now rewrite A, B].
  rewrite A. induction text as [|c s IH]; simpl; [reflexivity|].
  rewrite forallb_str_app.
  assert (IH' : Js.forallb_str (fun c => negb (isMarkupChar c))
                  (mapChars escapeChar s) = true).
  { apply IH.
    - unfold _escapeHtml. destruct s; [reflexivity|]. apply escape_passes.
    - apply escape_passes. }
  rewrite IH', andb_true_r.
  destruct c as [[] [] [] [] [] [] [] []]; reflexivity.
Qed.

Lemma strip_no_backslash (s : string) :
  Js.startsWith (Js.stripLeadingBackslashes s) "\" = false.
Proof.
  induction s as [|c s IH]; cbn [Js.stripLeadingBackslashes]; [reflexivity|].
  destruct (Ascii.eqb_spec c "\") as [->|N]; [exact IH|].
  unfold Js.startsWith. rewrite prefix_cons.
  destruct (Ascii.eqb_spec "\" c); [congruence|reflexivity].
Qed.

Lemma two_backslashes (s : string) :
  Js.startsWith s "\" = false -> Js.startsWith s "\\" = false.
Proof.
  unfold Js.startsWith. destruct s as [|c s]; [reflexivity|].
  rewrite !prefix_cons, prefix_nil, andb_true_r. now intros ->.
Qed.

Lemma backslash_then (s : string) :
  Js.startsWith s "\" = false -> Js.startsWith ("\" ++ s) "\\" = false.
Proof.
  unfold Js.startsWith. intros H. cbn [append]. rewrite prefix_cons, H.
  apply andb_false_r.
Qed.

(** X10.  The LaTeX of an equation symbol starts with at most one
    backslash, however many the code of the symbol carries. *)
Theorem symbol_has_one_backslash (code : string) :
  Js.startsWith (_latexForEquationSymbolCode code) "\\" = false.
Proof.
  unfold _latexForEquationSymbolCode.
  pose proof (strip_no_backslash (Js.trim code)) as H.
  set (trimmed := Js.stripLeadingBackslashes (Js.trim code)) in *.
  repeat match goal with
         | |- context [if ?c then _ else _] => destruct c
         end; try reflexivity; try (now apply two_backslashes).
  now apply backslash_then.
Qed.

(** Once the marker has been looked for, the context no longer matters
    to the chunks. *)
Lemma styledChunks_stripped (text : string) (runs : list (nat * Attributes))
    (c : Context) :
  _markerStripped c = true ->
  styledChunks text runs (Some c)
  = (fst (styledChunks text runs None), Some c).
Proof.
  intros H. induction runs as [|[start attrs] rest IH]; simpl; [reflexivity|].
  destruct (Js.isEmpty _); [exact IH|].
  rewrite H, andb_false_r. rewrite IH.
  destruct (styledChunks text rest None). reflexivity.
Qed.

(** X11.  The marker of the correct answer is stripped from the first
    non-empty chunk of a text and from no other: under a context that
    asks for it, that chunk is rendered with the leading marker removed,
    and the chunks after it are rendered as without any context, a
    marker they hold being kept. *)
Theorem marker_stripped_once (text : string) (start : nat) (attrs : Attributes)
    (rest : list (nat * Attributes)) (c : Context) :
  stripLeadingCorrectMarker c = true -> _markerStripped c = false ->
  let stop := match rest with (next, _) :: _ => next | [] => String.length text end in
  let chunk := Js.substring text start stop in
  Js.isEmpty chunk = false ->
  fst (styledChunks text ((start, attrs) :: rest) (Some c))
  = wrapStyles attrs
      (Js.replaceAll (String (ascii_of_nat 10) "") "<br/>"
         (_escapeHtml (Js.stripLeadingMarker chunk)))
    :: fst (styledChunks text rest None).
Proof.
  intros Hs Hm stop chunk He. cbn [styledChunks].
  fold stop. fold chunk. rewrite He.
  cbn [flag]. rewrite Hs, Hm. cbn [negb andb setMarkerStripped].
  rewrite styledChunks_stripped by reflexivity.
  reflexivity.
Qed.

Lemma marker_stripped_once_witness :
  let c := {| stripLeadingCorrectMarker := true; _markerStripped := false;
              inEquation := false |} in
  stripLeadingCorrectMarker c = true /\ _markerStripped c = false
  /\ Js.isEmpty (Js.substring "<> a<> b" 0 4) = false
  /\ fst (styledChunks "<> a<> b" [(0, plain); (4, Samples.bold)] (Some c))
     = ["a"; "<b>&lt;&gt; b</b>"].
Proof.
  intros c. split; [reflexivity|]. split; [reflexivity|]. split; [reflexivity|].
  exact (@marker_stripped_once "<> a<> b" 0 plain [(4, Samples.bold)] c
           eq_refl eq_refl eq_refl).
Defined.

(* ================================================================== *)
(** ** The exporter: what the archive holds *)
(* ================================================================== *)

Lemma renameAll_blobs (entries : ImageStore) (h : Heap) (blobs : list BlobRef) :
  snd (renameAll entries h blobs) = (blobs ++ map snd entries)%list.
Proof.
  revert h blobs; induction entries as [|[k r] rest IH]; intros h blobs; simpl.
  - now rewrite List.app_nil_r.
  - rewrite IH. unfold push. now rewrite <- List.app_assoc.
Qed.

Lemma renameAll_untouched (entries : ImageStore) (h : Heap)
    (blobs : list BlobRef) (r : BlobRef) :
  ~ In r (map snd entries) ->
  nth_error (fst (renameAll entries h blobs)) r = nth_error h r.
Proof.
  revert h blobs; induction entries as [|[k0 r0] rest IH]; intros h blobs N;
    simpl in *; [reflexivity|].
  rewrite IH by tauto. rewrite nth_error_update.
  destruct (Nat.eqb_spec r r0); [subst; tauto|reflexivity].
Qed.

Lemma renameAll_renamed (entries : ImageStore) (h : Heap)
    (blobs : list BlobRef) (k : string) (r : BlobRef) :
  NoDup (map snd entries) -> In (k, r) entries ->
  nth_error (fst (renameAll entries h blobs)) r
  = option_map (setName ("images/" ++ k)) (nth_error h r).
Proof.
  revert h blobs; induction entries as [|[k0 r0] rest IH]; intros h blobs N I;
    simpl in *; [contradiction|].
  inversion N as [|? ? N1 N2]; subst. destruct I as [[= -> ->]|I].
  - rewrite renameAll_untouched by exact N1.
    now rewrite nth_error_update, Nat.eqb_refl.
  - rewrite IH by assumption. rewrite nth_error_update.
    destruct (Nat.eqb_spec r r0) as [->|]; [|reflexivity].
    exfalso. apply N1. apply in_map_iff. now exists (k, r0).
Qed.

Lemma generateZip_entries (JSON_stringify : ExportJson -> list byte)
    (now : string) (parseResult : ParseResult) (h : Heap) :
  NoDup (map snd (r_images parseResult)) ->
  (forall k r, In (k, r) (r_images parseResult) -> r < List.length h) ->
  fst (generateZip JSON_stringify now parseResult h)
  = {| zipName := "quiz_export.zip";
       zipEntries :=
         Some (newBlob (JSON_stringify (exportJsonOf now parseResult))
                 "application/json" "quiz.json")
         :: map (fun kr => option_map (setName ("images/" ++ fst kr))
                             (nth_error h (snd kr)))
              (r_images parseResult) |}.
Proof.
  intros N V. unfold generateZip, alloc. cbv beta iota zeta.
  set (json := {| blobName := Some "quiz.json";
                  blobContentType := "application/json";
                  blobBytes := _ |}).
  match goal with
  | |- context [renameAll ?es ?h1 ?bs] =>
      pose proof (renameAll_blobs es h1 bs) as B;
      pose proof (fun k r => @renameAll_renamed es h1 bs k r N) as R;
      pose proof (@renameAll_untouched es h1 bs (List.length h)) as U;
      destruct (renameAll es h1 bs) as [h2 blobs]
  end.
  cbn [fst snd] in *. f_equal.
  rewrite B. cbn [app map]. f_equal.
  - rewrite U.
    + unfold push. rewrite nth_error_app2, Nat.sub_diag by lia. reflexivity.
    + intros I. apply in_map_iff in I as ([k r] & E & I). simpl in E. subst r.
      specialize (V _ _ I). lia.
  - rewrite map_map. apply map_ext_in. intros [k r] I. cbn [fst snd].
    rewrite (R k r I). unfold push. rewrite nth_error_app1; [reflexivity|].
    now apply V with k.
Qed.

(** X12.  What the archive holds.  When the keys of the image store are
    distinct and none of them is made of digits only (so that the object
    enumerates them in the order they were stored in), and its
    references are distinct and point into the heap, the archive is
    named [quiz_export.zip] and holds [quiz.json] first (the serialized
    export value, of type application/json), then one entry for every
    key of the image store, in the order of the store: the blob stored
    under the key, renamed to [images/] followed by the key. *)
Theorem archive_contents (JSON_stringify : ExportJson -> list byte)
    (now : string) (parseResult : ParseResult) (h : Heap) :
  NoDup (keys (r_images parseResult)) ->
  Forall (fun k => digitsOnly k = false) (keys (r_images parseResult)) ->
  NoDup (map snd (r_images parseResult)) ->
  (forall k r, In (k, r) (r_images parseResult) -> r < List.length h) ->
  let zip := fst (generateZip JSON_stringify now parseResult h) in
  zipName zip = "quiz_export.zip"
  /\ zipEntries zip
     = Some (newBlob (JSON_stringify (exportJsonOf now parseResult))
               "application/json" "quiz.json")
       :: map (fun kr => option_map (setName ("images/" ++ fst kr))
                           (nth_error h (snd kr)))
            (r_images parseResult).
Proof.
  intros _ _ N V zip. subst zip. rewrite generateZip_entries by assumption.
  split; reflexivity.
Qed.

Lemma archive_contents_witness :
  let pr := {| quizType := Some ESSAY; questions := [];
               r_images := [("q1_img_001.png", 0)] |} in
  NoDup (keys (r_images pr))
  /\ Forall (fun k => digitsOnly k = false) (keys (r_images pr))
  /\ NoDup (map snd (r_images pr))
  /\ (forall k r, In (k, r) (r_images pr) -> r < List.length [Samples.png])
  /\ zipEntries (fst (generateZip (fun _ => []) "" pr [Samples.png]))
     = [ Some (newBlob [] "application/json" "quiz.json");
         Some (setName "images/q1_img_001.png" Samples.png) ].
Proof.
  intros pr.
  assert (N : NoDup (map snd (r_images pr)))
    by (repeat constructor; intros []).
  assert (V : forall k r, In (k, r) (r_images pr) -> r < List.length [Samples.png]).
  { intros k r [[= _ <-]|[]]. simpl. lia. }
  assert (K : NoDup (keys (r_images pr)))
    by (repeat constructor; intros []).
  assert (D : Forall (fun k => digitsOnly k = false) (keys (r_images pr)))
    by (repeat constructor).
  split; [exact K|]. split; [exact D|].
  split; [exact N|]. split; [exact V|].
  exact (proj2 (@archive_contents (fun _ => []) "" pr [Samples.png] K D N V)).
Defined.

(* ================================================================== *)
(** ** The correct-answer mark: the controller and the parser *)
(* ================================================================== *)

Lemma trimEnd_nonspace (c : ascii) (s : string) :
  Js.isSpace c = false -> Js.trimEnd (String c s) = String c (Js.trimEnd s).
Proof. intros H. cbn [Js.trimEnd]. now rewrite H. Qed.

Lemma trimStart_nonspace (c : ascii) (s : string) :
  Js.isSpace c = false -> Js.trimStart (String c s) = String c s.
Proof. intros H. cbn [Js.trimStart]. now rewrite H. Qed.

Lemma trimStart_idem (s : string) :
  Js.trimStart (Js.trimStart s) = Js.trimStart s.
Proof.
  destruct (trimStart_head s) as [->|(c & r & -> & H)]; [reflexivity|].
  now apply trimStart_nonspace.
Qed.

Lemma trimEnd_empty (s : string) :
  Js.trimEnd s = "" -> Js.trimStart s = "".
Proof.
  induction s as [|c s IH]; [reflexivity|]. cbn [Js.trimEnd Js.trimStart].
  destruct (Js.isSpace c); [|discriminate].
  destruct (Js.trimEnd s); [intros _; now apply IH|discriminate].
Qed.

Lemma trim_commute (s : string) :
  Js.trimStart (Js.trimEnd s) = Js.trimEnd (Js.trimStart s).
Proof.
  induction s as [|c s IH]; [reflexivity|].
  destruct (Js.isSpace c) eqn:E.
  - cbn [Js.trimEnd Js.trimStart]. rewrite E. cbn [andb].
    destruct (Js.trimEnd s) eqn:T; cbn [Js.isEmpty].
    + apply trimEnd_empty in T. rewrite <- IH. reflexivity.
    + cbn [Js.trimStart]. rewrite E. exact IH.
  - rewrite trimStart_nonspace by exact E.
    rewrite trimEnd_nonspace by exact E.
    now apply trimStart_nonspace.
Qed.

Lemma trimStart_trim (s : string) : Js.trimStart (Js.trim s) = Js.trim s.
Proof.
  unfold Js.trim. now rewrite trim_commute, trimStart_idem.
Qed.

(** The marker at the start of a text is seen before and after the
    trimming of its end. *)
Lemma marker_trimEnd (s : string) :
  Js.startsWith (Js.trimEnd s) "<>" = Js.startsWith s "<>".
Proof.
  unfold Js.startsWith. destruct s as [|c s]; [reflexivity|].
  destruct (Js.isSpace c) eqn:E.
  - cbn [Js.trimEnd]. rewrite E. cbn [andb].
    assert (N : Ascii.eqb "<" c = false).
    { destruct (Ascii.eqb_spec "<" c) as [<-|]; [discriminate|reflexivity]. }
    rewrite prefix_cons, N.
    destruct (Js.isEmpty (Js.trimEnd s)); [reflexivity|].
    now rewrite prefix_cons, N.
  - rewrite trimEnd_nonspace by exact E. rewrite !prefix_cons. f_equal.
    destruct s as [|d s]; [reflexivity|].
    destruct (Js.isSpace d) eqn:D.
    + cbn [Js.trimEnd]. rewrite D. cbn [andb].
      assert (N : Ascii.eqb ">" d = false).
      { destruct (Ascii.eqb_spec ">" d) as [<-|]; [discriminate|reflexivity]. }
      rewrite prefix_cons, N.
      destruct (Js.isEmpty (Js.trimEnd s)); [reflexivity|].
      now rewrite prefix_cons, N.
    + rewrite trimEnd_nonspace by exact D.
      now rewrite !prefix_cons, !prefix_nil.
Qed.

Lemma hasLeadingMarker_trim (t : string) :
  Js.hasLeadingMarker (Js.trim t) = Js.hasLeadingMarker t.
Proof.
  unfold Js.hasLeadingMarker. rewrite trimStart_trim.
  unfold Js.trim. apply marker_trimEnd.
Qed.

Lemma matchMark_marker (t : string) :
  matchMark t = None <-> Js.hasLeadingMarker t = false.
Proof.
  unfold matchMark, Js.hasLeadingMarker.
  destruct (Js.startsWith (Js.trimStart t) "<>"); [|tauto].
  destruct (Js.drop 2 (Js.trimStart t)) as [|c r];
    [split; discriminate|].
  destruct (Js.isSpace c); split; discriminate.
Qed.

Lemma removeMark_inserted (t : string) :
  removeMarkFromItem (insertFirst "<> " t) = t.
Proof.
  unfold removeMarkFromItem, matchMark, insertFirst.
  cbn [append]. rewrite trimStart_nonspace by reflexivity.
  unfold Js.startsWith. rewrite !prefix_cons, prefix_nil. cbn [Ascii.eqb Bool.eqb andb].
  cbn [Js.drop]. replace (Js.isSpace " ") with true by reflexivity.
  rewrite Nat.sub_diag. reflexivity.
Qed.

(** X13.  The mark of the correct answer, in the controller and in the
    parser.  Removing the mark from a text the mark was added to gives
    the text back, so toggling twice an item without mark leaves its
    text as it was; the controller finds a mark at the start of exactly
    the texts the parser reads as a correct option; and marking an item
    without mark makes the parser read it as correct with the same
    choiceText as before. *)
Theorem mark_round_trip (t : string) :
  removeMarkFromItem (insertFirst "<> " t) = t
  /\ (matchMark t = None <-> Js.hasLeadingMarker (Js.trim t) = false)
  /\ (matchMark t = None ->
      toggleMark (toggleMark t) = t
      /\ Js.hasLeadingMarker (Js.trim (toggleMark t)) = true
      /\ choiceTextOf (Js.trim (toggleMark t)) = choiceTextOf (Js.trim t)).
Proof.
  split; [apply removeMark_inserted|].
  split; [rewrite hasLeadingMarker_trim; apply matchMark_marker|].
  intros N.
  assert (T : toggleMark t = "<> " ++ t) by (unfold toggleMark; now rewrite N).
  assert (T2 : toggleMark ("<> " ++ t) = t).
  { pose proof (removeMark_inserted t) as R.
    unfold removeMarkFromItem, insertFirst in R. unfold toggleMark.
    destruct (matchMark ("<> " ++ t)) eqn:M; [exact R|].
    apply matchMark_marker in M. discriminate. }
  rewrite T. split; [exact T2|]. split.
  - rewrite hasLeadingMarker_trim. reflexivity.
  - apply matchMark_marker in N.
    unfold choiceTextOf.
    assert (R : Js.stripLeadingMarker (Js.trim t) = Js.trim t).
    { unfold Js.stripLeadingMarker. now rewrite hasLeadingMarker_trim, N. }
    rewrite R, trim_idem. f_equal.
    assert (L : Js.stripLeadingMarker (Js.trim ("<> " ++ t))
                = Js.trimStart (Js.trimEnd t)).
    { unfold Js.stripLeadingMarker. rewrite hasLeadingMarker_trim.
      replace (Js.hasLeadingMarker ("<> " ++ t)) with true by reflexivity.
      rewrite trimStart_trim. unfold Js.trim.
      cbn [append]. rewrite trimStart_nonspace by reflexivity.
      rewrite !trimEnd_nonspace by reflexivity. cbn [Js.drop].
      cbn [Js.trimEnd]. replace (Js.isSpace " ") with true by reflexivity.
      cbn [andb]. destruct (Js.trimEnd t) eqn:E; cbn [Js.isEmpty].
      - reflexivity.
      - cbn [Js.trimStart]. now replace (Js.isSpace " ") with true by reflexivity. }
    rewrite L. unfold Js.trim at 1.
    now rewrite trimStart_idem, trim_commute, trimEnd_idem.
Qed.

Lemma mark_round_trip_witness :
  matchMark "  Jakarta " = None
  /\ toggleMark (toggleMark "  Jakarta ") = "  Jakarta "
  /\ Js.hasLeadingMarker (Js.trim (toggleMark "  Jakarta ")) = true
  /\ choiceTextOf (Js.trim (toggleMark "  Jakarta "))
     = choiceTextOf (Js.trim "  Jakarta ").
Proof.
  split; [reflexivity|].
  exact (proj2 (proj2 (mark_round_trip "  Jakarta ")) eq_refl).
Defined.

(* ================================================================== *)
(** ** The renderer and the image store *)
(* ================================================================== *)

Lemma addImages_app (questionId : string) (w : World) (a b : list Blob) :
  addImages questionId w (a ++ b)%list
  = addImages questionId (addImages questionId w a) b.
Proof. apply fold_left_app. Qed.

Lemma extractNode_world (questionId : string) (child : Inline) :
  forall (w : World) (context : option Context),
    snd (fst (_extractNode child w questionId context))
    = addImages questionId w (inlineImages child).
Proof.
  induction child as [text runs|data width height|children IH|code children IH
                     |code text|] using Inline_nested_ind; intros w context.
  - cbn [_extractNode]. destruct (flag inEquation context); [reflexivity|].
    destruct (_extractStyledText text runs context); reflexivity.
  - reflexivity.
  - cbn [_extractNode inlineImages].
    match goal with
    | |- context [?f children w (Some (assignInEquation context))] =>
        set (c := Some (assignInEquation context));
        assert (H : forall kids w c, Forall
                  (fun k => forall w context,
                     snd (fst (_extractNode k w questionId context))
                     = addImages questionId w (inlineImages k)) kids ->
                  snd (fst (f kids w c))
                  = addImages questionId w (flat_map inlineImages kids));
        [|specialize (H children w c IH); destruct (f children w c) as [[h w'] c'];
          exact H]
    end.
    clear. intros kids. induction kids as [|k kids IHk]; intros w c F.
    + reflexivity.
    + inversion F as [|? ? Hk Hks]; subst. cbn [flat_map].
      rewrite addImages_app.
      specialize (Hk w c).
      destruct (_extractNode k w questionId c) as [[h w1] c1]. cbn [fst snd] in Hk.
      specialize (IHk w1 c1 Hks). rewrite <- Hk.
      match goal with
      | H : snd (fst ?t) = _ |- _ => destruct t as [[hs w2] c2]
      end. exact IHk.
  - rewrite extractNode_function. cbn [inlineImages].
    assert (H : forall kids w, Forall
              (fun k => forall w context,
                 snd (fst (_extractNode k w questionId context))
                 = addImages questionId w (inlineImages k)) kids ->
              snd (renderArgs kids w questionId context)
              = addImages questionId w (flat_map inlineImages kids)).
    { clear. intros kids. induction kids as [|k kids IHk]; intros w F.
      - reflexivity.
      - inversion F as [|? ? Hk Hks]; subst. cbn [flat_map renderArgs].
        rewrite addImages_app.
        specialize (Hk w (Some (assignInEquation context))).
        destruct (_extractNode k w questionId _) as [[h w1] c1].
        cbn [fst snd] in Hk. specialize (IHk w1 Hks). rewrite <- Hk.
        destruct (renderArgs kids w1 questionId context) as [rest w2].
        exact IHk. }
    specialize (H children w IH).
    destruct (renderArgs children w questionId context) as [args w']. exact H.
  - cbn [_extractNode]. destruct (Js.truthy code); reflexivity.
  - reflexivity.
Qed.

Lemma extractHtml_world (questionId : string) (kids : list Inline) :
  forall (w : World) (context : option Context),
    snd (fst (_extractHtml kids w questionId context))
    = addImages questionId w (flat_map inlineImages kids).
Proof.
  induction kids as [|k kids IH]; intros w context; [reflexivity|].
  cbn [_extractHtml flat_map]. rewrite addImages_app.
  pose proof (extractNode_world questionId k w context) as Hk.
  destruct (_extractNode k w questionId context) as [[h w1] c1].
  cbn [fst snd] in Hk. rewrite <- Hk.
  specialize (IH w1 c1).
  destruct (_extractHtml kids w1 questionId c1) as [[hs w2] c2]. exact IH.
Qed.

Lemma extractTableHtml_world (questionId : string) (table : Block) :
  forall (rows : list (list (list Block))) (w : World),
    table = TABLE rows ->
    snd (_extractTableHtml table w questionId)
    = addImages questionId w (blockImages table).
Proof.
  induction table as [| |rows0 IH|] using Block_nested_ind;
    intros rows w [= <-].
  cbn [_extractTableHtml blockImages].
  match goal with
  | |- context [?tableLoop rows0 "<table>" w] =>
      assert (H : forall rows html w,
                Forall (Forall (Forall (fun b => forall rows w,
                  b = TABLE rows ->
                  snd (_extractTableHtml b w questionId)
                  = addImages questionId w (blockImages b)))) rows ->
                snd (tableLoop rows html w)
                = addImages questionId w
                    (flat_map (flat_map (flat_map blockImages)) rows));
      [|specialize (H rows0 "<table>" w IH);
        destruct (tableLoop rows0 "<table>" w) as [html w']; exact H]
  end.
  clear. intros rows. induction rows as [|row rows IHrows]; intros html w F;
    [reflexivity|].
  inversion F as [|? ? Hrow Hrows]; subst. cbn [flat_map].
  rewrite addImages_app.
  match goal with
  | |- context [?rowLoop row (html ++ "<tr>") w] =>
      assert (H : forall cells html w,
                Forall (Forall (fun b => forall rows w,
                  b = TABLE rows ->
                  snd (_extractTableHtml b w questionId)
                  = addImages questionId w (blockImages b))) cells ->
                snd (rowLoop cells html w)
                = addImages questionId w
                    (flat_map (flat_map blockImages) cells));
      [|specialize (H row (html ++ "<tr>") w Hrow);
        destruct (rowLoop row (html ++ "<tr>") w) as [html1 w1];
        cbn [snd] in H; rewrite <- H; apply IHrows; exact Hrows]
  end.
  clear. intros cells. induction cells as [|cell cells IHcells]; intros html w F;
    [reflexivity|].
  inversion F as [|? ? Hcell Hcells]; subst. cbn [flat_map].
  rewrite addImages_app.
  match goal with
  | |- context [?cellLoop cell (html ++ "<td>") noList w] =>
      assert (H : forall blocks html ls w,
                Forall (fun b => forall rows w,
                  b = TABLE rows ->
                  snd (_extractTableHtml b w questionId)
                  = addImages questionId w (blockImages b)) blocks ->
                snd (cellLoop blocks html ls w)
                = addImages questionId w (flat_map blockImages blocks));
      [|specialize (H cell (html ++ "<td>") noList w Hcell);
        destruct (cellLoop cell (html ++ "<td>") noList w) as [[html1 ls1] w1];
        cbn [snd] in H; rewrite <- H;
        destruct (closeList html1 ls1) as [html2 ls2];
        apply IHcells; exact Hcells]
  end.
  clear. intros blocks. induction blocks as [|block blocks IHb];
    intros html ls w F; [reflexivity|].
  inversion F as [|? ? Hb Hbs]; subst. cbn [flat_map].
  rewrite addImages_app.
  destruct block as [text kids|text glyph kids|rows|].
  - destruct (closeList html ls) as [html1 ls1].
    pose proof (extractHtml_world questionId kids w None) as E.
    destruct (_extractHtml kids w questionId None) as [[h w1] c1].
    cbn [fst snd] in E. cbn [blockImages]. rewrite <- E.
    apply IHb; exact Hbs.
  - destruct (_htmlListInfoFromGlyph glyph) as [tag attrs].
    match goal with
    | |- context [let '(_, _) := ?t in _] => destruct t as [html1 ls1]
    end.
    pose proof (extractHtml_world questionId kids w None) as E.
    destruct (_extractHtml kids w questionId None) as [[h w1] c1].
    cbn [fst snd] in E. cbn [blockImages]. rewrite <- E.
    apply IHb; exact Hbs.
  - destruct (closeList html ls) as [html1 ls1].
    specialize (Hb rows w eq_refl).
    destruct (_extractTableHtml (TABLE rows) w questionId) as [h w1].
    cbn [snd] in Hb. rewrite <- Hb. apply IHb; exact Hbs.
  - cbn [blockImages]. apply IHb; exact Hbs.
Qed.

(** X14.  What rendering does to the image store and the heap.  Rendering
    an inline element, or a table, stores the images found below it,
    one after the other in document order, each under the file name
    computed for it at that moment; nothing else of the world changes.
    This holds whatever the context, also for the children of an
    equation function that the LaTeX of the function does not show. *)
Theorem rendering_stores_images (questionId : string) (w : World) :
  (forall child context,
     snd (fst (_extractNode child w questionId context))
     = addImages questionId w (inlineImages child))
  /\ (forall kids context,
        snd (fst (_extractHtml kids w questionId context))
        = addImages questionId w (flat_map inlineImages kids))
  /\ (forall rows,
        snd (_extractTableHtml (TABLE rows) w questionId)
        = addImages questionId w (blockImages (TABLE rows))).
Proof.
  split; [|split].
  - intros child context. apply extractNode_world.
  - intros kids context. apply extractHtml_world.
  - intros rows. now apply extractTableHtml_world with rows.
Qed.

(* ================================================================== *)
(** ** File names of images *)
(* ================================================================== *)

Lemma readNat_zero (s : string) : readNat (String "0" s) = readNat s.
Proof.
  unfold readNat. cbn [NilEmpty.uint_of_string].
  destruct (NilEmpty.uint_of_string s); reflexivity.
Qed.

Lemma readNat_pad (k n : nat) : readNat (Js.padStart0 k (Js.ofNat n)) = Some n.
Proof.
  unfold Js.padStart0.
  induction (k - String.length (Js.ofNat n)) as [|z IH].
  - unfold readNat, Js.ofNat. cbn [Js.repeat0 append].
    rewrite NilEmpty.usu. cbn [option_map].
    now rewrite DecimalNat.Unsigned.of_to.
  - cbn [Js.repeat0 append]. now rewrite readNat_zero.
Qed.

Lemma pad_inj (k n m : nat) :
  Js.padStart0 k (Js.ofNat n) = Js.padStart0 k (Js.ofNat m) -> n = m.
Proof.
  intros E. apply (f_equal readNat) in E. rewrite !readNat_pad in E. congruence.
Qed.

Lemma repeat0_digits (k : nat) : Js.forallb_str Js.isDigit (Js.repeat0 k) = true.
Proof. induction k; simpl; auto. Qed.

Lemma pad_digits (k n : nat) :
  Js.forallb_str Js.isDigit (Js.padStart0 k (Js.ofNat n)) = true.
Proof.
  unfold Js.padStart0. rewrite forallb_str_app, repeat0_digits, ofNat_digits.
  reflexivity.
Qed.

Lemma imageKey_inj (n j n' j' : nat) (ext ext' : string) :
  imageKey n j ext = imageKey n' j' ext' -> n = n' /\ j = j'.
Proof.
  unfold imageKey. cbn [append]. intros [= E].
  apply (f_equal spanDigits) in E.
  rewrite !spanDigits_digits in E by (apply ofNat_digits || reflexivity).
  injection E as E1 E2. split; [now apply ofNat_inj|].
  apply (f_equal spanDigits) in E2.
  rewrite !spanDigits_digits in E2 by (apply pad_digits || reflexivity).
  injection E2 as E2 _. now apply pad_inj in E2.
Qed.

Lemma imageKey_question (n m j : nat) (ext : string) :
  Js.startsWith (imageKey n j ext) (("q" ++ Js.ofNat m) ++ "_") = true <-> n = m.
Proof.
  unfold Js.startsWith, imageKey. split.
  - intros H. apply prefix_inv in H as [r E]. cbn [append] in E.
    injection E as E. rewrite append_assoc in E. cbn [append] in E.
    apply (f_equal spanDigits) in E.
    rewrite !spanDigits_digits in E by (apply ofNat_digits || reflexivity).
    injection E as E _. now apply ofNat_inj.
  - intros <-. rewrite prefix_cancel. reflexivity.
Qed.

Lemma hasKey_In (k : string) (st : ImageStore) :
  hasKey k st = true <-> In k (keys st).
Proof.
  induction st as [|[k' r] st IH]; cbn [hasKey keys map In fst].
  - split; [discriminate|contradiction].
  - rewrite orb_true_iff, IH, String.eqb_eq. reflexivity.
Qed.

Lemma existingCount_push (questionId : string) (st : ImageStore) (k : string)
    (r : BlobRef) :
  existingCount questionId (push st (k, r))
  = existingCount questionId st
    + (if Js.startsWith k (questionId ++ "_") then 1 else 0).
Proof.
  unfold existingCount, keys, push.
  rewrite map_app, filter_app, length_app. cbn [map filter fst].
  destruct (Js.startsWith k (questionId ++ "_")); reflexivity.
Qed.

Lemma NoDup_push {A : Type} (l : list A) (x : A) :
  NoDup l -> ~ In x l -> NoDup (push l x).
Proof.
  intros N I. unfold push. induction l as [|a l IH]; cbn [app].
  - constructor; [intros []|constructor].
  - inversion N as [|? ? Na Nl]; subst. constructor.
    + rewrite in_app_iff. cbn [In] in *. intuition.
    + apply IH; [exact Nl|]. cbn [In] in I. tauto.
Qed.

(** One image of a question keeps the world sound: its file name is
    new. *)
Lemma addImage_sound (h : Heap) (w : World) (n : nat) (data : Blob) :
  sound h w -> sound h (addImage ("q" ++ Js.ofNat n) w data).
Proof.
  intros [(extra & Eh & Er) Nk Ck].
  set (qid := "q" ++ Js.ofNat n).
  set (key := imageFilename qid (images w) (blobContentType data)).
  assert (Ekey : key = imageKey n (existingCount qid (images w) + 1)
                         (_getExtension (blobContentType data)))
    by reflexivity.
  assert (Fresh : ~ In key (keys (images w))).
  { intros I. destruct (Ck _ I) as (n' & j' & e' & E & B).
    rewrite Ekey in E. apply imageKey_inj in E as [<- <-].
    fold qid in B. lia. }
  assert (Store : images (addImage qid w data)
                  = push (images w) (key, List.length (heap w))).
  { unfold addImage, storeSet. cbn [images]. fold key.
    destruct (hasKey key (images w)) eqn:K; [|reflexivity].
    apply hasKey_In in K. contradiction. }
  constructor.
  - exists (push extra data). rewrite Store. split.
    + unfold addImage, push. cbn [heap]. rewrite Eh. now rewrite List.app_assoc.
    + unfold push. rewrite map_app, Er, length_app. cbn [map snd List.length].
      rewrite Eh, length_app, Nat.add_1_r, seq_S. reflexivity.
  - rewrite Store. unfold keys, push. rewrite map_app. cbn [map fst].
    apply NoDup_push; assumption.
  - rewrite Store. intros k I. unfold keys, push in I.
    rewrite map_app, in_app_iff in I. cbn [map fst In] in I.
    destruct I as [I|[<-|[]]].
    + destruct (Ck _ I) as (n' & j' & e' & E & B).
      exists n', j', e'. split; [exact E|].
      rewrite existingCount_push. lia.
    + exists n, (existingCount qid (images w) + 1),
        (_getExtension (blobContentType data)).
      split; [exact Ekey|]. rewrite existingCount_push. fold qid.
      assert (S : Js.startsWith key (qid ++ "_") = true)
        by (rewrite Ekey; now apply imageKey_question).
      rewrite S. lia.
Qed.

Lemma addImages_sound (h : Heap) (n : nat) (blobs : list Blob) (w : World) :
  sound h w -> sound h (addImages ("q" ++ Js.ofNat n) w blobs).
Proof.
  revert w. induction blobs as [|b blobs IH]; intros w S; [exact S|].
  cbn [addImages fold_left]. apply IH. now apply addImage_sound.
Qed.

(* ================================================================== *)
(** ** The image store during a parse *)
(* ================================================================== *)

Lemma readQuestion_world (e : Block) (q : Question) (w : World) :
  snd (readQuestion e q w) = addImages (q_id q) w (blockImages e).
Proof.
  assert (C : q_id (closeQuestionListIfOpen q) = q_id q)
    by (unfold closeQuestionListIfOpen; destruct (q_listOpen q); reflexivity).
  destruct e as [text kids|text glyph kids|rows|]; unfold readQuestion.
  - rewrite C.
    pose proof (extractHtml_world (q_id q) kids w None) as E.
    destruct (_extractHtml kids w (q_id q) None) as [[html w1] c1]. exact E.
  - pose proof (extractHtml_world (q_id q) kids w None) as E.
    destruct (_extractHtml kids w (q_id q) None) as [[html w1] c1].
    destruct (_htmlListInfoFromGlyph glyph). exact E.
  - rewrite C.
    pose proof (@extractTableHtml_world (q_id q) (TABLE rows) rows w eq_refl) as E.
    destruct (_extractTableHtml (TABLE rows) w (q_id q)) as [html w1]. exact E.
  - reflexivity.
Qed.

Lemma readDescriptions_world (e : Block) (q : Question) (w : World) :
  snd (readDescriptions e q w) = addImages (q_id q) w (blockImages e).
Proof.
  assert (C : q_id (closeDescriptionListIfOpen q) = q_id q)
    by (unfold closeDescriptionListIfOpen; destruct (q_descListOpen q);
        reflexivity).
  destruct e as [text kids|text glyph kids|rows|]; unfold readDescriptions.
  - rewrite C.
    pose proof (extractHtml_world (q_id q) kids w None) as E.
    destruct (_extractHtml kids w (q_id q) None) as [[html w1] c1]. exact E.
  - pose proof (extractHtml_world (q_id q) kids w None) as E.
    destruct (_extractHtml kids w (q_id q) None) as [[html w1] c1].
    destruct (_htmlListInfoFromGlyph glyph). exact E.
  - rewrite C.
    pose proof (@extractTableHtml_world (q_id q) (TABLE rows) rows w eq_refl) as E.
    destruct (_extractTableHtml (TABLE rows) w (q_id q)) as [html w1]. exact E.
  - reflexivity.
Qed.

Lemma readOptions_world (i : nat) (e : Block) (q : Question) (w : World) :
  snd (readOptions i e q w) = addImages (q_id q) w (optionImages e).
Proof.
  destruct e as [text kids|text glyph kids|rows|]; try reflexivity.
  unfold readOptions.
  match goal with
  | |- context [_extractHtml kids w (q_id q) ?c] =>
      pose proof (extractHtml_world (q_id q) kids w c) as E;
      destruct (_extractHtml kids w (q_id q) c) as [[html w1] c1]
  end.
  exact E.
Qed.

Lemma core_named (q q' : Question) :
  core q' = core q -> q_id q = "q" ++ Js.ofNat (q_num q) ->
  q_id q' = "q" ++ Js.ofNat (q_num q').
Proof. unfold core. intros [= -> -> _ _ _ _ _ _]. auto. Qed.

Lemma step_sound (h : Heap) (qt : QuizType) (bl i : nat) (e : Block)
    (st st' : PState) :
  stateSound h st -> step qt bl i e st = Ok st' -> stateSound h st'.
Proof.
  unfold step. intros [S N] H.
  destruct (Js.truthy (blockText e) && Js.startsWith (blockText e) "[BEGIN#");
    [discriminate|].
  apply bind_ok in H as ([tag|] & T & H).
  - injection H as <-. split; [exact S|].
    unfold startQuestion. cbn [currentQuestion]. intros q [= <-].
    destruct (Js.truthy (inlineText tag)); reflexivity.
  - destruct (Js.startsWith (blockText e) "[OPTIONS]").
    { destruct (currentQuestion st) as [q|] eqn:Hq; [|discriminate].
      destruct (isEssay qt); [discriminate|].
      destruct (q_hasOptionsTag q); [discriminate|]. injection H as <-.
      split; [exact S|]. cbn [withQuestion currentQuestion]. intros q' [= <-].
      apply core_named with (setOptionsTag q (i + 1));
        [apply core_closeLists|]. exact (N q eq_refl). }
    destruct (Js.startsWith (blockText e) "[DESCRIPTIONS]").
    { destruct (currentQuestion st) as [q|] eqn:Hq; [|discriminate].
      destruct (_ && _); [discriminate|]. destruct (_ && _); [discriminate|].
      destruct (q_hasDescriptionsTag q); [discriminate|]. injection H as <-.
      split; [exact S|]. cbn [withQuestion currentQuestion]. intros q' [= <-].
      apply core_named with (setDescriptionsTag q (i + 1));
        [apply core_closeLists|]. exact (N q eq_refl). }
    destruct (currentQuestion st) as [q|] eqn:Hq.
    2:{ injection H as <-. split; [exact S|]. intros q'. rewrite Hq. discriminate. }
    specialize (N q eq_refl).
    destruct (state st).
    + injection H as <-. split; [exact S|]. intros q'. rewrite Hq.
      now intros [= <-].
    + pose proof (readQuestion_world e q (st_world st)) as W.
      pose proof (core_readQuestion e q (st_world st)) as C.
      destruct (readQuestion e q (st_world st)) as [q1 w1].
      cbn [fst snd] in *. injection H as <-. split.
      * cbn [withQuestion st_world]. rewrite W, N. now apply addImages_sound.
      * cbn [withQuestion currentQuestion]. intros q' [= <-].
        now apply core_named with q.
    + pose proof (readOptions_world i e q (st_world st)) as W.
      assert (C : q_id (fst (readOptions i e q (st_world st))) = q_id q
                  /\ q_num (fst (readOptions i e q (st_world st))) = q_num q).
      { destruct (readOptions_cases i e q (st_world st))
          as [C|(? & ? & ? & ? & _ & C)]; unfold core in C;
          injection C as -> -> _ _ _ _ _ _; auto. }
      destruct (readOptions i e q (st_world st)) as [q1 w1].
      cbn [fst snd] in *. injection H as <-. split.
      * cbn [withQuestion st_world]. rewrite W, N. now apply addImages_sound.
      * cbn [withQuestion currentQuestion]. intros q' [= <-].
        destruct C as [-> ->]. exact N.
    + pose proof (readDescriptions_world e q (st_world st)) as W.
      pose proof (core_readDescriptions e q (st_world st)) as C.
      destruct (readDescriptions e q (st_world st)) as [q1 w1].
      cbn [fst snd] in *. injection H as <-. split.
      * cbn [withQuestion st_world]. rewrite W, N. now apply addImages_sound.
      * cbn [withQuestion currentQuestion]. intros q' [= <-].
        now apply core_named with q.
Qed.

Lemma loop_sound (h : Heap) (qt : QuizType) (b : nat) (blocks : list Block) :
  forall (i : nat) (st st' : PState),
    stateSound h st -> loop qt b i blocks st = Ok st' -> stateSound h st'.
Proof.
  induction blocks as [|e blocks IH]; intros i st st' Hst H; cbn [loop] in H.
  - now injection H as <-.
  - destruct (i =? b); [now apply IH with (S i) st|].
    apply bind_ok in H as (st1 & Hs & H).
    apply IH with (S i) st1; [|exact H].
    exact (@step_sound h qt (b + 1) i e st st1 Hst Hs).
Qed.

Lemma initial_sound (h : Heap) : stateSound h (initialState h).
Proof.
  split; [|discriminate].
  constructor; cbn [initialState st_world heap images keys map].
  - exists []. split; [now rewrite List.app_nil_r|reflexivity].
  - constructor.
  - intros k [].
Qed.

Lemma parse_sound (body : Body) (h : Heap) (r : ParseResult) (h' : Heap) :
  parse body h = Ok (r, h') -> sound h {| heap := h'; images := r_images r |}.
Proof.
  intros H. destruct (parse_ok_inv _ _ H) as (qt & b & st & Hf & Hl & Hr).
  apply loop_sound with (h := h) in Hl; [|apply initial_sound].
  destruct Hl as [S _]. unfold finish in Hr. injection Hr as <- <-.
  cbn [r_images]. now destruct (st_world st).
Qed.

(** X15.  Every image gets a blob and a file name of its own.  After a
    parse started on the heap [h], the blobs of [h] are where they were
    and as they were; the blobs added are referenced by the entries of
    the image store one to one, in the order of the store (no entry was
    overwritten, so no image was lost); and no two entries have the same
    file name. *)
Theorem images_stored_once (body : Body) (h : Heap) (r : ParseResult)
    (h' : Heap) :
  parse body h = Ok (r, h') ->
  exists extra,
    h' = (h ++ extra)%list
    /\ map snd (r_images r) = seq (List.length h) (List.length extra)
    /\ NoDup (keys (r_images r)).
Proof.
  intros H. destruct (parse_sound _ _ H) as [(extra & E1 & E2) N _].
  exists extra. cbn [heap images] in *. auto.
Qed.

Lemma images_stored_once_witness :
  exists r h',
    parse Samples.withPreamble [] = Ok (r, h')
    /\ exists extra,
         h' = ([] ++ extra)%list
         /\ map snd (r_images r) = seq 0 (List.length extra)
         /\ NoDup (keys (r_images r)).
Proof.
  destruct (parse Samples.withPreamble []) as [[r h']|msg] eqn:E;
    [|lazy in E; discriminate].
  exists r, h'. split; [reflexivity|].
  exact (@images_stored_once Samples.withPreamble [] r h' E).
Defined.

Lemma entries_of_new_blobs (g : string -> Blob -> Blob) (imgs : ImageStore) :
  forall (pre extra : list Blob),
    map snd imgs = seq (List.length pre) (List.length extra) ->
    map (fun kr => option_map (g (fst kr)) (nth_error (pre ++ extra) (snd kr)))
      imgs
    = map (fun kd => Some (g (fst kd) (snd kd))) (combine (keys imgs) extra).
Proof.
  induction imgs as [|[k r] imgs IH]; intros pre extra E; [reflexivity|].
  destruct extra as [|d extra]; [discriminate|].
  cbn [map snd List.length seq fst keys combine] in *. injection E as -> E.
  rewrite nth_error_app2, Nat.sub_diag by lia. cbn [nth_error option_map].
  f_equal. specialize (IH (pre ++ [d])%list extra).
  rewrite <- List.app_assoc in IH. cbn [app] in IH. apply IH.
  rewrite length_app, Nat.add_1_r. exact E.
Qed.

(** X16.  The archive of a parsed document.  Exporting the result of a
    parse, on the heap the parse left, gives [quiz.json] followed by
    one file for every blob the parse added, in order: the blob under
    the file name the parser gave it, inside [images/].  No entry of
    the archive is missing. *)
Theorem parsed_export (JSON_stringify : ExportJson -> list byte) (now : string)
    (body : Body) (h : Heap) (r : ParseResult) (h' : Heap) :
  parse body h = Ok (r, h') ->
  zipEntries (fst (generateZip JSON_stringify now r h'))
  = Some (newBlob (JSON_stringify (exportJsonOf now r))
            "application/json" "quiz.json")
    :: map (fun kd => Some (setName ("images/" ++ fst kd) (snd kd)))
         (combine (keys (r_images r)) (skipn (List.length h) h')).
Proof.
  intros H. destruct (parse_sound _ _ H) as [(extra & E1 & E2) _ _].
  cbn [heap images] in *. subst h'.
  rewrite generateZip_entries.
  - cbn [zipEntries]. f_equal.
    rewrite skipn_app, Nat.sub_diag, skipn_all. cbn [skipn app].
    now apply (entries_of_new_blobs (fun k => setName ("images/" ++ k))).
  - rewrite E2. apply seq_NoDup.
  - intros k x I. apply (in_map snd) in I. rewrite E2 in I.
    apply in_seq in I. rewrite length_app. cbn [snd] in I. lia.
Qed.

Lemma parsed_export_witness :
  exists r h',
    parse Samples.withImage [] = Ok (r, h')
    /\ zipEntries (fst (generateZip (fun _ => []) "" r h'))
       = [ Some (newBlob [] "application/json" "quiz.json");
           Some (setName "images/q1_img_001.png" Samples.png) ].
Proof.
  destruct (parse Samples.withImage []) as [[r h']|msg] eqn:E;
    [|lazy in E; discriminate].
  exists r, h'. split; [reflexivity|].
  rewrite (@parsed_export (fun _ => []) "" Samples.withImage [] r h' E).
  lazy in E. injection E as <- <-. lazy. reflexivity.
Defined.

(* ================================================================== *)
(** ** Renumbering a question tag *)
(* ================================================================== *)

Lemma ofNat_nonempty (n : nat) : Js.isEmpty (Js.ofNat n) = false.
Proof.
  unfold Js.ofNat.
  assert (N : Nat.to_uint n <> Decimal.Nil).
  { intros E. pose proof (DecimalNat.Unsigned.to_of (Nat.to_uint n)) as H.
    rewrite DecimalNat.Unsigned.of_to in H.
    apply (DecimalFacts.unorm_nonnil (Nat.to_uint n)). now rewrite <- H. }
  destruct (Nat.to_uint n); [contradiction|reflexivity..].
Qed.

Lemma length_append (a b : string) :
  String.length (a ++ b) = String.length a + String.length b.
Proof. induction a; cbn [append String.length]; [reflexivity|now rewrite IHa]. Qed.

Lemma take_drop (n : nat) (s : string) : take n s ++ Js.drop n s = s.
Proof.
  revert s; induction n as [|n IH]; intros [|c s]; cbn [take Js.drop append];
    try reflexivity. now rewrite IH.
Qed.

Lemma drop_leadingSpaces (s : string) :
  Js.drop (leadingSpaces s) s = Js.trimStart s.
Proof.
  induction s as [|c s IH]; [reflexivity|].
  cbn [leadingSpaces Js.trimStart]. destruct (Js.isSpace c); [exact IH|reflexivity].
Qed.

Lemma take_app_spaces (s r : string) :
  take (leadingSpaces s) (take (leadingSpaces s) s ++ r) = take (leadingSpaces s) s
  /\ Js.drop (leadingSpaces s) (take (leadingSpaces s) s ++ r) = r
  /\ Js.trimStart (take (leadingSpaces s) s ++ r) = Js.trimStart r.
Proof.
  induction s as [|c s IH]; [now destruct r|].
  cbn [leadingSpaces]. destruct (Js.isSpace c) eqn:E.
  - cbn [take append Js.drop Js.trimStart]. rewrite E.
    destruct IH as (-> & -> & ->). auto.
  - now destruct r.
Qed.

(** No white space in a text. *)
Lemma trimEnd_solid (tag rest : string) :
  Js.forallb_str (fun c => negb (Js.isSpace c)) tag = true ->
  Js.trimEnd (tag ++ rest) = tag ++ Js.trimEnd rest.
Proof.
  intros S. induction tag as [|c tag IH]; [reflexivity|].
  cbn [Js.forallb_str] in S. apply andb_prop in S as [Sc St].
  cbn [append]. rewrite trimEnd_nonspace by now destruct (Js.isSpace c).
  now rewrite IH.
Qed.

Lemma trimEnd_solid_inv (tag rest u : string) :
  Js.trimEnd u = tag ++ rest -> Js.isEmpty tag = false ->
  exists r, u = tag ++ r /\ Js.trimEnd r = rest.
Proof.
  revert u; induction tag as [|c tag IH]; intros u E N; [discriminate|].
  destruct u as [|a u]; [discriminate|]. cbn [Js.trimEnd append] in E.
  destruct (Js.isSpace a && Js.isEmpty (Js.trimEnd u)); [discriminate|].
  injection E as -> E. destruct tag as [|d tag].
  - exists u. split; [reflexivity|exact E].
  - destruct (IH u E eq_refl) as (r & -> & R). now exists r.
Qed.

(** The two shapes of a question tag the controller accepts. *)
Lemma tag_info_shape (t : string) (n len : nat) :
  _getQuestionTagInfoFromTrimmed_ t n = Ok (Some len) ->
  exists tag r,
    t = tag ++ r /\ String.length tag = len
    /\ Js.forallb_str (fun c => negb (Js.isSpace c)) tag = true
    /\ Js.isEmpty tag = false
    /\ (tag = "[QUESTION]"
        \/ exists digits,
             tag = "[QUESTION#" ++ digits ++ "]"
             /\ Js.forallb_str Js.isDigit digits = true
             /\ Js.isEmpty digits = false
             /\ Js.startsWith t "[QUESTION]" = false).
Proof.
  unfold _getQuestionTagInfoFromTrimmed_. intros H.
  destruct (Js.startsWith t "[QUESTION"); [|discriminate].
  cbv iota beta delta [negb] in H.
  destruct (Js.startsWith t "[QUESTION]") eqn:L.
  { injection H as <-. apply prefix_inv in L as [r ->].
    exists "[QUESTION]", r. repeat split; auto. }
  destruct (Js.startsWith t "[QUESTION#") eqn:P; [|discriminate].
  apply prefix_inv in P as [r0 ->]. rewrite drop_app_length in H.
  pose proof (spanDigits_app r0) as A.
  assert (D : Js.forallb_str Js.isDigit (fst (spanDigits r0)) = true).
  { clear. induction r0 as [|c r0 IH]; [reflexivity|]. cbn [spanDigits].
    destruct (Js.isDigit c) eqn:E; [|reflexivity].
    destruct (spanDigits r0) as [d r]. cbn [fst Js.forallb_str] in *.
    now rewrite E, IH. }
  destruct (spanDigits r0) as [digits rest]. cbn [fst snd] in *.
  destruct rest as [|c tail]; [discriminate|].
  destruct c as [[] [] [] [] [] [] [] []]; try discriminate.
  destruct (Js.isEmpty digits) eqn:N; [discriminate|].
  injection H as <-. subst r0.
  exists ("[QUESTION#" ++ digits ++ "]"), tail. split; [|split; [|split; [|split]]].
  - rewrite !append_assoc. reflexivity.
  - rewrite !length_append. cbn [String.length]. lia.
  - cbn [append Js.forallb_str]. rewrite forallb_str_app. cbn [Js.forallb_str].
    assert (X : Js.forallb_str (fun c => negb (Js.isSpace c)) digits = true).
    { clear - D. induction digits as [|c d IH]; [reflexivity|].
      cbn [Js.forallb_str] in *. apply andb_prop in D as [Dc Dd].
      rewrite (IH Dd), andb_true_r.
      destruct c as [[] [] [] [] [] [] [] []]; try discriminate Dc; reflexivity. }
    rewrite X. reflexivity.
  - reflexivity.
  - right. exists digits. auto.
Qed.

(** What the parser reads of a trimmed text that starts with a
    labelled tag. *)
Lemma parse_labelled (digits rest : string) :
  Js.forallb_str Js.isDigit digits = true -> Js.isEmpty digits = false ->
  _parseQuestionTag ("[QUESTION#" ++ digits ++ "]" ++ Js.trimEnd rest)
  = if oneLine (Js.trimEnd rest)
    then Ok (Some {| inlineText := Js.trim (Js.trimEnd rest);
                     labelDigits := Some digits |})
    else Err (msgInvalidQuestionTag
                ("[QUESTION#" ++ digits ++ "]" ++ Js.trimEnd rest)).
Proof.
  intros D N. unfold _parseQuestionTag.
  assert (T : Js.trim ("[QUESTION#" ++ digits ++ "]" ++ Js.trimEnd rest)
              = "[QUESTION#" ++ digits ++ "]" ++ Js.trimEnd rest).
  { unfold Js.trim. cbn [append]. rewrite trimStart_nonspace by reflexivity.
    change (String "[" (String "Q" (String "U" (String "E" (String "S"
             (String "T" (String "I" (String "O" (String "N" (String "#"
               (digits ++ String "]" (Js.trimEnd rest))))))))))))
      with ("[QUESTION#" ++ digits ++ "]" ++ Js.trimEnd rest).
    rewrite <- (append_assoc "[QUESTION#" digits), <- append_assoc.
    rewrite trimEnd_solid, trimEnd_idem; [reflexivity|].
    rewrite !forallb_str_app. cbn [Js.forallb_str].
    assert (X : Js.forallb_str (fun c => negb (Js.isSpace c)) digits = true).
    { clear - D. induction digits as [|c d IH]; [reflexivity|].
      cbn [Js.forallb_str] in *. apply andb_prop in D as [Dc Dd].
      rewrite (IH Dd), andb_true_r.
      destruct c as [[] [] [] [] [] [] [] []]; try discriminate Dc; reflexivity. }
    rewrite X. reflexivity. }
  rewrite T. unfold Js.startsWith.
  assert (Q : String.prefix "[QUESTION"
                ("[QUESTION#" ++ digits ++ "]" ++ Js.trimEnd rest) = true)
    by apply (prefix_self_app "[QUESTION"
                ("#" ++ digits ++ "]" ++ Js.trimEnd rest)).
  rewrite Q. cbv iota beta delta [negb].
  assert (L : String.prefix "[QUESTION]"
                ("[QUESTION#" ++ digits ++ "]" ++ Js.trimEnd rest) = false).
  { change "[QUESTION]" with ("[QUESTION" ++ "]").
    change ("[QUESTION#" ++ digits ++ "]" ++ Js.trimEnd rest)
      with ("[QUESTION" ++ "#" ++ digits ++ "]" ++ Js.trimEnd rest).
    rewrite prefix_cancel. cbn [append]. now rewrite prefix_cons. }
  rewrite L, prefix_self_app, drop_app_length.
  cbn [append]. rewrite spanDigits_digits by (assumption || reflexivity).
  rewrite N. cbn [negb andb]. reflexivity.
Qed.

Lemma info_labelled (digits rest : string) (n : nat) :
  Js.forallb_str Js.isDigit digits = true -> Js.isEmpty digits = false ->
  _getQuestionTagInfoFromTrimmed_ ("[QUESTION#" ++ digits ++ "]" ++ rest) n
  = Ok (Some (String.length "[QUESTION#" + String.length digits + 1)).
Proof.
  intros D N. unfold _getQuestionTagInfoFromTrimmed_, Js.startsWith.
  assert (Q : String.prefix "[QUESTION"
                ("[QUESTION#" ++ digits ++ "]" ++ rest) = true)
    by apply (prefix_self_app "[QUESTION" ("#" ++ digits ++ "]" ++ rest)).
  rewrite Q. cbv iota beta delta [negb].
  assert (L : String.prefix "[QUESTION]"
                ("[QUESTION#" ++ digits ++ "]" ++ rest) = false).
  { change "[QUESTION]" with ("[QUESTION" ++ "]").
    change ("[QUESTION#" ++ digits ++ "]" ++ rest)
      with ("[QUESTION" ++ "#" ++ digits ++ "]" ++ rest).
    rewrite prefix_cancel. cbn [append]. now rewrite prefix_cons. }
  rewrite L, prefix_self_app, drop_app_length.
  cbn [append]. rewrite spanDigits_digits by (assumption || reflexivity).
  rewrite N. reflexivity.
Qed.

Lemma parseQuestionTag_trim (s : string) :
  _parseQuestionTag (Js.trim s) = _parseQuestionTag s.
Proof. unfold _parseQuestionTag. now rewrite trim_idem. Qed.

(** X17.  Renumbering the tag of a line.  For a line whose tag the
    controller accepts, the loop of the renumbering leaves the white
    space before the tag and the text after it as they were and writes
    the labelled tag with the next number in between; the controller
    accepts the new line.  When the text after the tag holds no line
    terminator, the parser read the line before and reads it now with
    the same inline text, the label being the new number; when it holds
    one, the parser rejects the new line, also when the line had the
    legacy tag and was read before. *)
Theorem relabelled_line (raw : string) (lineNumber counter len : nat) :
  _getQuestionTagInfoFromTrimmed_ (Js.trim raw) lineNumber = Ok (Some len) ->
  let rest := Js.drop len (Js.trim raw) in
  let label := Js.ofNat (counter + 1) in
  exists new,
    relabelLine raw lineNumber counter = Ok new
    /\ take (leadingSpaces raw) new = take (leadingSpaces raw) raw
    /\ Js.trim new = "[QUESTION#" ++ label ++ "]" ++ rest
    /\ _getQuestionTagInfoFromTrimmed_ (Js.trim new) lineNumber
       = Ok (Some (String.length "[QUESTION#" + String.length label + 1))
    /\ (oneLine rest = true ->
        exists tag,
          _parseQuestionTag raw = Ok (Some tag)
          /\ _parseQuestionTag new
             = Ok (Some {| inlineText := inlineText tag;
                           labelDigits := Some label |}))
    /\ (oneLine rest = false -> isOk (_parseQuestionTag new) = false).
Proof.
  intros H rest label.
  destruct (tag_info_shape _ _ H) as (tag & r' & Et & El & Solid & Ne & Shape).
  assert (Er : rest = r').
  { unfold rest. rewrite Et, <- El. apply drop_app_length. }
  destruct (@trimEnd_solid_inv tag r' (Js.trimStart raw) Et Ne) as (r & Eu & Rr).
  assert (Q : Js.startsWith (Js.trim raw) "[QUESTION" = true).
  { unfold _getQuestionTagInfoFromTrimmed_ in H.
    destruct (Js.startsWith (Js.trim raw) "[QUESTION"); [reflexivity|discriminate]. }
  assert (Len : 1 <= len) by (rewrite <- El; destruct tag; [discriminate|simpl; lia]).
  set (newTag := "[QUESTION#" ++ label ++ "]").
  assert (Dl : Js.forallb_str Js.isDigit label = true) by apply ofNat_digits.
  assert (Nl : Js.isEmpty label = false) by apply ofNat_nonempty.
  assert (New : relabelLine raw lineNumber counter
                = Ok (take (leadingSpaces raw) raw ++ newTag ++ r)).
  { unfold relabelLine. rewrite Q, H. cbn [negb bind]. f_equal.
    unfold deleteText, insertText. fold label. fold newTag.
    replace (leadingSpaces raw + len - 1 + 1) with (leadingSpaces raw + len) by lia.
    rewrite <- drop_drop, drop_leadingSpaces, Eu, <- El, drop_app_length.
    destruct (take_app_spaces raw r) as (-> & -> & _). reflexivity. }
  assert (Trim : Js.trim (take (leadingSpaces raw) raw ++ newTag ++ r)
                 = "[QUESTION#" ++ label ++ "]" ++ r').
  { unfold Js.trim.
    destruct (take_app_spaces raw (newTag ++ r)) as (_ & _ & ->).
    unfold newTag at 1. cbn [append]. rewrite trimStart_nonspace by reflexivity.
    change (String "[" (String "Q" (String "U" (String "E" (String "S"
             (String "T" (String "I" (String "O" (String "N" (String "#"
               ((label ++ "]") ++ r)))))))))))
      with (("[QUESTION#" ++ label ++ "]") ++ r).
    rewrite trimEnd_solid, Rr.
    - rewrite !append_assoc. reflexivity.
    - rewrite !forallb_str_app. cbn [Js.forallb_str].
      assert (X : Js.forallb_str (fun c => negb (Js.isSpace c)) label = true).
      { clear - Dl. induction label as [|c d IH]; [reflexivity|].
        cbn [Js.forallb_str] in *. apply andb_prop in Dl as [Dc Dd].
        rewrite (IH Dd), andb_true_r.
        destruct c as [[] [] [] [] [] [] [] []]; try discriminate Dc; reflexivity. }
      rewrite X. reflexivity. }
  assert (ParseNew : _parseQuestionTag (take (leadingSpaces raw) raw ++ newTag ++ r)
                     = if oneLine r'
                       then Ok (Some {| inlineText := Js.trim r';
                                        labelDigits := Some label |})
                       else Err (msgInvalidQuestionTag
                                   ("[QUESTION#" ++ label ++ "]" ++ r'))).
  { rewrite <- parseQuestionTag_trim, Trim, <- Rr.
    rewrite parse_labelled by assumption. reflexivity. }
  exists (take (leadingSpaces raw) raw ++ newTag ++ r).
  split; [exact New|]. split; [apply take_app_spaces|].
  split; [now rewrite Er|]. split; [rewrite Trim; now apply info_labelled|].
  rewrite Er. split.
  - intros One. rewrite ParseNew, One.
    destruct Shape as [->|(digits & -> & D & N & L)].
    + exists {| inlineText := Js.trim r'; labelDigits := None |}.
      split; [|reflexivity].
      rewrite <- parseQuestionTag_trim, Et.
      unfold _parseQuestionTag. rewrite <- Et, trim_idem, Et.
      unfold Js.startsWith.
      assert (P1 : String.prefix "[QUESTION" ("[QUESTION]" ++ r') = true)
        by apply (prefix_self_app "[QUESTION" ("]" ++ r')).
      rewrite P1, prefix_self_app. cbv iota beta delta [negb].
      unfold Js.slice. rewrite drop_app_length. reflexivity.
    + exists {| inlineText := Js.trim r'; labelDigits := Some digits |}.
      split; [|reflexivity].
      rewrite <- parseQuestionTag_trim, Et.
      rewrite append_assoc, append_assoc, <- Rr. cbn [append].
      change (String "[" (String "Q" (String "U" (String "E" (String "S"
               (String "T" (String "I" (String "O" (String "N" (String "#"
                 (digits ++ String "]" (Js.trimEnd r))))))))))))
        with ("[QUESTION#" ++ digits ++ "]" ++ Js.trimEnd r).
      rewrite parse_labelled by assumption. rewrite Rr, One. reflexivity.
  - intros One. rewrite ParseNew, One. reflexivity.
Qed.

Lemma relabelled_line_witness :
  exists new,
    relabelLine "  [QUESTION] Capital of Indonesia? " 2 6 = Ok new
    /\ Js.trim new = "[QUESTION#7] Capital of Indonesia?"
    /\ exists tag,
         _parseQuestionTag "  [QUESTION] Capital of Indonesia? " = Ok (Some tag)
         /\ _parseQuestionTag new
            = Ok (Some {| inlineText := inlineText tag;
                          labelDigits := Some "7" |}).
Proof.
  destruct (@relabelled_line "  [QUESTION] Capital of Indonesia? " 2 6 10
              ltac:(lazy; reflexivity))
    as (new & N & _ & T & _ & P & _).
  exists new. split; [exact N|]. split; [exact T|].
  apply P. lazy. reflexivity.
Defined.

(* ================================================================== *)
(** ** The header written by the controller *)
(* ================================================================== *)

Lemma step_begin_error (qt : QuizType) (bl i : nat) (e : Block) (st : PState)
    (msg : string) :
  Js.truthy (blockText e) && Js.startsWith (blockText e) "[BEGIN#" = false ->
  step qt bl i e st = Err msg -> aboutBeginPlacement msg = false.
Proof.
  intros B. unfold step. rewrite B. clear B.
  destruct (_parseQuestionTag (blockText e)) as [[tag|]|m] eqn:T; cbn [bind].
  3:{ apply parseQuestionTag_err in T. intros [= <-]. now subst m. }
  { discriminate. }
  destruct (Js.startsWith (blockText e) "[OPTIONS]").
  { destruct (currentQuestion st) as [q|]; [|now intros [= <-]].
    destruct (isEssay qt); [now intros [= <-]|].
    destruct (q_hasOptionsTag q); [now intros [= <-]|discriminate]. }
  destruct (Js.startsWith (blockText e) "[DESCRIPTIONS]").
  { destruct (currentQuestion st) as [q|]; [|now intros [= <-]].
    destruct (_ && _); [now intros [= <-]|].
    destruct (_ && _); [now intros [= <-]|].
    destruct (q_hasDescriptionsTag q); [now intros [= <-]|discriminate]. }
  destruct (currentQuestion st) as [q|]; [|discriminate].
  destruct (state st); try discriminate.
  - destruct (readQuestion e q (st_world st)); discriminate.
  - destruct (readOptions i e q (st_world st)); discriminate.
  - destruct (readDescriptions e q (st_world st)); discriminate.
Qed.

Lemma loop_begin_error (qt : QuizType) (b : nat) (blocks : list Block) :
  forall (i : nat) (st : PState) (msg : string),
    Forall (fun e => Js.truthy (blockText e)
                     && Js.startsWith (blockText e) "[BEGIN#" = false) blocks ->
    loop qt b i blocks st = Err msg -> aboutBeginPlacement msg = false.
Proof.
  induction blocks as [|e blocks IH]; intros i st msg F H; cbn [loop] in H;
    [discriminate|].
  inversion F as [|? ? Fe Fs]; subst.
  destruct (i =? b); [now apply IH with (S i) st|].
  destruct (step qt (b + 1) i e st) as [st1|m] eqn:Hs; cbn [bind] in H.
  - now apply IH with (S i) st1.
  - injection H as <-. now apply step_begin_error in Hs.
Qed.

Lemma clearBegin_text (childrenOf : string -> list Inline) (el : Block) :
  Js.truthy (blockText (clearBegin childrenOf el))
  && Js.startsWith (blockText (clearBegin childrenOf el)) "[BEGIN#" = false.
Proof.
  destruct el as [text kids|text glyph kids|rows|]; try reflexivity;
    unfold clearBegin;
    (destruct (Js.truthy (Js.trim text)) eqn:E; cbn [negb];
     [|cbn [blockText]; now rewrite E]);
    (destruct (Js.startsWith (Js.trim text) "[BEGIN#") eqn:S;
     [rewrite orb_true_r; reflexivity|]);
    rewrite orb_false_r;
    (destruct (matchBeginTag (Js.trim text)); [reflexivity|]);
    cbn [blockText]; rewrite S; apply andb_false_r.
Qed.

(** X18.  The header the controller writes.  After the reset of a
    document to a kind of quiz, the controller reads that kind at line 1
    as the header, the parser finds it at the first block, and the
    parser never rejects the document for a misplaced header, whatever
    the document held before. *)
Theorem reset_installs_header (childrenOf : string -> list Inline)
    (quizType : QuizType) (body : Body) :
  let body' := resetQuiz childrenOf quizType body in
  getQuizTypeHeader body' = (Some quizType, 1)
  /\ findBegin body' 0 = Ok (quizType, 0)
  /\ forall h msg, parse body' h = Err msg -> aboutBeginPlacement msg = false.
Proof.
  intros body'.
  assert (F : findBegin body' 0 = Ok (quizType, 0))
    by (destruct quizType; reflexivity).
  split; [destruct quizType; reflexivity|]. split; [exact F|].
  intros h msg. unfold parse. rewrite F. cbn [bind].
  destruct (loop quizType 0 0 body' (initialState h)) as [st|m] eqn:L;
    cbn [bind]; [discriminate|]. intros [= <-].
  change (loop quizType 0 0 body' (initialState h))
    with (loop quizType 0 1
            (newParagraph childrenOf "" :: map (clearBegin childrenOf) body)
            (initialState h)) in L.
  apply loop_begin_error in L; [exact L|].
  constructor; [reflexivity|].
  apply Forall_forall. intros e I. apply in_map_iff in I as (el & <- & _).
  apply clearBegin_text.
Qed.

(* ================================================================== *)
(** ** The lists in the content of a question *)
(* ================================================================== *)

Lemma nesting_push (open : option string) (parts : list string) (part : string) :
  nesting open (push parts part)
  = match nesting open parts with
    | Some open' => nesting open' [part]
    | None => None
    end.
Proof.
  unfold push. revert open; induction parts as [|p parts IH]; intros open.
  - reflexivity.
  - cbn [app nesting].
    destruct (partKind p), open; try reflexivity; try apply IH.
    destruct (String.eqb tag s); [apply IH|reflexivity].
Qed.

Lemma kind_item (html : string) : partKind ("<li>" ++ html) = Item.
Proof. unfold partKind, Js.startsWith. now rewrite prefix_self_app. Qed.

Lemma kind_paragraph (html : string) : partKind ("<p>" ++ html) = Flow.
Proof.
  unfold partKind, Js.startsWith. cbn [append].
  rewrite !prefix_cons. cbn [Ascii.eqb Bool.eqb andb]. reflexivity.
Qed.

Lemma kind_table (html : string) : partKind ("<table>" ++ html) = Flow.
Proof.
  unfold partKind, Js.startsWith. cbn [append].
  rewrite !prefix_cons. cbn [Ascii.eqb Bool.eqb andb]. reflexivity.
Qed.

Lemma kind_open (glyph : GlyphType) :
  let '(tag, attrs) := _htmlListInfoFromGlyph glyph in
  partKind ("<" ++ tag ++ attrs ++ ">") = OpenList tag
  /\ (tag = "ul" \/ tag = "ol").
Proof. destruct glyph; (split; [lazy; reflexivity|auto]). Qed.

(** The mark-up of a table starts with its start tag. *)
Lemma closeList_prefix (html : string) (ls : ListState) :
  exists r, fst (closeList html ls) = html ++ r.
Proof.
  unfold closeList. destruct (listOpen ls); cbn [fst].
  - eexists. reflexivity.
  - exists "". now rewrite append_nil_r.
Qed.

Lemma table_prefix (rows : list (list (list Block))) (w : World)
    (questionId : string) :
  exists r, fst (_extractTableHtml (TABLE rows) w questionId) = "<table>" ++ r.
Proof.
  cbn [_extractTableHtml].
  match goal with
  | |- context [?tableLoop rows "<table>" w] =>
      assert (H : forall rows html w,
                exists r, fst (tableLoop rows html w) = html ++ r);
      [|destruct (H rows "<table>" w) as [r E];
        destruct (tableLoop rows "<table>" w) as [html w']; cbn [fst] in *;
        subst html; exists (r ++ "</table>"); now rewrite append_assoc]
  end.
  clear. intros rows. induction rows as [|row rows IH]; intros html w.
  { exists "". cbn [fst]. now rewrite append_nil_r. }
  match goal with
  | |- context [?rowLoop row (html ++ "<tr>") w] =>
      assert (H : forall cells html w,
                exists r, fst (rowLoop cells html w) = html ++ r);
      [|destruct (H row (html ++ "<tr>") w) as [r E];
        destruct (rowLoop row (html ++ "<tr>") w) as [html1 w1];
        cbn [fst] in E; subst html1;
        match goal with
        | |- exists r0, fst (?f rows ?a ?b) = _ =>
            destruct (IH a b) as [r1 E1]; rewrite E1
        end;
        eexists; rewrite !append_assoc; reflexivity]
  end.
  clear. intros cells. induction cells as [|cell cells IH]; intros html w.
  { exists "". cbn [fst]. now rewrite append_nil_r. }
  match goal with
  | |- context [?cellLoop cell (html ++ "<td>") noList w] =>
      assert (H : forall blocks html ls w,
                exists r, fst (fst (cellLoop blocks html ls w)) = html ++ r);
      [|destruct (H cell (html ++ "<td>") noList w) as [r E];
        destruct (cellLoop cell (html ++ "<td>") noList w) as [[html1 ls1] w1];
        cbn [fst] in E; subst html1;
        destruct (closeList_prefix ((html ++ "<td>") ++ r) ls1) as [r2 E2];
        destruct (closeList ((html ++ "<td>") ++ r) ls1) as [html2 ls2];
        cbn [fst] in E2; subst html2;
        match goal with
        | |- exists r0, fst (?f cells ?a ?b) = _ =>
            destruct (IH a b) as [r1 E1]; rewrite E1
        end;
        eexists; rewrite !append_assoc; reflexivity]
  end.
  clear. intros blocks. induction blocks as [|block blocks IH];
    intros html ls w.
  { exists "". cbn [fst]. now rewrite append_nil_r. }
  destruct block as [text kids|text glyph kids|rows|].
  - destruct (closeList_prefix html ls) as [r2 E2].
    destruct (closeList html ls) as [html1 ls1]. cbn [fst] in E2. subst html1.
    destruct (_extractHtml kids w questionId None) as [[h w1] c1].
    match goal with
    | |- exists r0, fst (fst (?f blocks ?a ?b ?c)) = _ =>
        destruct (IH a b c) as [r1 E1]; rewrite E1
    end.
    eexists; rewrite !append_assoc; reflexivity.
  - destruct (_htmlListInfoFromGlyph glyph) as [tag attrs].
    match goal with
    | |- context [if ?c then _ else _] => destruct c
    end.
    + destruct (closeList_prefix html ls) as [r2 E2].
      destruct (closeList html ls) as [html1 ls1]. cbn [fst] in E2. subst html1.
      destruct (_extractHtml kids w questionId None) as [[h w1] c1].
      match goal with
      | |- exists r0, fst (fst (?f blocks ?a ?b ?c)) = _ =>
          destruct (IH a b c) as [r1 E1]; rewrite E1
      end.
      eexists; rewrite !append_assoc; reflexivity.
    + destruct (_extractHtml kids w questionId None) as [[h w1] c1].
      match goal with
      | |- exists r0, fst (fst (?f blocks ?a ?b ?c)) = _ =>
          destruct (IH a b c) as [r1 E1]; rewrite E1
      end.
      eexists; rewrite !append_assoc; reflexivity.
  - destruct (closeList_prefix html ls) as [r2 E2].
    destruct (closeList html ls) as [html1 ls1]. cbn [fst] in E2. subst html1.
    destruct (_extractTableHtml (TABLE rows) w questionId) as [h w1].
    match goal with
    | |- exists r0, fst (fst (?f blocks ?a ?b ?c)) = _ =>
        destruct (IH a b c) as [r1 E1]; rewrite E1
    end.
    eexists; rewrite !append_assoc; reflexivity.
  - apply IH.
Qed.

Lemma nesting_close (t : option string) :
  isListTag t ->
  nesting t ["</" ++ templateTag t ++ ">"] = Some None \/ t = None.
Proof. intros [->|[->| ->]]; auto. Qed.

Lemma closeQuestionList_fits (q : Question) :
  listsFit q ->
  listsFit (closeQuestionListIfOpen q)
  /\ q_listOpen (closeQuestionListIfOpen q) = false.
Proof.
  intros F. unfold closeQuestionListIfOpen.
  destruct (q_listOpen q) eqn:O; [|split; [exact F|exact O]].
  destruct F as [[N T] D]. rewrite O in N, T.
  split; [|reflexivity]. split; [|exact D].
  cbn [setContentBuffer q_contentHtmlParts q_listOpen q_listTag openList] in *.
  split; [|now left]. rewrite nesting_push, N.
  destruct T as [->|[->| ->]]; reflexivity.
Qed.

Lemma closeDescriptionList_fits (q : Question) :
  listsFit q ->
  listsFit (closeDescriptionListIfOpen q)
  /\ q_descListOpen (closeDescriptionListIfOpen q) = false.
Proof.
  intros F. unfold closeDescriptionListIfOpen.
  destruct (q_descListOpen q) eqn:O; [|split; [exact F|exact O]].
  destruct F as [C [N T]]. rewrite O in N, T.
  split; [|reflexivity]. split; [exact C|].
  cbn [setDescriptionBuffer q_descriptionHtmlParts q_descListOpen q_descListTag
       openList] in *.
  split; [|now left]. rewrite nesting_push, N.
  destruct T as [->|[->| ->]]; reflexivity.
Qed.

Lemma closeLists_fits (q : Question) :
  listsFit q ->
  listsFit (closeLists q)
  /\ q_listOpen (closeLists q) = false /\ q_descListOpen (closeLists q) = false.
Proof.
  intros F. unfold closeLists.
  destruct (closeQuestionList_fits F) as [F1 O1].
  destruct (closeDescriptionList_fits F1) as [F2 O2].
  split; [exact F2|]. split; [|exact O2].
  unfold closeDescriptionListIfOpen.
  destruct (q_descListOpen (closeQuestionListIfOpen q)); exact O1.
Qed.

Lemma pushContent_flow (q : Question) (part : string) :
  listsFit q -> q_listOpen q = false -> partKind part = Flow ->
  listsFit (pushContent q part) /\ q_listOpen (pushContent q part) = false.
Proof.
  intros [[N T] D] O K. split; [|exact O]. split; [|exact D].
  cbn [pushContent setContentBuffer q_contentHtmlParts q_listOpen q_listTag].
  rewrite O in *. cbn [openList] in *. split; [|now left].
  rewrite nesting_push, N. cbn [nesting]. now rewrite K.
Qed.

Lemma pushDescription_flow (q : Question) (part : string) :
  listsFit q -> q_descListOpen q = false -> partKind part = Flow ->
  listsFit (pushDescription q part).
Proof.
  intros [C [N T]] O K. split; [exact C|].
  cbn [pushDescription setDescriptionBuffer q_descriptionHtmlParts
       q_descListOpen q_descListTag].
  rewrite O in *. cbn [openList] in *. split; [|now left].
  rewrite nesting_push, N. cbn [nesting]. now rewrite K.
Qed.

Lemma tagDiffers_false (t : option string) (tag : string) :
  tagDiffers t tag = false -> t = Some tag.
Proof.
  destruct t as [s|]; [|discriminate]. cbn [tagDiffers].
  destruct (String.eqb_spec s tag); [now subst|discriminate].
Qed.

Lemma readQuestion_fits (e : Block) (q : Question) (w : World) :
  listsFit q -> listsFit (fst (readQuestion e q w)).
Proof.
  intros F. destruct e as [text kids|text glyph kids|rows|]; unfold readQuestion.
  - destruct (closeQuestionList_fits F) as [F1 O1].
    destruct (_extractHtml kids w _ None) as [[html w1] c1]. cbn [fst].
    destruct (Js.truthy html); [|exact F1].
    apply pushContent_flow; [exact F1|exact O1|apply kind_paragraph].
  - destruct (_extractHtml kids w (q_id q) None) as [[html w1] c1].
    pose proof (kind_open glyph) as K.
    destruct (_htmlListInfoFromGlyph glyph) as [tag attrs].
    destruct K as [K Tg]. cbn [fst].
    destruct (negb (q_listOpen q) || tagDiffers (q_listTag q) tag
              || negb (String.eqb (q_listAttrs q) attrs)) eqn:C.
    + destruct (closeQuestionList_fits F) as [[[N T] D] O1].
      split; [|exact D].
      cbn [pushContent setContentBuffer q_contentHtmlParts q_listOpen q_listTag
           openList].
      split; [|destruct Tg as [->| ->]; right; auto].
      rewrite !nesting_push, N, O1. cbn [openList nesting].
      rewrite K. cbn [nesting]. now rewrite kind_item.
    + apply orb_false_iff in C as [C _]. apply orb_false_iff in C as [C1 C2].
      apply negb_false_iff in C1. apply tagDiffers_false in C2.
      destruct F as [[N T] D]. split; [|exact D].
      cbn [pushContent setContentBuffer q_contentHtmlParts q_listOpen q_listTag].
      split; [|exact T].
      rewrite nesting_push, N, C1, C2. cbn [openList nesting].
      now rewrite kind_item.
  - destruct (closeQuestionList_fits F) as [F1 O1].
    destruct (table_prefix rows w (q_id (closeQuestionListIfOpen q))) as [r E].
    destruct (_extractTableHtml (TABLE rows) w _) as [html w1]. cbn [fst] in *.
    subst html. apply pushContent_flow; [exact F1|exact O1|apply kind_table].
  - exact F.
Qed.

Lemma readDescriptions_fits (e : Block) (q : Question) (w : World) :
  listsFit q -> listsFit (fst (readDescriptions e q w)).
Proof.
  intros F. destruct e as [text kids|text glyph kids|rows|];
    unfold readDescriptions.
  - destruct (closeDescriptionList_fits F) as [F1 O1].
    destruct (_extractHtml kids w _ None) as [[html w1] c1]. cbn [fst].
    destruct (Js.truthy html); [|exact F1].
    apply pushDescription_flow; [exact F1|exact O1|apply kind_paragraph].
  - destruct (_extractHtml kids w (q_id q) None) as [[html w1] c1].
    pose proof (kind_open glyph) as K.
    destruct (_htmlListInfoFromGlyph glyph) as [tag attrs].
    destruct K as [K Tg]. cbn [fst].
    destruct (negb (q_descListOpen q) || tagDiffers (q_descListTag q) tag
              || negb (String.eqb (q_descListAttrs q) attrs)) eqn:C.
    + destruct (closeDescriptionList_fits F) as [[Cn [N T]] O1].
      split; [exact Cn|].
      cbn [pushDescription setDescriptionBuffer q_descriptionHtmlParts
           q_descListOpen q_descListTag openList].
      split; [|destruct Tg as [->| ->]; right; auto].
      rewrite !nesting_push, N, O1. cbn [openList nesting].
      rewrite K. cbn [nesting]. now rewrite kind_item.
    + apply orb_false_iff in C as [C _]. apply orb_false_iff in C as [C1 C2].
      apply negb_false_iff in C1. apply tagDiffers_false in C2.
      destruct F as [Cn [N T]]. split; [exact Cn|].
      cbn [pushDescription setDescriptionBuffer q_descriptionHtmlParts
           q_descListOpen q_descListTag].
      split; [|exact T].
      rewrite nesting_push, N, C1, C2. cbn [openList nesting].
      now rewrite kind_item.
  - destruct (closeDescriptionList_fits F) as [F1 O1].
    destruct (table_prefix rows w (q_id (closeDescriptionListIfOpen q))) as [r E].
    destruct (_extractTableHtml (TABLE rows) w _) as [html w1]. cbn [fst] in *.
    subst html. apply pushDescription_flow; [exact F1|exact O1|apply kind_table].
  - exact F.
Qed.

Lemma readOptions_fits (i : nat) (e : Block) (q : Question) (w : World) :
  listsFit q -> listsFit (fst (readOptions i e q w)).
Proof.
  intros F. destruct e; try exact F. unfold readOptions.
  destruct (_extractHtml children w (q_id q) _) as [[html w1] c1]. exact F.
Qed.

Lemma closeLists_closed (q : Question) : listsFit q -> closedLists (closeLists q).
Proof.
  intros F. destruct (closeLists_fits F) as [[[N _] [D _]] [O1 O2]].
  rewrite O1 in N. rewrite O2 in D. split; assumption.
Qed.

Lemma closed_questions (st : PState) :
  stateListed st ->
  Forall closedLists
    match currentQuestion st with
    | Some q => push (st_questions st) (closeLists q)
    | None => st_questions st
    end.
Proof.
  intros [C O]. destruct (currentQuestion st) as [q|]; [|exact C].
  unfold push. apply Forall_app. split; [exact C|].
  constructor; [|constructor]. apply closeLists_closed. now apply O.
Qed.

Lemma created_fits (num line : nat) : listsFit (_createQuestionObj num line).
Proof. repeat split; now left. Qed.

Lemma step_listed (qt : QuizType) (bl i : nat) (e : Block) (st st' : PState) :
  stateListed st -> step qt bl i e st = Ok st' -> stateListed st'.
Proof.
  unfold step. intros L H.
  destruct (Js.truthy (blockText e) && Js.startsWith (blockText e) "[BEGIN#");
    [discriminate|].
  apply bind_ok in H as ([tag|] & T & H).
  - injection H as <-. split.
    + cbn [startQuestion st_questions]. now apply closed_questions.
    + cbn [startQuestion currentQuestion]. intros q [= <-].
      destruct (Js.truthy (inlineText tag)); [|apply created_fits].
      apply pushContent_flow;
        [apply created_fits|reflexivity|apply kind_paragraph].
  - destruct L as [C O].
    destruct (Js.startsWith (blockText e) "[OPTIONS]").
    { destruct (currentQuestion st) as [q|] eqn:Hq; [|discriminate].
      destruct (isEssay qt); [discriminate|].
      destruct (q_hasOptionsTag q); [discriminate|]. injection H as <-.
      split; [exact C|]. cbn [withQuestion currentQuestion]. intros q' [= <-].
      apply (@closeLists_fits (setOptionsTag q (i + 1))). exact (O q eq_refl). }
    destruct (Js.startsWith (blockText e) "[DESCRIPTIONS]").
    { destruct (currentQuestion st) as [q|] eqn:Hq; [|discriminate].
      destruct (_ && _); [discriminate|]. destruct (_ && _); [discriminate|].
      destruct (q_hasDescriptionsTag q); [discriminate|]. injection H as <-.
      split; [exact C|]. cbn [withQuestion currentQuestion]. intros q' [= <-].
      apply (@closeLists_fits (setDescriptionsTag q (i + 1))).
      exact (O q eq_refl). }
    destruct (currentQuestion st) as [q|] eqn:Hq.
    2:{ injection H as <-. split; [exact C|]. intros q'. rewrite Hq. discriminate. }
    specialize (O q eq_refl).
    destruct (state st).
    + injection H as <-. split; [exact C|]. intros q'. rewrite Hq.
      now intros [= <-].
    + pose proof (@readQuestion_fits e q (st_world st) O) as F.
      destruct (readQuestion e q (st_world st)) as [q1 w1]. injection H as <-.
      split; [exact C|]. cbn [withQuestion currentQuestion]. now intros q' [= <-].
    + pose proof (@readOptions_fits i e q (st_world st) O) as F.
      destruct (readOptions i e q (st_world st)) as [q1 w1]. injection H as <-.
      split; [exact C|]. cbn [withQuestion currentQuestion]. now intros q' [= <-].
    + pose proof (@readDescriptions_fits e q (st_world st) O) as F.
      destruct (readDescriptions e q (st_world st)) as [q1 w1]. injection H as <-.
      split; [exact C|]. cbn [withQuestion currentQuestion]. now intros q' [= <-].
Qed.

Lemma loop_listed (qt : QuizType) (b : nat) (blocks : list Block) :
  forall (i : nat) (st st' : PState),
    stateListed st -> loop qt b i blocks st = Ok st' -> stateListed st'.
Proof.
  induction blocks as [|e blocks IH]; intros i st st' Hst H; cbn [loop] in H.
  - now injection H as <-.
  - destruct (i =? b); [now apply IH with (S i) st|].
    apply bind_ok in H as (st1 & Hs & H).
    apply IH with (S i) st1; [|exact H].
    exact (@step_listed qt (b + 1) i e st st1 Hst Hs).
Qed.

(** X19.  The lists in the content of a question are well nested.  In
    every question of a parsed document, the parts of the content, and
    those of the descriptions, read in order, open a list only outside
    of a list, hold items only inside one, end only the list that is
    open, hold paragraphs and tables only outside of a list, and leave
    no list open at the end; [content] is these parts joined, and
    [descriptions] too, unless they are empty. *)
Theorem lists_well_nested (body : Body) (h : Heap) (r : ParseResult)
    (h' : Heap) :
  parse body h = Ok (r, h') ->
  Forall (fun q =>
            nesting None (q_contentHtmlParts q) = Some None
            /\ nesting None (q_descriptionHtmlParts q) = Some None
            /\ q_content q = Js.join (q_contentHtmlParts q)
            /\ q_descriptions q
               = (if Js.truthy (Js.join (q_descriptionHtmlParts q))
                  then Some (Js.join (q_descriptionHtmlParts q)) else None))
    (questions r).
Proof.
  intros H. destruct (parse_ok_inv _ _ H) as (qt & b & st & Hf & Hl & Hr).
  apply loop_listed in Hl.
  2:{ split; [constructor|discriminate]. }
  apply closed_questions in Hl.
  unfold finish in Hr. injection Hr as <- _. cbn [questions].
  apply Forall_map. eapply Forall_impl; [|exact Hl].
  intros q [C D]. cbn [finalizeQuestion q_contentHtmlParts
                       q_descriptionHtmlParts q_content q_descriptions].
  auto.
Qed.

Lemma lists_well_nested_witness :
  let body := [ Samples.para "[BEGIN#ESSAY]"; Samples.para "[QUESTION#1] Which?";
                LIST_ITEM "one" BULLET [TEXT "one" [(0, plain)]];
                LIST_ITEM "two" BULLET [TEXT "two" [(0, plain)]];
                Samples.para "End." ] in
  exists r h',
    parse body [] = Ok (r, h')
    /\ map q_contentHtmlParts (questions r)
       = [[ "<p>Which?</p>"; "<ul>"; "<li>one</li>"; "<li>two</li>"; "</ul>";
            "<p>End.</p>" ]]
    /\ Forall (fun q => nesting None (q_contentHtmlParts q) = Some None)
         (questions r).
Proof.
  intros body.
  destruct (parse body []) as [[r h']|msg] eqn:E; [|lazy in E; discriminate].
  exists r, h'. split; [reflexivity|]. split.
  - lazy in E. injection E as <- _. lazy. reflexivity.
  - eapply Forall_impl; [|exact (@lists_well_nested body [] r h' E)].
    intros q F. apply F.
Defined.

(* ================================================================== *)
(** ** The preview *)
(* ================================================================== *)

Lemma parse_numbered (body : Body) (h : Heap) (r : ParseResult) (h' : Heap) :
  parse body h = Ok (r, h') -> numbered (questions r).
Proof.
  intros H. destruct (parse_ok_inv _ _ H) as (qt & b & st & Hf & Hl & Hr).
  apply loop_numbered in Hl; [|apply initial_numbered].
  apply (finish_numbered qt) in Hl. now rewrite Hr in Hl.
Qed.

Lemma numbered_ids_distinct (qs : list Question) :
  numbered qs -> NoDup (map q_id qs).
Proof.
  intros N. apply NoDup_nth_error. intros i j L E.
  rewrite length_map in L. rewrite !nth_error_map in E.
  destruct (nth_error qs i) as [q|] eqn:Ei;
    [|apply nth_error_None in Ei; lia].
  destruct (nth_error qs j) as [q'|] eqn:Ej; [|discriminate].
  injection E as E. destruct (N _ _ Ei) as [_ Ii]. destruct (N _ _ Ej) as [_ Ij].
  rewrite Ii, Ij in E. apply append_inj_l in E. apply ofNat_inj in E. lia.
Qed.

Lemma filter_none {A : Type} (f : A -> bool) (l : list A) :
  (forall y, In y l -> f y = false) -> filter f l = [].
Proof.
  induction l as [|a l IH]; intros H; [reflexivity|]. cbn [filter].
  rewrite (H a) by now left. apply IH. intros y I. apply H. now right.
Qed.

Lemma filter_unique (l : list Question) :
  NoDup (map q_id l) ->
  forall k q, nth_error l k = Some q ->
    filter (fun q' => String.eqb (q_id q') (q_id q)) l = [q].
Proof.
  induction l as [|a l IH]; intros N k q H; [now destruct k|].
  cbn [map] in N. inversion N as [|? ? Na Nl]; subst. cbn [filter].
  destruct k as [|k]; cbn [nth_error] in H.
  - injection H as ->. rewrite String.eqb_refl. f_equal.
    apply filter_none. intros y I.
    destruct (String.eqb_spec (q_id y) (q_id q)) as [E|]; [|reflexivity].
    exfalso. apply Na. rewrite <- E. now apply in_map.
  - destruct (String.eqb_spec (q_id a) (q_id q)) as [E|]; [|now apply IH with k].
    exfalso. apply Na. rewrite E. apply in_map. now apply nth_error_In with k.
Qed.

(** X20.  The entries of the preview.  For a document that parses, the
    values of the entries the controller lists are distinct, the dialog
    opened on the value of an entry shows the question of that entry and
    no other, and the dialog opened on [all], or on no value, shows
    every question. *)
Theorem preview_selects_one (body : Body) (h : Heap) (r : ParseResult)
    (h' : Heap) :
  parse body h = Ok (r, h') ->
  getPreviewQuestionList body h = Ok (map previewEntry (questions r), h')
  /\ NoDup (map fst (map previewEntry (questions r)))
  /\ (forall k q, nth_error (questions r) k = Some q ->
        fst (previewEntry q) = "q" ++ Js.ofNat (k + 1)
        /\ previewedQuestions (fst (previewEntry q)) r = [q])
  /\ previewedQuestions "all" r = questions r
  /\ previewedQuestions "" r = questions r.
Proof.
  intros H. pose proof (parse_numbered _ _ H) as N.
  split; [unfold getPreviewQuestionList; now rewrite H|].
  split; [rewrite map_map; now apply numbered_ids_distinct|].
  split; [|split; reflexivity].
  intros k q Hk. destruct (N _ _ Hk) as [_ I]. split; [exact I|].
  cbn [previewEntry fst]. unfold previewedQuestions.
  cbv zeta.
  assert (T : Js.truthy (q_id q) = true) by (rewrite I; reflexivity).
  assert (A : String.eqb (q_id q) "all" = false) by (rewrite I; reflexivity).
  rewrite T, A. apply filter_unique with k; [|exact Hk].
  now apply numbered_ids_distinct.
Qed.

Lemma preview_selects_one_witness :
  exists r h',
    parse Samples.relabelled [] = Ok (r, h')
    /\ map fst (map previewEntry (questions r)) = ["q1"; "q2"]
    /\ forall k q, nth_error (questions r) k = Some q ->
         previewedQuestions (q_id q) r = [q].
Proof.
  destruct (parse Samples.relabelled []) as [[r h']|msg] eqn:E;
    [|lazy in E; discriminate].
  exists r, h'. split; [reflexivity|]. split.
  - lazy in E. injection E as <- _. lazy. reflexivity.
  - intros k q Hk.
    exact (proj2 (proj1 (proj2 (proj2
             (@preview_selects_one Samples.relabelled [] r h' E))) k q Hk)).
Defined.

(* ================================================================== *)
(** ** The keys of the options *)
(* ================================================================== *)

Lemma collapse_idem (s : string) :
  forall b, Js.collapseSpacesFrom b (Js.collapseSpacesFrom b s)
            = Js.collapseSpacesFrom b s.
Proof.
  induction s as [|c s IH]; intros b; [reflexivity|].
  cbn [Js.collapseSpacesFrom]. destruct (Js.isSpace c) eqn:E.
  - destruct b; [apply IH|]. cbn [Js.collapseSpacesFrom].
    replace (Js.isSpace " ") with true by reflexivity. now rewrite IH.
  - cbn [Js.collapseSpacesFrom]. now rewrite E, IH.
Qed.

Lemma collapse_empty (s : string) :
  Js.collapseSpacesFrom true s = "" -> Js.trimEnd s = "".
Proof.
  induction s as [|c s IH]; [reflexivity|]. cbn [Js.collapseSpacesFrom Js.trimEnd].
  destruct (Js.isSpace c); [|discriminate]. intros H. now rewrite (IH H).
Qed.

Lemma trimEnd_collapse (s : string) :
  forall b, Js.trimEnd s = s ->
    Js.trimEnd (Js.collapseSpacesFrom b s) = Js.collapseSpacesFrom b s.
Proof.
  induction s as [|c s IH]; intros b H; [reflexivity|].
  cbn [Js.trimEnd] in H.
  destruct (Js.isSpace c && Js.isEmpty (Js.trimEnd s)) eqn:C; [discriminate|].
  injection H as H. cbn [Js.collapseSpacesFrom]. destruct (Js.isSpace c) eqn:E.
  - cbn [andb] in C. destruct b; [now apply IH|].
    cbn [Js.trimEnd]. rewrite (IH true H).
    destruct (Js.collapseSpacesFrom true s) eqn:Y; [|reflexivity].
    apply collapse_empty in Y. rewrite Y in C. discriminate.
  - rewrite trimEnd_nonspace by exact E. now rewrite IH.
Qed.

Lemma normal_idem (s : string) :
  Js.trim (Js.collapseSpaces (Js.trim s)) = Js.collapseSpaces (Js.trim s)
  /\ Js.collapseSpaces (Js.collapseSpaces (Js.trim s))
     = Js.collapseSpaces (Js.trim s).
Proof.
  split; [|apply collapse_idem].
  unfold Js.trim at 1.
  assert (S : Js.trimStart (Js.collapseSpaces (Js.trim s))
              = Js.collapseSpaces (Js.trim s)).
  { unfold Js.trim.
    destruct (trimStart_head s) as [->|(c & r & -> & H)]; [reflexivity|].
    rewrite trimEnd_nonspace by exact H.
    unfold Js.collapseSpaces. cbn [Js.collapseSpacesFrom]. rewrite H.
    now apply trimStart_nonspace. }
  rewrite S. apply trimEnd_collapse. unfold Js.trim. apply trimEnd_idem.
Qed.

(** X21.  The key of an option is normalized, and for a parsed option it
    is the choiceText.  The text the validator compares options by has
    no white space at its ends and no white space but single spaces, so
    normalizing it again changes nothing; and for every option of a
    parsed document it is the choiceText the parser stored, as it is. *)
Theorem option_keys_normal :
  (forall o,
     Js.trim (_normalizeOptionLine_ o) = _normalizeOptionLine_ o
     /\ Js.collapseSpaces (_normalizeOptionLine_ o) = _normalizeOptionLine_ o)
  /\ (forall body h r h' q o,
        parse body h = Ok (r, h') ->
        In q (questions r) -> In o (q_options q) ->
        o_choiceText o = Some (_normalizeOptionLine_ o)).
Proof.
  split.
  - intros o. unfold _normalizeOptionLine_. apply normal_idem.
  - intros body h r h' q o H Hq Ho.
    destruct (parse_located _ _ H) as (qt & _ & L).
    rewrite Forall_forall in L. specialize (L q Hq).
    apply In_nth_error in Ho as [k Hk].
    destruct (loc_option L _ Hk) as (_ & (text & glyph & kids & _ & _ & C) & _).
    unfold _normalizeOptionLine_. rewrite C. f_equal. unfold choiceTextOf.
    destruct (normal_idem (Js.stripLeadingMarker (Js.trim text))) as [T Co].
    now rewrite T, Co.
Qed.

Lemma option_keys_normal_witness :
  exists r h',
    parse Samples.capital [] = Ok (r, h')
    /\ forall q o, In q (questions r) -> In o (q_options q) ->
         o_choiceText o = Some (_normalizeOptionLine_ o).
Proof.
  destruct (parse Samples.capital []) as [[r h']|msg] eqn:E;
    [|lazy in E; discriminate].
  exists r, h'. split; [reflexivity|]. intros q o.
  exact (proj2 option_keys_normal Samples.capital [] r h' q o E).
Defined.
